(** * heybabe: the ClientHello reader (package [sni]), the fragmenting
      connection adapter (package [tlsfrag]) and the rows of the result
      table (package [main])

    A shallow embedding of [bepass/sni], of [bepass/tlsfrag/conn.go] and of
    the row that [printTable] computes in [tests.go].

    - Go [int] values that come from slice lengths or from one or two bytes
      are kept as [Z]; where the adapter does arithmetic on caller-supplied
      [int]s, in its draws and in the duration of its sleeps, the result
      wraps at 64 bits ([wrap64]).
    - [[]byte] is [list Byte.byte]; a Go [string] is the byte sequence it holds.
    - An [io.Reader] is the list of chunks its successive [Read] calls deliver.
    - A [net.Conn] is a log of the calls made on it together with a script of
      the results the peer will give.
    - Loops that Go writes with [for] and that have no structural bound take
      fuel; running out of it is the outcome [OutOfFuel], a run-time panic is
      [Panic]. *)

From Stdlib Require Import ZArith List Bool Lia.
From Stdlib.Strings Require Import Byte.
Import ListNotations.
Open Scope Z_scope.

(** ** Go slices and outcomes *)

Abbreviation byte := Byte.byte (only parsing).

(** [int(b)] *)
Definition b2z (b : byte) : Z := Z.of_N (Byte.to_N b).

(** [len(s)] *)
Definition len {A : Type} (s : list A) : Z := Z.of_nat (length s).

(** [s[:n]] and [s[n:]] for [0 <= n <= len s]. *)
Definition take {A : Type} (n : Z) (s : list A) : list A := firstn (Z.to_nat n) s.

Definition drop {A : Type} (n : Z) (s : list A) : list A := skipn (Z.to_nat n) s.

(** [s[lo:hi]] for [0 <= lo <= hi <= len s]. *)
Definition slice {A : Type} (s : list A) (lo hi : Z) : list A :=
  take (hi - lo) (drop lo s).

(** [int(s[i])] for an index in range. *)
Definition at_ (s : list byte) (i : Z) : Z := b2z (nth (Z.to_nat i) s x00).

(** [int(hi)<<8 | int(lo)] *)
Definition be16 (hi lo : Z) : Z := Z.lor (Z.shiftl hi 8) lo.

(** How a call ends: it returns, it panics, or it is still running when the
    fuel is spent. *)
Inductive outcome (A : Type) : Type :=
| Done (a : A)
| Panic
| OutOfFuel.
Arguments Done {A} a.
Arguments Panic {A}.
Arguments OutOfFuel {A}.

Inductive error : Type :=
| io_EOF                 (* io.EOF *)
| errSSLv2               (* "tls: unsupported SSLv2 handshake received" *)
| errNotTLS              (* "not a tls packet" *)
| errNet (code : Z).     (* an error reported by the wrapped net.Conn *)

(** ** io.Reader *)

(** The chunks to come; once they are gone [Read] returns [(0, io.EOF)]. *)
Definition Reader := list (list byte).

(** [r.Read(p)] with [len p = room]: the bytes stored into [p], the error,
    and the reader afterwards. *)
Definition Reader_Read (r : Reader) (room : Z) : (list byte * option error) * Reader :=
  match r with
  | [] => (([], Some io_EOF), [])
  | c :: r' =>
      if len c <=? room then ((c, None), r')
      else ((take room c, None), drop room c :: r')
  end.

(** [bytes.NewReader(b)]: one chunk, and [io.EOF] at once when [b] is empty. *)
Definition bytes_NewReader (b : list byte) : Reader :=
  match b with
  | [] => []
  | _ :: _ => [b]
  end.

Module sni.

Definition recordHeaderLen : Z := 5.
Definition recordTypeHandshake : Z := 22.
Definition typeClientHello : Z := 1.
Definition extensionServerName : Z := 0.
Definition extensionStatusRequest : Z := 5.
Definition extensionSupportedCurves : Z := 10.
Definition extensionSupportedPoints : Z := 11.
Definition extensionSessionTicket : Z := 35.
Definition extensionNextProtoNeg : Z := 13172.
Definition statusTypeOCSP : Z := 1.

(** *** block *)

Record block : Type := mkBlock {
  data : list byte;
  cap : Z;           (* cap(b.data) *)
  off : Z
}.

(** [new(block)] *)
Definition newBlock : block := mkBlock [] 0 0.

(** The doubling loop of [reserve]: [for m < n { m *= 2 }]. From [m >= 1]
    it takes fewer than [n] doublings to reach [n]; the lengths asked for (a
    record of at most 5 + 65535 bytes, or what is left of a block) are far
    from overflowing an [int]. *)
Fixpoint grow (fuel : nat) (m n : Z) : Z :=
  if m <? n then
    match fuel with
    | O => m
    | S fuel' => grow fuel' (m * 2) n
    end
  else m.

(** [b.reserve(n)]: the capacity is at least [n] afterwards. *)
Definition reserve (b : block) (n : Z) : block :=
  if n <=? cap b then b
  else
    let m := cap b in
    let m := if m =? 0 then 1024 else m in
    mkBlock (data b) (grow (Z.to_nat n) m n) (off b).

(** [resize] is only called on a fresh block, whose backing array is zero. *)
Definition resize (b : block) (n : Z) : block :=
  let b := if cap b <? n then reserve b n else b in
  mkBlock (take n (data b ++ repeat x00 (Z.to_nat (n - len (data b))))) (cap b) (off b).

(** The [for] of [readFromUntil]: read into [b.data[len(b.data):cap(b.data)]]
    until [n] bytes are there or the reader reports an error. *)
Fixpoint readFromUntil_loop (fuel : nat) (r : Reader) (b : block) (n : Z)
  : outcome (option error * Reader * block) :=
  match fuel with
  | O => OutOfFuel
  | S fuel' =>
      let '((got, err), r') := Reader_Read r (cap b - len (data b)) in
      let b' := mkBlock (data b ++ got) (cap b) (off b) in
      if n <=? len (data b') then Done (None, r', b')
      else
        match err with
        | Some e => Done (Some e, r', b')
        | None => readFromUntil_loop fuel' r' b' n
        end
  end.

(** [b.readFromUntil(r, n)]: the error, the reader and the block afterwards. *)
Definition readFromUntil (fuel : nat) (r : Reader) (b : block) (n : Z)
  : outcome (option error * Reader * block) :=
  if n <=? len (data b) then Done (None, r, b)
  else readFromUntil_loop fuel r (reserve b n) n.

(** [copy(bb.data, b.data[n:])] fills all of [bb.data]: both have the same
    length. *)
Definition splitBlock (b : block) (n : Z) : block * option block :=
  if len (data b) <=? n then (b, None)
  else
    let bb := resize newBlock (len (data b) - n) in
    let bb := mkBlock (drop n (data b) ++ drop (len (drop n (data b))) (data bb))
                      (cap bb) (off bb) in
    (mkBlock (take n (data b)) (cap b) (off b), Some bb).

(** [b.Read(p)]: [n = copy(p, b.data[b.off:]); b.off += n], the error being
    left at [nil]. The result is the count, the error, [p] afterwards; the
    slice expression panics when [b.off] is not within [b.data]. *)
Definition block_Read (b : block) (p : list byte)
  : outcome ((Z * option error * list byte) * block) :=
  if (off b <? 0) || (len (data b) <? off b) then Panic
  else
    let src := drop (off b) (data b) in
    let n := Z.min (len p) (len src) in
    Done ((n, None, take n src ++ drop n p), mkBlock (data b) (cap b) (off b + n)).

(** *** The record layer *)

(** What the closure [readRecord] captures: the reader, [nextBlock] and
    [hand]. *)
Record rstate : Type := mkRState {
  rd : Reader;
  nextBlock : option block;
  hand : list byte
}.

(** One call of the closure: the error it returns and the captured
    variables afterwards. *)
Definition readRecord (fuel : nat) (st : rstate) : outcome (option error * rstate) :=
  let b := match nextBlock st with
           | None => newBlock
           | Some b => b
           end in
  match readFromUntil fuel (rd st) b recordHeaderLen with
  | OutOfFuel => OutOfFuel
  | Panic => Panic
  | Done (Some e, r1, b1) => Done (Some e, mkRState r1 (Some b1) (hand st))
  | Done (None, r1, b1) =>
      let typ := at_ (data b1) 0 in
      if typ =? 128 then Done (Some errSSLv2, mkRState r1 (Some b1) (hand st))
      else
        let versions := be16 (at_ (data b1) 1) (at_ (data b1) 2) in
        let n := be16 (at_ (data b1) 3) (at_ (data b1) 4) in
        if negb (typ =? recordTypeHandshake) || (4096 <=? versions)
        then Done (Some errNotTLS, mkRState r1 (Some b1) (hand st))
        else
          match readFromUntil fuel r1 b1 (recordHeaderLen + n) with
          | OutOfFuel => OutOfFuel
          | Panic => Panic
          | Done (Some e, r2, b2) => Done (Some e, mkRState r2 (Some b2) (hand st))
          | Done (None, r2, b2) =>
              let '(b3, nb) := splitBlock b2 (recordHeaderLen + n) in
              let b3 := mkBlock (data b3) (cap b3) recordHeaderLen in
              let payload := slice (data b3) (off b3) (recordHeaderLen + n) in
              Done (None, mkRState r2 nb (hand st ++ payload))
          end
  end.

(** *** ClientHelloMsg *)

Record ClientHelloMsg : Type := mkClientHelloMsg {
  Raw : list byte;
  Versions : Z;
  Random : list byte;
  SessionID : list byte;
  CipherSuites : list Z;
  CompressionMethods : list byte;
  NextProtoNeg : bool;
  ServerName : list byte;
  OcspStapling : bool;
  SupportedCurves : list Z;
  SupportedPoints : list byte;
  TicketSupported : bool;
  SessionTicket : list byte
}.

(** [new(ClientHelloMsg)] *)
Definition zeroMsg : ClientHelloMsg :=
  mkClientHelloMsg [] 0 [] [] [] [] false [] false [] [] false [].

(** Assignments to single fields of [*m]. *)
Definition set_ServerName (m : ClientHelloMsg) (v : list byte) : ClientHelloMsg :=
  mkClientHelloMsg (Raw m) (Versions m) (Random m) (SessionID m) (CipherSuites m)
    (CompressionMethods m) (NextProtoNeg m) v (OcspStapling m)
    (SupportedCurves m) (SupportedPoints m) (TicketSupported m) (SessionTicket m).

Definition set_NextProtoNeg (m : ClientHelloMsg) (v : bool) : ClientHelloMsg :=
  mkClientHelloMsg (Raw m) (Versions m) (Random m) (SessionID m) (CipherSuites m)
    (CompressionMethods m) v (ServerName m) (OcspStapling m)
    (SupportedCurves m) (SupportedPoints m) (TicketSupported m) (SessionTicket m).

Definition set_OcspStapling (m : ClientHelloMsg) (v : bool) : ClientHelloMsg :=
  mkClientHelloMsg (Raw m) (Versions m) (Random m) (SessionID m) (CipherSuites m)
    (CompressionMethods m) (NextProtoNeg m) (ServerName m) v
    (SupportedCurves m) (SupportedPoints m) (TicketSupported m) (SessionTicket m).

Definition set_SupportedCurves (m : ClientHelloMsg) (v : list Z) : ClientHelloMsg :=
  mkClientHelloMsg (Raw m) (Versions m) (Random m) (SessionID m) (CipherSuites m)
    (CompressionMethods m) (NextProtoNeg m) (ServerName m) (OcspStapling m)
    v (SupportedPoints m) (TicketSupported m) (SessionTicket m).

Definition set_SupportedPoints (m : ClientHelloMsg) (v : list byte) : ClientHelloMsg :=
  mkClientHelloMsg (Raw m) (Versions m) (Random m) (SessionID m) (CipherSuites m)
    (CompressionMethods m) (NextProtoNeg m) (ServerName m) (OcspStapling m)
    (SupportedCurves m) v (TicketSupported m) (SessionTicket m).

(** [m.TicketSupported = true; m.SessionTicket = v] *)
Definition set_SessionTicket (m : ClientHelloMsg) (v : list byte) : ClientHelloMsg :=
  mkClientHelloMsg (Raw m) (Versions m) (Random m) (SessionID m) (CipherSuites m)
    (CompressionMethods m) (NextProtoNeg m) (ServerName m) (OcspStapling m)
    (SupportedCurves m) (SupportedPoints m) true v.

(** *** unmarshal *)

(** The loop over the entries of a server_name extension,
    [for i := 0; i < numNames; i++]. [None] is [return false]; [Some None] is
    the loop running to its end; [Some (Some name)] is the [break] after
    [m.ServerName = string(d[0:nameLen])]. *)
Fixpoint scanServerNames (numNames : nat) (d : list byte) : option (option (list byte)) :=
  match numNames with
  | O => Some None
  | S k =>
      if len d <? 3 then None
      else
        let nameType := at_ d 0 in
        let nameLen := be16 (at_ d 1) (at_ d 2) in
        let d := drop 3 d in
        if len d <? nameLen then None
        else if nameType =? 0 then Some (Some (slice d 0 nameLen))
        else scanServerNames k (drop nameLen d)
  end.

(** [for i := 0; i < numCurves; i++ { ... uint16(d[0])<<8 | uint16(d[1]); d = d[2:] }] *)
Fixpoint readCurves (numCurves : nat) (d : list byte) : list Z :=
  match numCurves with
  | O => []
  | S k => be16 (at_ d 0) (at_ d 1) :: readCurves k (drop 2 d)
  end.

(** The [switch extension] of the extension loop; [None] is [return false]. *)
Definition extensionCase (m : ClientHelloMsg) (extension length : Z) (data : list byte)
  : option ClientHelloMsg :=
  if extension =? extensionServerName then
    if length <? 2 then None
    else
      let numNames := be16 (at_ data 0) (at_ data 1) in
      match scanServerNames (Z.to_nat numNames) (drop 2 data) with
      | None => None
      | Some None => Some m
      | Some (Some name) => Some (set_ServerName m name)
      end
  else if extension =? extensionNextProtoNeg then
    if 0 <? length then None else Some (set_NextProtoNeg m true)
  else if extension =? extensionStatusRequest then
    if length <? 1 then None
    else if at_ data 0 =? statusTypeOCSP then Some (set_OcspStapling m true)
    else Some m
  else if extension =? extensionSupportedCurves then
    if length <? 2 then None
    else
      let lVal := be16 (at_ data 0) (at_ data 1) in
      if negb (Z.rem lVal 2 =? 0) || negb (length =? lVal + 2) then None
      else
        let numCurves := Z.quot lVal 2 in
        Some (set_SupportedCurves m (readCurves (Z.to_nat numCurves) (drop 2 data)))
  else if extension =? extensionSupportedPoints then
    if length <? 1 then None
    else
      let lVal := at_ data 0 in
      if negb (length =? lVal + 1) then None
      else Some (set_SupportedPoints m (take lVal (drop 1 data)))
  else if extension =? extensionSessionTicket then
    Some (set_SessionTicket m (slice data 0 length))
  else Some m.

(** [for len(data) != 0 { ... }]. Every pass drops at least four bytes, so
    [length data] passes are enough ([extensionsLoop_fuel]). *)
Fixpoint extensionsLoop (fuel : nat) (m : ClientHelloMsg) (data : list byte)
  : option ClientHelloMsg :=
  if len data =? 0 then Some m
  else
    match fuel with
    | O => None
    | S fuel' =>
        if len data <? 4 then None
        else
          let extension := be16 (at_ data 0) (at_ data 1) in
          let length := be16 (at_ data 2) (at_ data 3) in
          let data := drop 4 data in
          if len data <? length then None
          else
            match extensionCase m extension length data with
            | None => None
            | Some m' => extensionsLoop fuel' m' (drop length data)
            end
    end.

(** [m.unmarshal(data, l)]: [None] is [false]; [Some m'] is [true] with the
    receiver as it is left. *)
Definition unmarshal (m : ClientHelloMsg) (data : list byte) : option ClientHelloMsg :=
  if len data <? 42 then None
  else
    let raw := data in
    let versions := be16 (at_ data 4) (at_ data 5) in
    let random := slice data 6 38 in
    let sessionIDLen := at_ data 38 in
    if (32 <? sessionIDLen) || (len data <? 39 + sessionIDLen) then None
    else
      let sessionID := slice data 39 (39 + sessionIDLen) in
      let data := drop (39 + sessionIDLen) data in
      if len data <? 2 then None
      else
        let cipherSuiteLen := be16 (at_ data 0) (at_ data 1) in
        if (Z.rem cipherSuiteLen 2 =? 1) || (len data <? 2 + cipherSuiteLen) then None
        else
          let numCipherSuites := Z.quot cipherSuiteLen 2 in
          let cipherSuites :=
            map (fun i => be16 (at_ data (2 + 2 * Z.of_nat i)) (at_ data (3 + 2 * Z.of_nat i)))
                (seq 0 (Z.to_nat numCipherSuites)) in
          let data := drop (2 + cipherSuiteLen) data in
          if len data <? 1 then None
          else
            let compressionMethodsLen := at_ data 0 in
            if len data <? 1 + compressionMethodsLen then None
            else
              let compressionMethods := slice data 1 (1 + compressionMethodsLen) in
              let data := drop (1 + compressionMethodsLen) data in
              let m := mkClientHelloMsg raw versions random sessionID cipherSuites
                         compressionMethods false [] false
                         (SupportedCurves m) (SupportedPoints m) false [] in
              if len data =? 0 then Some m
              else if len data <? 2 then None
              else
                let extensionsLength := be16 (at_ data 0) (at_ data 1) in
                let data := drop 2 data in
                if negb (extensionsLength =? len data) then None
                else extensionsLoop (length data) m data.

(** *** ReadClientHello *)

(** [for hand.Len() < 4+n { readRecord() }] *)
Fixpoint readRest (fuel : nat) (n : Z) (st : rstate) : outcome (option error * rstate) :=
  if len (hand st) <? 4 + n then
    match fuel with
    | O => OutOfFuel
    | S fuel' =>
        match readRecord fuel st with
        | Done (None, st') => readRest fuel' n st'
        | other => other
        end
    end
  else Done (None, st).

(** [ReadClientHello(rd, l)]: the message, or the error (and no message). *)
Definition ReadClientHello (fuel : nat) (r : Reader) : outcome (ClientHelloMsg + error) :=
  match readRecord fuel (mkRState r None []) with
  | OutOfFuel => OutOfFuel
  | Panic => Panic
  | Done (Some e, _) => Done (inr e)
  | Done (None, st) =>
      let data := hand st in
      if len data <? 4 then Done (inr errNotTLS)
      else
        let n := Z.lor (Z.lor (Z.shiftl (at_ data 1) 16) (Z.shiftl (at_ data 2) 8)) (at_ data 3) in
        match readRest fuel n st with
        | OutOfFuel => OutOfFuel
        | Panic => Panic
        | Done (Some e, _) => Done (inr e)
        | Done (None, st') =>
            let data := take (4 + n) (hand st') in
            if negb (at_ data 0 =? typeClientHello) then Done (inr errNotTLS)
            else
              match unmarshal zeroMsg data with
              | None => Done (inr errNotTLS)
              | Some msg => Done (inl msg)
              end
        end
  end.

(** Fuel with which [ReadClientHello] returns on the reader [r]
    ([ReadClientHello_total]): every loop pass takes a chunk or a record
    header off it. *)
Definition readFuel (r : Reader) : nat := length r + length (concat r) + 2.

End sni.

(** ** The fragmenting adapter *)

Module tlsfrag.

(** *** net.Conn, math/rand and time.Sleep *)

(** [wlog] holds every [Write] call made so far, oldest first: the bytes
    passed and the result returned. [wscript] holds the results of the calls
    to come: [None] is a full write, [(len p, nil)]; [Some (n, e)] is a
    failed write, [(n, e)]; past the end of the script every write is a full
    one. [rscript] holds what the coming [Read] calls deliver. *)
Record Conn : Type := mkConn {
  wlog : list (list byte * (Z * option error));
  wscript : list (option (Z * error));
  rscript : list (list byte * option error)
}.

(** [c.Write(p)]: the count and the error, and the connection afterwards. *)
Definition Conn_Write (c : Conn) (p : list byte) : (Z * option error) * Conn :=
  let res := match wscript c with
             | Some (n, e) :: _ => (n, Some e)
             | _ => (len p, None)
             end in
  (res, mkConn (wlog c ++ [(p, res)]) (tl (wscript c)) (rscript c)).

(** [c.Read(p)]: the count, the error and [p] afterwards. *)
Definition Conn_Read (c : Conn) (p : list byte) : (Z * option error * list byte) * Conn :=
  match rscript c with
  | [] => ((0, Some io_EOF, p), c)
  | (d, e) :: rest =>
      let got := take (len p) d in
      ((len got, e, got ++ drop (len got) p), mkConn (wlog c) (wscript c) rest)
  end.

(** The package-level source of [math/rand], as the raw values it will
    produce, and the durations [time.Sleep] was called with (a
    [time.Duration] counts nanoseconds). *)
Record Runtime : Type := mkRuntime {
  rand : list Z;
  slept : list Z
}.

(** The fields of [Adapter] but the two mutexes and the logger; a range
    [[2]int] is the pair of its two elements. *)
Record Adapter : Type := mkAdapter {
  conn : Conn;
  isFirstWrite : bool;
  BSL : Z * Z;
  SL : Z * Z;
  ASL : Z * Z;
  Delay : Z * Z
}.

(** [New(conn, bsl, sl, asl, delay, logger)] *)
Definition New (c : Conn) (bsl sl asl delay : Z * Z) : Adapter :=
  mkAdapter c true bsl sl asl delay.

(** What a method of the adapter can read and change: the adapter it is
    called on, and the random source and the clock of the process. *)
Record state : Type := mkState {
  self : Adapter;
  rt : Runtime
}.

(** A method body: from a state to how it ends and the state it leaves.
    The state is kept when a call panics or runs out of fuel, so that what
    it did before can be told. *)
Definition M (A : Type) : Type := state -> outcome A * state.

Definition ret {A : Type} (a : A) : M A := fun s => (Done a, s).

Definition bind {A B : Type} (m : M A) (k : A -> M B) : M B :=
  fun s =>
    match m s with
    | (Done a, s') => k a s'
    | (Panic, s') => (Panic, s')
    | (OutOfFuel, s') => (OutOfFuel, s')
    end.

Definition panic {A : Type} : M A := fun s => (Panic, s).

Definition outOfFuel {A : Type} : M A := fun s => (OutOfFuel, s).

Notation "x <- c1 ;; c2" := (bind c1 (fun x => c2))
  (at level 61, c1 at next level, right associativity).
Notation "' pat <- c1 ;; c2" := (bind c1 (fun x => match x with pat => c2 end))
  (at level 61, pat pattern, c1 at next level, right associativity).
Notation "c1 ;;; c2" := (bind c1 (fun _ => c2))
  (at level 61, right associativity).

Definition getAdapter : M Adapter := fun s => (Done (self s), s).

(** [a.conn.Write(p)] *)
Definition connWrite (p : list byte) : M (Z * option error) :=
  fun s =>
    let a := self s in
    let '(res, c') := Conn_Write (conn a) p in
    (Done res, mkState (mkAdapter c' (isFirstWrite a) (BSL a) (SL a) (ASL a) (Delay a)) (rt s)).

(** [a.conn.Read(p)] *)
Definition connRead (p : list byte) : M (Z * option error * list byte) :=
  fun s =>
    let a := self s in
    let '(res, c') := Conn_Read (conn a) p in
    (Done res, mkState (mkAdapter c' (isFirstWrite a) (BSL a) (SL a) (ASL a) (Delay a)) (rt s)).

(** [a.isFirstWrite = v] *)
Definition setFirstWrite (v : bool) : M unit :=
  fun s =>
    let a := self s in
    (Done tt, mkState (mkAdapter (conn a) v (BSL a) (SL a) (ASL a) (Delay a)) (rt s)).

(** [rand.Intn(n)] for [n > 0]: a value in [[0, n)]. *)
Definition rand_Intn (n : Z) : M Z :=
  fun s =>
    match rand (rt s) with
    | [] => (Done 0, s)
    | r :: rest => (Done (r mod n), mkState (self s) (mkRuntime rest (slept (rt s))))
    end.

(** [time.Millisecond], a [time.Duration]. *)
Definition time_Millisecond : Z := 1000000.

(** [time.Sleep(d)] *)
Definition time_Sleep (d : Z) : M unit :=
  fun s => (Done tt, mkState (self s) (mkRuntime (rand (rt s)) (slept (rt s) ++ [d]))).

(** Go's [int] is 64 bits wide. *)
Definition wrap64 (z : Z) : Z := (z + 2 ^ 63) mod 2 ^ 64 - 2 ^ 63.

(** [bytes.HasPrefix(s, sep)] and [bytes.Index(s, sep)] *)
Fixpoint hasPrefix (s sep : list byte) : bool :=
  match sep, s with
  | [], _ => true
  | _ :: _, [] => false
  | x :: sep', y :: s' => Byte.eqb x y && hasPrefix s' sep'
  end.

Fixpoint bytes_Index_from (i : Z) (s sep : list byte) : Z :=
  if hasPrefix s sep then i
  else
    match s with
    | [] => -1
    | _ :: s' => bytes_Index_from (i + 1) s' sep
    end.

Definition bytes_Index (s sep : list byte) : Z := bytes_Index_from 0 s sep.

(** *** writeFragments *)

(** The draw that [writeFragments] makes twice in every pass, once for the
    fragment length and once for the delay:
    [if hi-lo > 0 { v = rand.Intn(hi-lo) + lo } else { v = lo }]. *)
Definition drawRange (lo hi : Z) : M Z :=
  if 0 <? wrap64 (hi - lo) then
    r <- rand_Intn (wrap64 (hi - lo)) ;;
    ret (wrap64 (r + lo))
  else ret lo.

(** [for position < len(b) { ... }] *)
Fixpoint writeFragments_loop (fuel : nat) (b : list byte) (lengthMin lengthMax : Z)
    (nw position : Z) : M (Z * option error) :=
  if position <? len b then
    match fuel with
    | O => outOfFuel
    | S fuel' =>
        fragmentLength <- drawRange lengthMin lengthMax ;;
        let fragmentLength :=
          if len b - position <? fragmentLength then len b - position else fragmentLength in
        a <- getAdapter ;;
        delay <- drawRange (fst (Delay a)) (snd (Delay a)) ;;
        (* b[position : position+fragmentLength] panics when the high bound
           is below the low one *)
        if fragmentLength <? 0 then panic
        else
          ' (tnw, ew) <- connWrite (slice b position (position + fragmentLength)) ;;
          match ew with
          | Some e => ret (0, Some e)
          | None =>
              let nw := nw + tnw in
              let position := position + fragmentLength in
              (* time.Duration(delay) * time.Millisecond is a product of
                 int64s *)
              (if 0 <? delay then time_Sleep (wrap64 (delay * time_Millisecond))
               else ret tt) ;;;
              writeFragments_loop fuel' b lengthMin lengthMax nw position
          end
    end
  else ret (nw, None).

(** [a.writeFragments(b, index)] *)
Definition writeFragments (fuel : nat) (b : list byte) (index : Z) : M (Z * option error) :=
  a <- getAdapter ;;
  let '(lengthMin, lengthMax) :=
    if index =? 0 then BSL a
    else if index =? 1 then SL a
    else ASL a in
  writeFragments_loop fuel b lengthMin lengthMax 0 0.

(** *** fragmentAndWriteFirstPacket *)

(** [for i := 0; i < 3; i++ { tnw, ew := a.writeFragments(chunks[i], i) ... }]
    over the chunks that are left, [i] being the index of the first of them. *)
Fixpoint sendChunks (fuel : nat) (chunks : list (list byte)) (i nw : Z)
  : M (Z * option error) :=
  match chunks with
  | [] => ret (nw, None)
  | c :: rest =>
      ' (tnw, ew) <- writeFragments fuel c i ;;
      match ew with
      | Some e => ret (0, Some e)
      | None => sendChunks fuel rest (i + 1) (nw + tnw)
      end
  end.

(** [a.fragmentAndWriteFirstPacket(b)]. [chunks[i] = make(...)] followed by
    [copy] is the slice copied. *)
Definition fragmentAndWriteFirstPacket (fuel : nat) (b : list byte) : M (Z * option error) :=
  match sni.ReadClientHello (sni.readFuel (bytes_NewReader b)) (bytes_NewReader b) with
  | OutOfFuel => outOfFuel
  | Panic => panic
  | Done (inr _) => connWrite b
  | Done (inl hello) =>
      let helloPacketSni := sni.ServerName hello in
      let index := bytes_Index b helloPacketSni in
      if index =? -1 then connWrite b
      else
        let chunk0 := slice b 0 index in
        let chunk1 := slice b index (index + len helloPacketSni) in
        let chunk2 := take (len b - index - len helloPacketSni)
                           (drop (index + len helloPacketSni) b) in
        sendChunks fuel [chunk0; chunk1; chunk2] 0 0
  end.

(** *** Write and Read *)

(** [a.Write(b)], the caller holding [writeMutex]. *)
Definition Write (fuel : nat) (b : list byte) : M (Z * option error) :=
  a <- getAdapter ;;
  if isFirstWrite a then
    setFirstWrite false ;;;
    fragmentAndWriteFirstPacket fuel b
  else connWrite b.

(** [a.Read(p)], the caller holding [readMutex]: the count, the error and
    the caller's buffer afterwards. *)
Definition Read (p : list byte) : M (Z * option error * list byte) :=
  ' (bytesRead, err, p') <- connRead p ;;
  match err with
  | Some e => ret (0, Some e, p')
  | None => ret (bytesRead, None, p')
  end.

End tlsfrag.

(** ** The test harness *)

Module harness.

(** [TestAttemptResult]; a [time.Duration] is a 64-bit count of
    nanoseconds. *)
Record TestAttemptResult : Type := mkTestAttemptResult {
  TransportEstablishDuration : Z;
  TLSHandshakeDuration : Z;
  err : option error
}.

(** The three texts of the "Handshake Status" column, each printed with
    [successCount] and [totalAttempts]. *)
Inductive Status : Type :=
| Failed
| Success
| Partial.

(** [for _, attempt := range testResult.Attempts { if attempt.err == nil { ... } }]
    from [successCount], [totalTransport] and [totalTLS] as they stand.
    [successCount] is at most the length of the slice and does not wrap. *)
Fixpoint tally (attempts : list TestAttemptResult) (acc : Z * Z * Z) : Z * Z * Z :=
  match attempts with
  | [] => acc
  | attempt :: rest =>
      let '(successCount, totalTransport, totalTLS) := acc in
      match err attempt with
      | None =>
          tally rest (successCount + 1,
                      tlsfrag.wrap64 (totalTransport + TransportEstablishDuration attempt),
                      tlsfrag.wrap64 (totalTLS + TLSHandshakeDuration attempt))
      | Some _ => tally rest acc
      end
  end.

(** One row of [printTable]: the status with its two counts, and the two
    averages before they are formatted. *)
Definition row (attempts : list TestAttemptResult) : (Status * Z * Z) * (Z * Z) :=
  let '(successCount, totalTransport, totalTLS) := tally attempts (0, 0, 0) in
  let totalAttempts := len attempts in
  let status :=
    if successCount =? 0 then Failed
    else if successCount =? totalAttempts then Success
    else Partial in
  let '(avgTransport, avgTLS) :=
    if 0 <? successCount
    then (Z.quot totalTransport successCount, Z.quot totalTLS successCount)
    else (0, 0) in
  ((status, successCount, totalAttempts), (avgTransport, avgTLS)).

(** [tcpTlsFragConn := tlsfrag.New(tcpConn, bsl, sl, asl, delay, l)] in
    [test_TCP_TLS13_UTLS_ChromeAuto_bepass_fragment], with the settings of
    the test. *)
Definition tcpTlsFragConn (tcpConn : tlsfrag.Conn) : tlsfrag.Adapter :=
  let bsl := (2000, 2000) in
  let sl := (1, 2) in
  let asl := (1, 2) in
  let delay := (10, 20) in
  tlsfrag.New tcpConn bsl sl asl delay.

End harness.

Import sni.
Import tlsfrag.
Import harness.

(** * Statement vocabulary *)

(** ** The reader *)

(** A slice is no longer than its capacity. *)
Definition wfBlock (b : block) : Prop := len (data b) <= cap b.

(** The block kept between two records is well formed. *)
Definition wfState (st : rstate) : Prop :=
  match nextBlock st with
  | None => True
  | Some b => wfBlock b
  end.

(** The bytes the next [readRecord] will see: what is left in [nextBlock],
    then what the reader still holds. *)
Definition stream (st : rstate) : list byte :=
  match nextBlock st with
  | None => []
  | Some b => data b
  end ++ concat (rd st).

(** One record off the front of a byte stream: the error, or the payload
    and the bytes after the record. *)
Definition recordOf (bs : list byte) : error + (list byte * list byte) :=
  if len bs <? 5 then inl io_EOF
  else if at_ bs 0 =? 128 then inl errSSLv2
  else if negb (at_ bs 0 =? recordTypeHandshake) || (4096 <=? be16 (at_ bs 1) (at_ bs 2))
  then inl errNotTLS
  else
    let n := be16 (at_ bs 3) (at_ bs 4) in
    if len bs <? 5 + n then inl io_EOF
    else inr (slice bs 5 (5 + n), drop (5 + n) bs).

(** Fuel for every record that the bytes at hand can still make. *)
Definition enoughFuel (fuel : nat) (st : rstate) : Prop :=
  (length (rd st) + length (stream st) < fuel)%nat.

(** The 24-bit length of a handshake message, bytes 1 to 3. *)
Definition handshakeLen (data : list byte) : Z :=
  Z.lor (Z.lor (Z.shiftl (at_ data 1) 16) (Z.shiftl (at_ data 2) 8)) (at_ data 3).

(** What [ReadClientHello] does once the records are read. *)
Definition decodeHand (n : Z) (R : outcome (option error * rstate))
  : outcome (ClientHelloMsg + error) :=
  match R with
  | OutOfFuel => OutOfFuel
  | Panic => Panic
  | Done (Some e, _) => Done (inr e)
  | Done (None, st') =>
      let data := take (4 + n) (hand st') in
      if negb (at_ data 0 =? typeClientHello) then Done (inr errNotTLS)
      else
        match unmarshal zeroMsg data with
        | None => Done (inr errNotTLS)
        | Some msg => Done (inl msg)
        end
  end.

(** The byte of value [z], for [0 <= z < 256]. *)
Definition byteOf (z : Z) : byte :=
  match Byte.of_N (Z.to_N z) with
  | Some b => b
  | None => x00
  end.

(** The two bytes of a 16-bit length, most significant first. *)
Definition u16 (n : Z) : list byte := [byteOf (n / 256); byteOf (n mod 256)].

(** One TLS record of type handshake, its version bytes being [vhi], [vlo]. *)
Definition handshakeRecord (vhi vlo : byte) (payload : list byte) : list byte :=
  [x16; vhi; vlo] ++ u16 (len payload) ++ payload.

(** Where the length fields of a ClientHello lie: the cipher-suite list
    follows the session id, the compression methods follow the cipher
    suites, the extension block follows the compression methods. *)
Definition cipherSuitesAt (data : list byte) : Z := 39 + at_ data 38.

(** The length field of the cipher-suite list. *)
Definition cipherSuiteLenOf (data : list byte) : Z :=
  be16 (at_ data (cipherSuitesAt data)) (at_ data (cipherSuitesAt data + 1)).

(** Where the compression methods start, with their length byte. *)
Definition compressionAt (data : list byte) : Z :=
  cipherSuitesAt data + 2 + cipherSuiteLenOf data.

(** Where the extension block starts, with its length field. *)
Definition extensionsAt (data : list byte) : Z :=
  compressionAt data + 1 + at_ data (compressionAt data).

(** The length field of the extension block. *)
Definition extensionsLenOf (data : list byte) : Z :=
  be16 (at_ data (extensionsAt data)) (at_ data (extensionsAt data + 1)).

(** One entry of a server_name extension: the name type, the length of the
    name on two bytes, the name. *)
Definition encodeName (e : byte * list byte) : list byte :=
  fst e :: u16 (len (snd e)) ++ snd e.

(** The entries of a server_name extension, one after the other. *)
Definition encodeNames (l : list (byte * list byte)) : list byte :=
  concat (map encodeName l).

(** An entry that is not a host name and whose length fits its field. *)
Definition otherName (e : byte * list byte) : Prop :=
  fst e <> x00 /\ len (snd e) < 65536.

(** ** The adapter *)

(** The state [s] with its connection and runtime replaced. *)
Definition withConn (s : state) (c : Conn) (r : Runtime) : state :=
  mkState (mkAdapter c (isFirstWrite (self s)) (BSL (self s)) (SL (self s))
             (ASL (self s)) (Delay (self s))) r.

(** The [Write] calls made on the connection between [s] and [s']. *)
Definition newWrites (s s' : state) : list (list byte * (Z * option error)) :=
  skipn (length (wlog (conn (self s)))) (wlog (conn (self s'))).

(** The bytes of these calls, end to end. *)
Definition sentSince (s s' : state) : list byte := concat (map fst (newWrites s s')).

(** The sum of the counts the connection returned between [s] and [s']. *)
Definition acceptedSince (s s' : state) : Z :=
  fold_right Z.add 0 (map (fun w => fst (snd w)) (newWrites s s')).

(** A call that wrote all of its argument. *)
Definition okEntry (w : list byte * (Z * option error)) : Prop :=
  snd w = (len (fst w), None).

(** No write to come fails. *)
Definition allWritesSucceed (c : Conn) : Prop := Forall (fun x => x = None) (wscript c).

(** A size range [[min, max]] of Go [int]s with [1 <= min <= max]. *)
Definition progressRange (r : Z * Z) : Prop := 1 <= fst r /\ fst r <= snd r /\ snd r < 2 ^ 63.

(** [frame s s' news]: between [s] and [s'] the adapter made the [Write]
    calls [news] on its connection, consuming one script entry for each, and
    changed nothing else of itself. *)
Definition frame (s s' : state) (news : list (list byte * (Z * option error))) : Prop :=
  exists c' r',
    s' = withConn s c' r' /\
    wlog c' = wlog (conn (self s)) ++ news /\
    wscript c' = skipn (length news) (wscript (conn (self s))) /\
    rscript c' = rscript (conn (self s)).

(** A call that was given one byte at least. *)
Definition nonEmptyWrite (w : list byte * (Z * option error)) : Prop := 1 <= len (fst w).

(** The size range [writeFragments] selects for the chunk at [index]. *)
Definition zoneRange (a : Adapter) (index : Z) : Z * Z :=
  if index =? 0 then BSL a else if index =? 1 then SL a else ASL a.

(** The three size ranges of the adapter start at 1 or more. *)
Definition allProgress (a : Adapter) : Prop :=
  progressRange (BSL a) /\ progressRange (SL a) /\ progressRange (ASL a).

(** What a call that wrote [news] may return for the data [b], [nw] bytes
    being counted already. [strict] says that a failure is reported with a
    count of zero. *)
Definition writeResult (strict : bool) (b : list byte) (nw : Z)
    (news : list (list byte * (Z * option error))) (r : outcome (Z * option error)) : Prop :=
  match r with
  | Done (n, None) =>
      Forall okEntry news /\ concat (map fst news) = b /\ n = nw + len b
  | Done (n, Some e) =>
      (strict = true -> n = 0) /\
      exists pre p k, news = pre ++ [(p, (k, Some e))] /\ Forall okEntry pre
  | _ => Forall okEntry news
  end.

(** The state once [a.isFirstWrite = false] has run. *)
Definition started (s : state) : state :=
  mkState (mkAdapter (conn (self s)) false (BSL (self s)) (SL (self s))
             (ASL (self s)) (Delay (self s))) (rt s).

(** The parse [fragmentAndWriteFirstPacket] makes of its argument. *)
Definition parseFirst (b : list byte) : outcome (sni.ClientHelloMsg + error) :=
  sni.ReadClientHello (sni.readFuel (bytes_NewReader b)) (bytes_NewReader b).

(** ** Concrete packets, connections and adapters *)

(** Bytes given by their values. *)
Definition bytesOf (l : list Z) : list byte := map byteOf l.

(** A ClientHello (59 bytes) whose only extension is server_name, with the
    host name "a.b". *)
Definition helloMessage : list byte :=
  bytesOf ([1; 0; 0; 55; 3; 3] ++ repeat 7 32%nat
           ++ [0; 0; 2; 19; 1; 1; 0; 0; 12; 0; 0; 0; 8; 0; 6; 0; 0; 3; 97; 46; 98]).

(** The same in one TLS record (64 bytes). *)
Definition helloPacket : list byte := handshakeRecord x03 x01 helloMessage.

(** A ClientHello without extensions (45 bytes). *)
Definition plainHelloMessage : list byte :=
  bytesOf ([1; 0; 0; 41; 3; 3] ++ repeat 7 32%nat ++ [0; 0; 2; 19; 1; 1; 0]).

(** The same in one TLS record (50 bytes). *)
Definition plainHelloPacket : list byte := handshakeRecord x03 x01 plainHelloMessage.

(** A connection on which nothing was written, with the results of the
    writes to come. *)
Definition freshConn (script : list (option (Z * error))) : Conn := mkConn [] script [].

(** A new adapter on [c] with the ranges of the repository's own caller but
    for the first, and a source of random numbers. *)
Definition exampleState (c : Conn) : state :=
  mkState (New c (20, 20) (1, 2) (1, 2) (10, 20)) (mkRuntime [3; 14; 15; 92; 65; 35] []).

(** The second write of the first call fails. *)
Definition failingState : state := exampleState (freshConn [None; Some (0, errNet 1)]).

(** The connection delivers three bytes together with [io.EOF]. *)
Definition readState : state :=
  exampleState (mkConn [] [] [([x01; x02; x03], Some io_EOF)]).





(** A server_name body: two entries announced and three encoded, the
    second being the first host name. *)
Definition exampleNames : list byte :=
  u16 2 ++ encodeNames [(x01, bytesOf [120]); (x00, bytesOf [97; 46; 98]); (x00, bytesOf [99])].

(** ** Blocks and decoded messages *)

(** What [nextBlock] holds for the next record. *)
Definition pending (nb : option block) : list byte :=
  match nb with
  | None => []
  | Some b => data b
  end.

(** The fields that [unmarshal] sets before the extensions are the same in
    both messages. *)
Definition sameFixedFields (m m' : ClientHelloMsg) : Prop :=
  Raw m' = Raw m /\ Versions m' = Versions m /\ Random m' = Random m /\
  SessionID m' = SessionID m /\ CipherSuites m' = CipherSuites m /\
  CompressionMethods m' = CompressionMethods m.

(** ** Encoded extensions and messages *)

(** An extension as [unmarshal] tells them apart, with what it holds. *)
Inductive extension : Type :=
| ExtServerName (entries : list (byte * list byte))
| ExtStatusRequest (statusType : byte) (request : list byte)
| ExtSupportedCurves (curves : list Z)
| ExtSupportedPoints (points : list byte)
| ExtSessionTicket (ticket : list byte)
| ExtNextProtoNeg
| ExtOther (typ : Z) (body : list byte).

Definition extensionType (e : extension) : Z :=
  match e with
  | ExtServerName _ => extensionServerName
  | ExtStatusRequest _ _ => extensionStatusRequest
  | ExtSupportedCurves _ => extensionSupportedCurves
  | ExtSupportedPoints _ => extensionSupportedPoints
  | ExtSessionTicket _ => extensionSessionTicket
  | ExtNextProtoNeg => extensionNextProtoNeg
  | ExtOther typ _ => typ
  end.

(** The body of an extension on the wire: the server names after their
    count, the curves after the length of their list in bytes, the point
    formats after their count. *)
Definition extensionBody (e : extension) : list byte :=
  match e with
  | ExtServerName entries => u16 (len entries) ++ encodeNames entries
  | ExtStatusRequest statusType request => statusType :: request
  | ExtSupportedCurves curves => u16 (2 * len curves) ++ concat (map u16 curves)
  | ExtSupportedPoints points => byteOf (len points) :: points
  | ExtSessionTicket ticket => ticket
  | ExtNextProtoNeg => []
  | ExtOther _ body => body
  end.

(** An extension on the wire: type, length of the body, body. *)
Definition encodeExtension (e : extension) : list byte :=
  u16 (extensionType e) ++ u16 (len (extensionBody e)) ++ extensionBody e.

Definition encodeExtensions (l : list extension) : list byte :=
  concat (map encodeExtension l).

(** The name of the first entry of name type 0. *)
Fixpoint firstHostName (entries : list (byte * list byte)) : option (list byte) :=
  match entries with
  | [] => None
  | (t, name) :: rest => if b2z t =? 0 then Some name else firstHostName rest
  end.

(** What reading the extension does to the message. *)
Definition applyExtension (m : ClientHelloMsg) (e : extension) : ClientHelloMsg :=
  match e with
  | ExtServerName entries =>
      match firstHostName entries with
      | Some name => set_ServerName m name
      | None => m
      end
  | ExtStatusRequest statusType _ =>
      if b2z statusType =? statusTypeOCSP then set_OcspStapling m true else m
  | ExtSupportedCurves curves => set_SupportedCurves m curves
  | ExtSupportedPoints points => set_SupportedPoints m points
  | ExtSessionTicket ticket => set_SessionTicket m ticket
  | ExtNextProtoNeg => set_NextProtoNeg m true
  | ExtOther _ _ => m
  end.

(** The types [unmarshal] has a case for. *)
Definition knownExtensionType (t : Z) : bool :=
  (t =? extensionServerName) || (t =? extensionNextProtoNeg) ||
  (t =? extensionStatusRequest) || (t =? extensionSupportedCurves) ||
  (t =? extensionSupportedPoints) || (t =? extensionSessionTicket).

(** The numbers of the extension fit the fields that carry them. *)
Definition wfExtension (e : extension) : Prop :=
  len (extensionBody e) < 65536 /\
  match e with
  | ExtServerName entries =>
      len entries < 65536 /\ Forall (fun x => len (snd x) < 65536) entries
  | ExtSupportedCurves curves => Forall (fun c => 0 <= c < 65536) curves
  | ExtSupportedPoints points => len points < 256
  | ExtOther typ _ => 0 <= typ < 65536 /\ knownExtensionType typ = false
  | _ => True
  end.

(** An extension of a type [unmarshal] has a case for, whose body the case
    refuses. *)
Definition malformedExtension (t : Z) (body : list byte) : Prop :=
  (t = extensionServerName /\ len body < 2) \/
  (t = extensionNextProtoNeg /\ 0 < len body) \/
  (t = extensionStatusRequest /\ len body < 1) \/
  (t = extensionSupportedCurves /\
   (len body < 2 \/ Z.odd (be16 (at_ body 0) (at_ body 1)) = true \/
    len body <> be16 (at_ body 0) (at_ body 1) + 2)) \/
  (t = extensionSupportedPoints /\ (len body < 1 \/ len body <> at_ body 0 + 1)).

(** The three bytes of a 24-bit length, most significant first. *)
Definition u24 (n : Z) : list byte :=
  [byteOf (n / 65536); byteOf ((n / 256) mod 256); byteOf (n mod 256)].

(** The extension block of a ClientHello: absent, or the extensions after
    their length in bytes. *)
Definition encodeExtensionBlock (exts : option (list extension)) : list byte :=
  match exts with
  | None => []
  | Some l => u16 (len (encodeExtensions l)) ++ encodeExtensions l
  end.

(** The body of a ClientHello, every list after its length field. *)
Definition encodeHelloBody (version : Z) (random sessionID : list byte)
    (cipherSuites : list Z) (compressionMethods : list byte)
    (exts : option (list extension)) : list byte :=
  u16 version ++ random
    ++ (byteOf (len sessionID) :: sessionID)
    ++ (u16 (2 * len cipherSuites) ++ concat (map u16 cipherSuites))
    ++ (byteOf (len compressionMethods) :: compressionMethods)
    ++ encodeExtensionBlock exts.

(** The handshake message: type 1, the length of the body, the body. *)
Definition encodeHello (version : Z) (random sessionID : list byte)
    (cipherSuites : list Z) (compressionMethods : list byte)
    (exts : option (list extension)) : list byte :=
  x01 :: u24 (len (encodeHelloBody version random sessionID cipherSuites
                     compressionMethods exts))
    ++ encodeHelloBody version random sessionID cipherSuites compressionMethods exts.

(** The numbers of the message fit the fields that carry them. *)
Definition wfHello (version : Z) (random sessionID : list byte)
    (cipherSuites : list Z) (compressionMethods : list byte)
    (exts : option (list extension)) : Prop :=
  0 <= version < 65536 /\ len random = 32 /\ len sessionID <= 32 /\
  2 * len cipherSuites < 65536 /\ Forall (fun c => 0 <= c < 65536) cipherSuites /\
  len compressionMethods < 256 /\
  match exts with
  | None => True
  | Some l => Forall wfExtension l /\ len (encodeExtensions l) < 65536
  end.

(** The message that [unmarshal] makes of the fields, [m] being the
    receiver before the call. *)
Definition decodedHello (m : ClientHelloMsg) (raw : list byte) (version : Z)
    (random sessionID : list byte) (cipherSuites : list Z)
    (compressionMethods : list byte) (exts : option (list extension)) : ClientHelloMsg :=
  fold_left applyExtension (match exts with None => [] | Some l => l end)
    (mkClientHelloMsg raw version random sessionID cipherSuites compressionMethods
       false [] false (SupportedCurves m) (SupportedPoints m) false []).

(** ** Fragments and delays *)

(** A range [[min, max]] of Go [int]s with [0 <= min <= max]. *)
Definition wfRange (r : Z * Z) : Prop := 0 <= fst r /\ fst r <= snd r /\ snd r < 2 ^ 63.

(** The largest value drawn from the range: [max - 1], or [min] when the
    two are equal. *)
Definition rangeMax (r : Z * Z) : Z := Z.max (fst r) (snd r - 1).

(** [P] holds of every element but the last. *)
Fixpoint allButLast {A : Type} (P : A -> Prop) (l : list A) : Prop :=
  match l with
  | [] => True
  | x :: rest => match rest with [] => True | _ :: _ => P x end /\ allButLast P rest
  end.

(** The fragments of one chunk: none is longer than the range allows, and
    only the last can be shorter. *)
Definition fragmentSizes (r : Z * Z) (news : list (list byte * (Z * option error))) : Prop :=
  Forall (fun w => len (fst w) <= rangeMax r) news /\
  allButLast (fun w => fst r <= len (fst w)) news.

(** The duration of a sleep of [delay] milliseconds, as the loop of
    [writeFragments] computes it: [time.Duration(delay) * time.Millisecond]. *)
Definition sleepDuration (delay : Z) : Z := wrap64 (delay * time_Millisecond).

(** The delays [ds], in milliseconds, of the sleeps of a call that made the
    writes [news] and ended as [res]: each is a delay of the range, and when
    the range starts at 1 or more there is one after every write but a
    failed one. *)
Definition delaysFollow (r : Z * Z) (ds : list Z)
    (news : list (list byte * (Z * option error))) (res : outcome (Z * option error)) : Prop :=
  Forall (fun d => 1 <= d /\ fst r <= d <= rangeMax r) ds /\
  (length ds <= length news)%nat /\
  (1 <= fst r ->
   length news = (length ds + match res with Done (_, Some _) => 1 | _ => 0 end)%nat).

(** ** Rows of the result table *)

(** The attempts that ended without error. *)
Definition succeeded (a : TestAttemptResult) : bool :=
  match err a with
  | None => true
  | Some _ => false
  end.

(** The durations of a successful attempt lie in the two intervals. *)
Definition durationsWithin (lo hi lo' hi' : Z) (a : TestAttemptResult) : Prop :=
  succeeded a = true ->
  lo <= TransportEstablishDuration a <= hi /\ lo' <= TLSHandshakeDuration a <= hi'.

(** ** Further concrete inputs *)

(** A block of three bytes in a capacity of four, for the examples. *)
Definition smallBlock : block := mkBlock [x01; x02; x03] 4 0.

(** The extensions of the examples: an unknown one, the server name "a.b"
    after an entry of another type, the curves 29 and 23, a ticket. *)
Definition exampleExtensions : list extension :=
  [ExtOther 43 (bytesOf [2; 3; 4]);
   ExtServerName [(x01, bytesOf [120]); (x00, bytesOf [97; 46; 98])];
   ExtSupportedCurves [29; 23];
   ExtStatusRequest x01 (bytesOf [0; 0; 0; 0]);
   ExtSessionTicket (bytesOf [7; 7])].

(** The ClientHello of the examples. *)
Definition exampleRandom : list byte := repeat x07 32.

(** A packet of the examples that is no TLS record: the start of an HTTP
    request. *)
Definition httpPacket : list byte := bytesOf [71; 69; 84; 32; 47; 32; 72; 84; 84; 80].

(** Three attempts of which the second failed. *)
Definition exampleAttempts : list TestAttemptResult :=
  [mkTestAttemptResult 30 90 None; mkTestAttemptResult 0 0 (Some (errNet 1));
   mkTestAttemptResult 50 70 None].

(** * Proofs *)

(** ** Slices *)

Lemma len_nonneg {A} (s : list A) : 0 <= len s.
Proof. unfold len. lia. Qed.

Lemma len_app {A} (s t : list A) : len (s ++ t) = len s + len t.
Proof. unfold len. rewrite length_app. lia. Qed.

Lemma len_take {A} n (s : list A) : 0 <= n <= len s -> len (take n s) = n.
Proof. unfold len, take. intros. rewrite length_firstn. lia. Qed.

Lemma len_drop {A} n (s : list A) : 0 <= n <= len s -> len (drop n s) = len s - n.
Proof. unfold len, drop. intros. rewrite length_skipn. lia. Qed.

Lemma take_drop {A} n (s : list A) : take n s ++ drop n s = s.
Proof. apply firstn_skipn. Qed.

Lemma drop_drop {A} n k (s : list A) : 0 <= n -> 0 <= k -> drop k (drop n s) = drop (n + k) s.
Proof.
  intros. unfold drop. rewrite skipn_skipn. f_equal. lia.
Qed.

Lemma drop_all {A} n (s : list A) : len s <= n -> drop n s = [].
Proof. unfold len, drop. intros. apply skipn_all2. lia. Qed.

Lemma take_all {A} n (s : list A) : len s <= n -> take n s = s.
Proof. unfold len, take. intros. apply firstn_all2. lia. Qed.

Lemma slice_drop {A} (s : list A) lo hi :
  0 <= lo -> lo <= hi -> slice s lo hi ++ drop hi s = drop lo s.
Proof.
  intros. unfold slice. replace (drop hi s) with (drop (hi - lo) (drop lo s)).
  - apply take_drop.
  - rewrite drop_drop by lia. f_equal. lia.
Qed.

Lemma len_slice {A} (s : list A) lo hi :
  0 <= lo -> lo <= hi -> hi <= len s -> len (slice s lo hi) = hi - lo.
Proof.
  intros. unfold slice. rewrite len_take; [lia|]. rewrite len_drop; lia.
Qed.

(** ** Bytes *)

Lemma b2z_range b : 0 <= b2z b < 256.
Proof.
  unfold b2z. pose proof (Byte.to_N_bounded b). lia.
Qed.

Lemma at_range s i : 0 <= at_ s i < 256.
Proof. apply b2z_range. Qed.

Lemma be16_eq hi lo : 0 <= hi -> 0 <= lo < 256 -> be16 hi lo = hi * 256 + lo.
Proof.
  intros Hhi Hlo. unfold be16. rewrite Z.shiftl_mul_pow2 by lia.
  change (2 ^ 8) with 256.
  pose proof (Z.add_lor_land (hi * 256) lo) as Hadd.
  enough (Hz : Z.land (hi * 256) lo = 0) by lia.
  apply Z.bits_inj'. intros n Hn. rewrite Z.land_spec, Z.bits_0.
  destruct (Z.ltb_spec n 8).
  - replace (hi * 256) with (hi * 2 ^ 8) by reflexivity.
    rewrite Z.mul_pow2_bits_low by lia. reflexivity.
  - rewrite (Z.bits_above_log2 lo n); [apply andb_false_r|lia|].
    destruct (Z.eq_dec lo 0) as [->|]; [simpl; lia|].
    apply Z.log2_lt_pow2; [lia|].
    apply Z.lt_le_trans with (2 ^ 8); [simpl; lia|].
    apply Z.pow_le_mono_r; lia.
Qed.

Lemma be16_at s i j : be16 (at_ s i) (at_ s j) = at_ s i * 256 + at_ s j.
Proof. apply be16_eq; apply at_range. Qed.

Lemma be16_range s i j : 0 <= be16 (at_ s i) (at_ s j) < 65536.
Proof.
  rewrite be16_at. pose proof (at_range s i). pose proof (at_range s j). lia.
Qed.

Lemma at_app_l s t i : 0 <= i < len s -> at_ (s ++ t) i = at_ s i.
Proof.
  unfold at_, len. intros H. rewrite app_nth1 by lia. reflexivity.
Qed.

Lemma at_app_r s t i : len s <= i -> at_ (s ++ t) i = at_ t (i - len s).
Proof.
  unfold at_, len. intros H. rewrite app_nth2 by lia. do 2 f_equal. lia.
Qed.

Lemma at_drop s n i : 0 <= n -> 0 <= i -> at_ (drop n s) i = at_ s (n + i).
Proof.
  unfold at_, drop. intros Hn Hi. rewrite nth_skipn. do 2 f_equal. lia.
Qed.

Lemma at_take s n i : 0 <= i < n -> at_ (take n s) i = at_ s i.
Proof.
  unfold at_, take. intros H.
  rewrite <- (firstn_skipn (Z.to_nat n) s) at 2.
  destruct (Z.leb_spec (len s) i).
  - rewrite !nth_overflow; [reflexivity| |].
    + rewrite length_app, length_firstn, length_skipn. unfold len in *. lia.
    + rewrite length_firstn. unfold len in *. lia.
  - rewrite app_nth1; [reflexivity|]. rewrite length_firstn. unfold len in *. lia.
Qed.

(** ** Blocks *)

Lemma grow_spec fuel : forall m n,
  0 < m -> n <= m * 2 ^ Z.of_nat fuel -> m <= grow fuel m n /\ n <= grow fuel m n.
Proof.
  induction fuel as [|fuel IH]; intros m n Hm Hn.
  - simpl in *. destruct (Z.ltb_spec m n); lia.
  - cbn [grow]. destruct (Z.ltb_spec m n); [|lia].
    destruct (IH (m * 2) n ltac:(lia)) as [H1 H2]; [|lia].
    rewrite Nat2Z.inj_succ, Z.pow_succ_r in Hn by lia. lia.
Qed.

Lemma reserve_spec b n :
  wfBlock b ->
  data (reserve b n) = data b /\ off (reserve b n) = off b /\
  n <= cap (reserve b n) /\ cap b <= cap (reserve b n).
Proof.
  unfold wfBlock, reserve. intros Hwf. pose proof (len_nonneg (data b)).
  destruct (Z.leb_spec n (cap b)); [auto with zarith|].
  simpl. repeat split.
  - apply grow_spec.
    + destruct (Z.eqb_spec (cap b) 0); lia.
    + rewrite Z2Nat.id by lia.
      pose proof (Z.pow_gt_lin_r 2 n ltac:(lia) ltac:(lia)).
      destruct (Z.eqb_spec (cap b) 0); nia.
  - assert (Hm : 0 < (if cap b =? 0 then 1024 else cap b)).
    { destruct (Z.eqb_spec (cap b) 0); lia. }
    assert (Hb : n <= (if cap b =? 0 then 1024 else cap b) * 2 ^ Z.of_nat (Z.to_nat n)).
    { rewrite Z2Nat.id by lia.
      pose proof (Z.pow_gt_lin_r 2 n ltac:(lia) ltac:(lia)). nia. }
    destruct (grow_spec _ _ _ Hm Hb). lia.
Qed.

(** ** readFromUntil *)

Lemma readFromUntil_loop_spec fuel : forall r b n,
  wfBlock b -> n <= cap b -> len (data b) < n -> (length r < fuel)%nat ->
  exists e r' b',
    readFromUntil_loop fuel r b n = Done (e, r', b') /\
    data b' ++ concat r' = data b ++ concat r /\
    wfBlock b' /\ (length r' <= length r)%nat /\
    ((e = None /\ n <= len (data b')) \/
     (e = Some io_EOF /\ len (data b ++ concat r) < n)).
Proof.
  induction fuel as [|fuel IH]; intros r b n Hwf Hcap Hlen Hfuel; [lia|].
  unfold wfBlock in *. cbn [readFromUntil_loop].
  destruct r as [|c r]; cbn [Reader_Read].
  - rewrite app_nil_r. cbn [data cap off]. destruct (Z.leb_spec n (len (data b))); [lia|].
    eexists _, _, _. split; [reflexivity|]. simpl. rewrite !app_nil_r.
    repeat split; auto.
  - destruct (Z.leb_spec (len c) (cap b - len (data b))) as [Hfit|Hbig].
    + cbn [data cap off]. destruct (Z.leb_spec n (len (data b ++ c))) as [Hdone|Hmore].
      * eexists _, _, _. split; [reflexivity|]. simpl.
        rewrite <- app_assoc. rewrite len_app in *. repeat split; auto; lia.
      * rewrite len_app in Hmore.
        assert (Hwf' : len (data b ++ c) <= cap b) by (rewrite len_app; lia).
        assert (Hlen' : len (data b ++ c) < n) by (rewrite len_app; lia).
        destruct (IH r (mkBlock (data b ++ c) (cap b) (off b)) n Hwf' Hcap Hlen' ltac:(simpl in Hfuel; lia))
          as (e & r' & b' & H1 & H2 & H3 & H4 & H5).
        cbn [data cap off] in *.
        exists e, r', b'. split; [exact H1|]. rewrite H2, <- app_assoc.
        rewrite <- app_assoc in H5. simpl. repeat split; auto.
    + pose proof (len_nonneg (data b)).
      assert (Ht : len (take (cap b - len (data b)) c) = cap b - len (data b)).
      { apply len_take. lia. }
      cbn [data cap off]. rewrite len_app, Ht.
      destruct (Z.leb_spec n (len (data b) + (cap b - len (data b)))); [|lia].
      eexists _, _, _. split; [reflexivity|]. simpl.
      rewrite <- !app_assoc, (app_assoc (take _ c)), take_drop.
      rewrite len_app, Ht. repeat split; auto; lia.
Qed.

Lemma readFromUntil_spec fuel r b n :
  wfBlock b -> (length r < fuel)%nat ->
  exists e r' b',
    readFromUntil fuel r b n = Done (e, r', b') /\
    data b' ++ concat r' = data b ++ concat r /\
    wfBlock b' /\ (length r' <= length r)%nat /\
    ((e = None /\ n <= len (data b')) \/
     (e = Some io_EOF /\ len (data b ++ concat r) < n)).
Proof.
  intros Hwf Hfuel. unfold readFromUntil.
  destruct (Z.leb_spec n (len (data b))).
  - exists None, r, b. repeat split; auto.
  - destruct (reserve_spec b n Hwf) as (Hd & _ & Hn & Hc).
    destruct (readFromUntil_loop_spec fuel r (reserve b n) n) as (e & r' & b' & H1 & H2 & H3);
      unfold wfBlock in *; try rewrite Hd; try lia.
    exists e, r', b'. rewrite Hd in *. auto.
Qed.

(** ** readRecord *)

Lemma take_app_l {A} n (s t : list A) : n <= len s -> take n (s ++ t) = take n s.
Proof.
  unfold take, len. intros H. rewrite firstn_app.
  replace (Z.to_nat n - length s)%nat with 0%nat by lia.
  simpl. apply app_nil_r.
Qed.

Lemma drop_app_l {A} n (s t : list A) : n <= len s -> drop n (s ++ t) = drop n s ++ t.
Proof.
  unfold drop, len. intros H. rewrite skipn_app.
  replace (Z.to_nat n - length s)%nat with 0%nat by lia. reflexivity.
Qed.

Lemma drop_app_r {A} n (s t : list A) : len s <= n -> drop n (s ++ t) = drop (n - len s) t.
Proof.
  unfold drop, len. intros H. rewrite skipn_app.
  rewrite skipn_all2 by lia. simpl. f_equal. lia.
Qed.

Lemma slice_app_l {A} (s t : list A) lo hi :
  0 <= lo -> hi <= len s -> slice (s ++ t) lo hi = slice s lo hi.
Proof.
  intros Hlo Hhi. unfold slice.
  destruct (Z.le_gt_cases lo hi).
  - rewrite drop_app_l by lia. apply take_app_l. rewrite len_drop; lia.
  - unfold take. replace (Z.to_nat (hi - lo)) with 0%nat by lia. reflexivity.
Qed.

Lemma slice_take {A} (s : list A) n lo hi :
  0 <= lo -> lo <= hi -> hi <= n -> slice (take n s) lo hi = slice s lo hi.
Proof.
  intros Hlo Hle Hhi. rewrite <- (take_drop n s) at 2.
  destruct (Z.le_gt_cases n (len s)).
  - rewrite slice_app_l; [reflexivity|lia|]. rewrite len_take; lia.
  - rewrite take_all by lia. rewrite drop_all by lia. rewrite app_nil_r. reflexivity.
Qed.

Lemma splitBlock_spec b n :
  wfBlock b -> 0 <= n <= len (data b) ->
  data (fst (splitBlock b n)) = take n (data b) /\
  match snd (splitBlock b n) with
  | None => drop n (data b) = []
  | Some bb => data bb = drop n (data b) /\ wfBlock bb
  end.
Proof.
  intros Hwf Hn. unfold splitBlock.
  destruct (Z.leb_spec (len (data b)) n).
  - simpl. rewrite take_all by lia. rewrite drop_all by lia. auto.
  - cbn [fst snd data]. split; [reflexivity|].
    set (k := len (data b) - n).
    assert (Hk : len (drop n (data b)) = k) by (rewrite len_drop; lia).
    assert (Hz : data (resize newBlock k) = repeat x00 (Z.to_nat k)).
    { unfold resize. cbn [data newBlock cap]. destruct (0 <? k) eqn:E.
      - destruct (reserve_spec newBlock k) as (Hd & _); [unfold wfBlock; simpl; reflexivity|].
        rewrite Hd. cbn [data newBlock app]. change (len (@nil byte)) with 0. rewrite Z.sub_0_r.
        apply take_all. unfold len. rewrite repeat_length. lia.
      - apply Z.ltb_ge in E. lia. }
    rewrite Hk, Hz.
    rewrite (drop_all k (repeat x00 (Z.to_nat k))) by (unfold len; rewrite repeat_length; lia).
    rewrite app_nil_r. split; [reflexivity|].
    unfold wfBlock. cbn [data cap]. rewrite Hk.
    unfold resize. cbn [cap newBlock]. destruct (0 <? k) eqn:E; [|apply Z.ltb_ge in E; lia].
    destruct (reserve_spec newBlock k) as (_ & _ & Hc & _); [unfold wfBlock; simpl; reflexivity|].
    exact Hc.
Qed.

(** [readRecord] takes one record off the stream, whatever the chunks the
    reader delivers it in. *)
Lemma readRecord_spec fuel st :
  wfState st -> (length (rd st) < fuel)%nat ->
  exists e st',
    readRecord fuel st = Done (e, st') /\ wfState st' /\
    (length (rd st') <= length (rd st))%nat /\
    match recordOf (stream st) with
    | inl err => e = Some err /\ hand st' = hand st
    | inr (payload, rest) => e = None /\ hand st' = hand st ++ payload /\ stream st' = rest
    end.
Proof.
  intros Hwf Hfuel. unfold readRecord.
  set (b0 := match nextBlock st with None => newBlock | Some b => b end).
  assert (Hwf0 : wfBlock b0).
  { subst b0. unfold wfState in Hwf. destruct (nextBlock st); [exact Hwf|].
    unfold wfBlock. simpl. reflexivity. }
  assert (HS : stream st = data b0 ++ concat (rd st)).
  { unfold stream. subst b0. destruct (nextBlock st); reflexivity. }
  rewrite HS. set (S := data b0 ++ concat (rd st)).
  destruct (readFromUntil_spec fuel (rd st) b0 recordHeaderLen Hwf0 Hfuel)
    as (e1 & r1 & b1 & E1 & HS1 & Hwf1 & Hl1 & Hc1).
  rewrite E1. fold S in HS1, Hc1. unfold recordHeaderLen in *.
  destruct Hc1 as [(-> & H5)|(-> & H5)].
  2:{ eexists _, _. split; [reflexivity|]. split; [exact Hwf1|]. split; [exact Hl1|].
      unfold recordOf. destruct (Z.ltb_spec (len S) 5); [auto|lia]. }
  assert (Hat : forall i, 0 <= i < 5 -> at_ (data b1) i = at_ S i).
  { intros i Hi. rewrite <- HS1. symmetry. apply at_app_l. lia. }
  assert (HlenS : 5 <= len S).
  { rewrite <- HS1, len_app. pose proof (len_nonneg (concat r1)). lia. }
  unfold recordOf. destruct (Z.ltb_spec (len S) 5); [lia|].
  rewrite !Hat by lia.
  destruct (at_ S 0 =? 128).
  { eexists _, _. split; [reflexivity|]. split; [exact Hwf1|]. split; [exact Hl1|]. auto. }
  destruct (negb (at_ S 0 =? recordTypeHandshake) || (4096 <=? be16 (at_ S 1) (at_ S 2))).
  { eexists _, _. split; [reflexivity|]. split; [exact Hwf1|]. split; [exact Hl1|]. auto. }
  set (n := be16 (at_ S 3) (at_ S 4)).
  assert (Hn : 0 <= n) by (subst n; pose proof (be16_range S 3 4); lia).
  destruct (readFromUntil_spec fuel r1 b1 (5 + n) Hwf1 ltac:(lia))
    as (e2 & r2 & b2 & E2 & HS2 & Hwf2 & Hl2 & Hc2).
  rewrite E2. rewrite HS1 in HS2, Hc2.
  destruct Hc2 as [(-> & Hn2)|(-> & Hn2)].
  2:{ eexists _, _. split; [reflexivity|]. split; [exact Hwf2|]. split; [simpl; lia|].
      destruct (Z.ltb_spec (len S) (5 + n)); [auto|lia]. }
  assert (HlenS2 : 5 + n <= len S).
  { rewrite <- HS2, len_app. pose proof (len_nonneg (concat r2)). lia. }
  destruct (Z.ltb_spec (len S) (5 + n)); [lia|].
  destruct (splitBlock_spec b2 (5 + n) Hwf2 ltac:(lia)) as (Hd3 & Hnb).
  destruct (splitBlock b2 (5 + n)) as [b3 nb]. cbn [fst snd] in Hd3, Hnb.
  eexists _, _. split; [reflexivity|].
  cbn [data off cap hand rd nextBlock]. rewrite Hd3.
  assert (Hpay : slice (take (5 + n) (data b2)) 5 (5 + n) = slice S 5 (5 + n)).
  { rewrite slice_take by lia. rewrite <- HS2. symmetry. apply slice_app_l; lia. }
  assert (Hrest : drop (5 + n) S = drop (5 + n) (data b2) ++ concat r2).
  { rewrite <- HS2. apply drop_app_l. lia. }
  unfold wfState, stream. cbn [nextBlock rd].
  destruct nb as [bb|].
  - destruct Hnb as (Hbb & Hwfbb). split; [exact Hwfbb|]. split; [lia|].
    split; [reflexivity|]. split; [rewrite Hpay; reflexivity|].
    rewrite Hbb, Hrest. reflexivity.
  - split; [exact I|]. split; [lia|].
    split; [reflexivity|]. split; [rewrite Hpay; reflexivity|].
    rewrite Hrest, Hnb. reflexivity.
Qed.

(** ** ReadClientHello *)

Lemma ReadClientHello_unfold fuel r :
  ReadClientHello fuel r =
    match readRecord fuel (mkRState r None []) with
    | OutOfFuel => OutOfFuel
    | Panic => Panic
    | Done (Some e, _) => Done (inr e)
    | Done (None, st) =>
        if len (hand st) <? 4 then Done (inr errNotTLS)
        else decodeHand (handshakeLen (hand st)) (readRest fuel (handshakeLen (hand st)) st)
    end.
Proof.
  unfold ReadClientHello, decodeHand, handshakeLen.
  destruct (readRecord fuel (mkRState r None [])) as [[[e|] st]| |]; reflexivity.
Qed.

Lemma recordOf_rest S p rest :
  recordOf S = inr (p, rest) -> (length rest + 5 <= length S)%nat.
Proof.
  unfold recordOf. destruct (len S <? 5); [discriminate|].
  destruct (at_ S 0 =? 128); [discriminate|].
  destruct (negb _ || _); [discriminate|].
  pose proof (be16_range S 3 4) as Hn.
  destruct (Z.ltb_spec (len S) (5 + be16 (at_ S 3) (at_ S 4))); [discriminate|].
  intros Heq. assert (Hr : rest = drop (5 + be16 (at_ S 3) (at_ S 4)) S) by congruence.
  rewrite Hr. unfold drop, len in *. rewrite length_skipn. lia.
Qed.

Lemma readRest_done fuel n st :
  4 + n <= len (hand st) -> readRest fuel n st = Done (None, st).
Proof.
  intros H. destruct fuel; cbn [readRest];
    (destruct (Z.ltb_spec (len (hand st)) (4 + n)); [lia|reflexivity]).
Qed.

Lemma readRest_step fuel n st :
  len (hand st) < 4 + n ->
  readRest (S fuel) n st =
    match readRecord (S fuel) st with
    | Done (None, st') => readRest fuel n st'
    | other => other
    end.
Proof.
  intros H. cbn [readRest]. destruct (Z.ltb_spec (len (hand st)) (4 + n)); [reflexivity|lia].
Qed.

(** The record loop reads the same handshake bytes from two readers that
    hold the same bytes, however they are cut into chunks. *)
Lemma readRest_stream fuel1 : forall fuel2 n st1 st2,
  wfState st1 -> wfState st2 ->
  hand st1 = hand st2 -> stream st1 = stream st2 ->
  enoughFuel fuel1 st1 -> enoughFuel fuel2 st2 ->
  exists e st1' st2',
    readRest fuel1 n st1 = Done (e, st1') /\
    readRest fuel2 n st2 = Done (e, st2') /\
    hand st1' = hand st2'.
Proof.
  induction fuel1 as [|f1 IH]; intros fuel2 n st1 st2 Hwf1 Hwf2 Hh Hs Hf1 Hf2;
    unfold enoughFuel in *; [lia|].
  destruct fuel2 as [|f2]; [lia|].
  destruct (Z.lt_ge_cases (len (hand st1)) (4 + n)) as [Hlt|Hge].
  2:{ rewrite !readRest_done by (try rewrite <- Hh; lia). exists None, st1, st2. auto. }
  rewrite !readRest_step by (try rewrite <- Hh; lia).
  destruct (readRecord_spec (S f1) st1 Hwf1 ltac:(lia)) as (e1 & s1 & E1 & W1 & L1 & R1).
  destruct (readRecord_spec (S f2) st2 Hwf2 ltac:(lia)) as (e2 & s2 & E2 & W2 & L2 & R2).
  rewrite E1, E2. rewrite <- Hs in R2.
  destruct (recordOf (stream st1)) as [err|[p rest]] eqn:ER.
  - destruct R1 as (-> & H1). destruct R2 as (-> & H2).
    exists (Some err), s1, s2. repeat split; congruence.
  - destruct R1 as (-> & H1 & S1). destruct R2 as (-> & H2 & S2).
    apply recordOf_rest in ER.
    apply IH; try assumption; try congruence.
    + rewrite S1. lia.
    + rewrite S2. rewrite <- Hs in Hf2. lia.
Qed.

Lemma initial_state r :
  wfState (mkRState r None []) /\ stream (mkRState r None []) = concat r.
Proof. split; [exact I|reflexivity]. Qed.

(** [ReadClientHello] always returns, and what it returns depends on the
    bytes of the stream only. *)
Lemma ReadClientHello_stream fuel1 fuel2 r1 r2 :
  concat r1 = concat r2 ->
  (readFuel r1 <= fuel1)%nat -> (readFuel r2 <= fuel2)%nat ->
  exists res, ReadClientHello fuel1 r1 = Done res /\ ReadClientHello fuel2 r2 = Done res.
Proof.
  intros Hc Hf1 Hf2. unfold readFuel in *. rewrite !ReadClientHello_unfold.
  destruct (initial_state r1) as (W1 & S1). destruct (initial_state r2) as (W2 & S2).
  destruct (readRecord_spec fuel1 _ W1 ltac:(simpl; lia)) as (e1 & s1 & E1 & W1' & L1 & R1).
  destruct (readRecord_spec fuel2 _ W2 ltac:(simpl; lia)) as (e2 & s2 & E2 & W2' & L2 & R2).
  rewrite E1, E2. rewrite S1 in R1. rewrite S2, <- Hc in R2. cbn [rd hand] in *.
  destruct (recordOf (concat r1)) as [err|[p rest]] eqn:ER.
  - destruct R1 as (-> & H1). destruct R2 as (-> & H2). eauto.
  - destruct R1 as (-> & H1 & T1). destruct R2 as (-> & H2 & T2).
    rewrite H1, H2. destruct (len ([] ++ p) <? 4); [eauto|].
    apply recordOf_rest in ER.
    destruct (readRest_stream fuel1 fuel2 (handshakeLen ([] ++ p)) s1 s2 W1' W2')
      as (e & s1' & s2' & Q1 & Q2 & Hh); unfold enoughFuel; try congruence.
    + rewrite T1. lia.
    + rewrite T2. rewrite <- Hc in Hf2. lia.
    + rewrite Q1, Q2. unfold decodeHand. rewrite Hh.
      destruct e; [eauto|].
      destruct (negb _); [eauto|]. destruct (unmarshal _ _); eauto.
Qed.

Lemma ReadClientHello_total fuel r :
  (readFuel r <= fuel)%nat -> exists res, ReadClientHello fuel r = Done res.
Proof.
  intros H. destruct (ReadClientHello_stream fuel fuel r r eq_refl H H) as (res & E & _). eauto.
Qed.

(** ** Records put together by hand *)

Lemma b2z_byteOf z : 0 <= z < 256 -> b2z (byteOf z) = z.
Proof.
  intros H. unfold byteOf, b2z.
  destruct (Byte.of_N (Z.to_N z)) as [b|] eqn:E.
  - apply Byte.to_of_N in E. rewrite E. lia.
  - apply Byte.of_N_None_iff in E. lia.
Qed.

Lemma be16_u16 n t : 0 <= n < 65536 -> be16 (at_ (u16 n ++ t) 0) (at_ (u16 n ++ t) 1) = n.
Proof.
  intros H. rewrite be16_at. unfold u16, at_. simpl.
  rewrite !b2z_byteOf.
  - pose proof (Z.div_mod n 256 ltac:(lia)). lia.
  - apply Z.mod_pos_bound. lia.
  - split; [apply Z.div_pos; lia|]. apply Z.div_lt_upper_bound; lia.
Qed.

Lemma recordOf_handshakeRecord vhi vlo p rest :
  b2z vhi < 16 -> len p <= 65535 ->
  recordOf (handshakeRecord vhi vlo p ++ rest) = inr (p, rest).
Proof.
  intros Hv Hp. pose proof (len_nonneg p) as Hp0. pose proof (len_nonneg rest) as Hr0.
  unfold recordOf.
  set (S := handshakeRecord vhi vlo p ++ rest).
  assert (HS : S = [x16; vhi; vlo] ++ u16 (len p) ++ (p ++ rest)).
  { subst S. unfold handshakeRecord. rewrite <- !app_assoc. reflexivity. }
  assert (HlenS : len S = 5 + len p + len rest).
  { rewrite HS. unfold u16, len. rewrite !length_app. cbn [length]. lia. }
  assert (H0 : at_ S 0 = 22) by (rewrite HS; reflexivity).
  assert (H1 : at_ S 1 = b2z vhi) by (rewrite HS; reflexivity).
  assert (H2 : at_ S 2 = b2z vlo) by (rewrite HS; reflexivity).
  assert (Hn : be16 (at_ S 3) (at_ S 4) = len p).
  { rewrite HS.
    change (be16 (at_ (u16 (len p) ++ (p ++ rest)) 0) (at_ (u16 (len p) ++ (p ++ rest)) 1) = len p).
    apply be16_u16. lia. }
  destruct (Z.ltb_spec (len S) 5); [lia|].
  rewrite H0. change (22 =? 128) with false. cbv iota.
  change (negb (22 =? recordTypeHandshake)) with false. rewrite orb_false_l.
  rewrite be16_eq by (rewrite ?H1, ?H2; apply b2z_range).
  rewrite H1, H2. pose proof (b2z_range vlo). pose proof (b2z_range vhi).
  destruct (Z.leb_spec 4096 (b2z vhi * 256 + b2z vlo)); [lia|].
  rewrite Hn. destruct (Z.ltb_spec (len S) (5 + len p)); [lia|].
  f_equal. f_equal.
  - unfold slice. rewrite HS.
    replace (drop 5 ([x16; vhi; vlo] ++ u16 (len p) ++ p ++ rest)) with (p ++ rest) by reflexivity.
    replace (5 + len p - 5) with (len p) by lia.
    rewrite take_app_l by lia. apply take_all. lia.
  - rewrite HS. rewrite app_assoc. rewrite app_assoc. rewrite drop_app_r.
    + rewrite !len_app. replace (5 + len p - _) with 0 by (unfold u16, len; simpl; lia).
      reflexivity.
    + rewrite !len_app. unfold u16, len. simpl. lia.
Qed.

Lemma handshakeLen_take hs k : 4 <= k -> handshakeLen (take k hs) = handshakeLen hs.
Proof.
  intros H. unfold handshakeLen. rewrite !at_take by lia. reflexivity.
Qed.

(** C4, as amended. A handshake message of at most 65535 bytes, cut in two
    records of which the first holds at least the first four bytes of the
    message, is read as it is from a single record: [ReadClientHello]
    returns on both streams, with the same message or with the same error,
    whatever the chunks the readers deliver and whatever follows the
    records. *)
Theorem ReadClientHello_two_records :
  forall (hs : list byte) (k : Z) (vh vl v1h v1l v2h v2l : byte) (tail : list byte)
         (r1 r2 : Reader) (fuel1 fuel2 : nat),
    4 <= k <= len hs -> len hs <= 65535 ->
    b2z vh < 16 -> b2z v1h < 16 -> b2z v2h < 16 ->
    concat r1 = handshakeRecord vh vl hs ++ tail ->
    concat r2 = handshakeRecord v1h v1l (take k hs)
                  ++ handshakeRecord v2h v2l (drop k hs) ++ tail ->
    (readFuel r1 <= fuel1)%nat -> (readFuel r2 <= fuel2)%nat ->
    exists res,
      ReadClientHello fuel1 r1 = Done res /\ ReadClientHello fuel2 r2 = Done res.
Proof.
  intros hs k vh vl v1h v1l v2h v2l tail r1 r2 fuel1 fuel2
         Hk Hhs Hv Hv1 Hv2 Hc1 Hc2 Hf1 Hf2.
  unfold readFuel in *. rewrite !ReadClientHello_unfold.
  destruct (initial_state r1) as (W1 & S1). destruct (initial_state r2) as (W2 & S2).
  destruct (readRecord_spec fuel1 _ W1 ltac:(simpl; lia)) as (e1 & s1 & E1 & W1' & L1 & R1).
  destruct (readRecord_spec fuel2 _ W2 ltac:(simpl; lia)) as (e2 & s2 & E2 & W2' & L2 & R2).
  rewrite E1, E2. rewrite S1, Hc1, recordOf_handshakeRecord in R1 by lia.
  assert (Hkl : len (take k hs) = k) by (apply len_take; lia).
  assert (Hdl : len (drop k hs) = len hs - k) by (apply len_drop; lia).
  rewrite S2, Hc2, recordOf_handshakeRecord in R2 by lia.
  cbn [rd hand app] in *.
  destruct R1 as (-> & H1 & T1). destruct R2 as (-> & H2 & T2).
  rewrite H1, H2, Hkl. rewrite handshakeLen_take by lia.
  destruct (Z.ltb_spec (len hs) 4); [lia|]. destruct (Z.ltb_spec k 4); [lia|].
  set (n := handshakeLen hs).
  assert (Hlen1 : (length (concat r1) = 5 + length hs + length tail)%nat).
  { rewrite Hc1. unfold handshakeRecord, u16. rewrite !length_app. simpl. lia. }
  assert (Hlen2 : (length (concat r2) = 10 + length hs + length tail)%nat).
  { rewrite Hc2. unfold handshakeRecord, u16. rewrite !length_app. simpl.
    rewrite <- (take_drop k hs) at 3. rewrite length_app. lia. }
  destruct (Z.lt_ge_cases k (4 + n)) as [Hshort|Hlong].
  - (* the first record does not hold the whole message: a second is read *)
    destruct fuel2 as [|f2]; [lia|].
    rewrite (readRest_step f2 n s2) by (rewrite H2; lia).
    destruct (readRecord_spec (S f2) s2 W2' ltac:(lia)) as (e3 & s3 & E3 & W3 & L3 & R3).
    rewrite E3. rewrite T2, recordOf_handshakeRecord in R3 by lia.
    destruct R3 as (-> & H3 & T3).
    rewrite H2, take_drop in H3.
    destruct (readRest_stream fuel1 f2 n s1 s3 W1' W3)
      as (e & s1' & s3' & Q1 & Q3 & Hh); unfold enoughFuel; try congruence.
    + rewrite T1. lia.
    + rewrite T3. lia.
    + rewrite Q1, Q3. unfold decodeHand. rewrite Hh.
      destruct e; [eauto|].
      destruct (negb _); [eauto|]. destruct (unmarshal _ _); eauto.
  - (* the first record holds the whole message *)
    rewrite (readRest_done fuel1 n s1) by (rewrite H1; lia).
    rewrite (readRest_done fuel2 n s2) by (rewrite H2, Hkl; lia).
    unfold decodeHand. rewrite H1, H2.
    assert (Ht : take (4 + n) (take k hs) = take (4 + n) hs).
    { rewrite <- (take_drop k hs) at 2. symmetry. apply take_app_l. lia. }
    rewrite Ht.
    destruct (negb _); [eauto|]. destruct (unmarshal _ _); eauto.
Qed.

(** ** unmarshal *)

Lemma odd_rem_1 n : 0 <= n -> Z.odd n = true -> Z.rem n 2 = 1.
Proof.
  intros Hn Ho. rewrite Z.rem_mod_nonneg by lia. rewrite Zmod_odd, Ho. reflexivity.
Qed.

(** What a successful [unmarshal] has checked. *)
Lemma unmarshal_inv m data m' :
  unmarshal m data = Some m' ->
  42 <= len data /\ at_ data 38 <= 32 /\ Z.odd (cipherSuiteLenOf data) = false /\
  extensionsAt data <= len data /\
  (extensionsAt data = len data \/
   (extensionsAt data + 2 <= len data /\
    extensionsLenOf data = len data - extensionsAt data - 2)).
Proof.
  unfold unmarshal. cbv zeta.
  destruct (Z.ltb_spec (len data) 42) as [|H42]; [discriminate|].
  pose proof (at_range data 38) as Hsid. set (sid := at_ data 38) in *.
  destruct (Z.ltb_spec 32 sid) as [|Hsid32]; [discriminate|].
  destruct (Z.ltb_spec (len data) (39 + sid)) as [|Hl1]; [discriminate|]. cbn [orb].
  assert (L1 : len (drop (39 + sid) data) = len data - (39 + sid)) by (apply len_drop; lia).
  rewrite L1.
  destruct (Z.ltb_spec (len data - (39 + sid)) 2) as [|Hl2]; [discriminate|].
  rewrite !at_drop by lia.
  replace (39 + sid + 0) with (cipherSuitesAt data) by (unfold cipherSuitesAt; fold sid; lia).
  replace (39 + sid + 1) with (cipherSuitesAt data + 1) by (unfold cipherSuitesAt; fold sid; lia).
  fold (cipherSuiteLenOf data).
  pose proof (be16_range data (cipherSuitesAt data) (cipherSuitesAt data + 1)) as Hcsl.
  fold (cipherSuiteLenOf data) in Hcsl. set (csl := cipherSuiteLenOf data) in *.
  destruct (Z.eqb_spec (Z.rem csl 2) 1) as [|Hodd]; [discriminate|].
  destruct (Z.ltb_spec (len data - (39 + sid)) (2 + csl)) as [|Hl3]; [discriminate|]. cbn [orb].
  rewrite !drop_drop by lia.
  assert (Ec : 39 + sid + (2 + csl) = compressionAt data).
  { unfold compressionAt, cipherSuitesAt. fold sid. fold csl. lia. }
  rewrite Ec.
  assert (L2 : len (drop (compressionAt data) data) = len data - compressionAt data)
    by (apply len_drop; lia).
  rewrite L2.
  destruct (Z.ltb_spec (len data - compressionAt data) 1) as [|Hl4]; [discriminate|].
  rewrite !at_drop by lia. rewrite Z.add_0_r.
  pose proof (at_range data (compressionAt data)) as Hcml.
  set (cml := at_ data (compressionAt data)) in *.
  destruct (Z.ltb_spec (len data - compressionAt data) (1 + cml)) as [|Hl5]; [discriminate|].
  rewrite !drop_drop by lia.
  assert (Ee : compressionAt data + (1 + cml) = extensionsAt data).
  { unfold extensionsAt. fold cml. lia. }
  rewrite Ee.
  assert (L3 : len (drop (extensionsAt data) data) = len data - extensionsAt data)
    by (apply len_drop; lia).
  rewrite L3.
  assert (Hnodd : Z.odd csl = false).
  { destruct (Z.odd csl) eqn:E; [|reflexivity]. apply odd_rem_1 in E; lia. }
  destruct (Z.eqb_spec (len data - extensionsAt data) 0) as [Hz|Hnz].
  { intros _. repeat split; try lia; auto. }
  destruct (Z.ltb_spec (len data - extensionsAt data) 2) as [|Hl6]; [discriminate|].
  rewrite !at_drop by lia. rewrite Z.add_0_r. fold (extensionsLenOf data).
  assert (L4 : len (drop (extensionsAt data + 2) data) = len data - (extensionsAt data + 2))
    by (apply len_drop; lia).
  rewrite L4.
  destruct (Z.eqb_spec (extensionsLenOf data) (len data - (extensionsAt data + 2))) as [He|];
    [|discriminate].
  intros _. repeat split; try lia; auto.
Qed.

(** The fuel of the extension loop is never what stops it: [unmarshal]
    gives it [length data], and any fuel at least as large gives the same
    result. *)
Lemma extensionsLoop_fuel f1 : forall f2 m data,
  (length data <= f1)%nat -> (length data <= f2)%nat ->
  extensionsLoop f1 m data = extensionsLoop f2 m data.
Proof.
  induction f1 as [|f1 IH]; intros f2 m data H1 H2.
  - destruct data; [|simpl in H1; lia]. destruct f2; reflexivity.
  - destruct f2 as [|f2].
    + destruct data; [reflexivity|simpl in H2; lia].
    + cbn [extensionsLoop]. destruct (len data =? 0); [reflexivity|].
      destruct (Z.ltb_spec (len data) 4) as [|H4]; [reflexivity|].
      pose proof (be16_range data 2 3) as Hl.
      set (l := be16 (at_ data 2) (at_ data 3)) in *.
      assert (Hd4 : len (drop 4 data) = len data - 4) by (apply len_drop; lia).
      destruct (Z.ltb_spec (len (drop 4 data)) l) as [|Hfit]; [reflexivity|].
      destruct (extensionCase m _ l (drop 4 data)) as [m'|]; [|reflexivity].
      assert (Hdl : len (drop l (drop 4 data)) = len data - 4 - l)
        by (rewrite len_drop; lia).
      unfold len in *. apply IH; lia.
Qed.





(** A record whose first byte is 0x80 is turned down once five bytes are
    there, whatever follows them. *)
Lemma readRecord_SSLv2 fuel st :
  wfState st -> (length (rd st) < fuel)%nat ->
  5 <= len (stream st) -> at_ (stream st) 0 = 128 ->
  exists st', readRecord fuel st = Done (Some errSSLv2, st') /\ hand st' = hand st.
Proof.
  intros Hwf Hf H5 H80.
  destruct (readRecord_spec fuel st Hwf Hf) as (e & st' & E & _ & _ & R).
  unfold recordOf in R. destruct (Z.ltb_spec (len (stream st)) 5); [lia|].
  rewrite H80 in R. change (128 =? 128) with true in R. cbv iota in R.
  destruct R as (-> & Hh). eauto.
Qed.

Lemma ReadClientHello_SSLv2 fuel r :
  (readFuel r <= fuel)%nat -> 5 <= len (concat r) -> at_ (concat r) 0 = 128 ->
  ReadClientHello fuel r = Done (inr errSSLv2).
Proof.
  intros Hf H5 H80. unfold readFuel in Hf.
  destruct (readRecord_SSLv2 fuel (mkRState r None []) I ltac:(simpl; lia) H5 H80)
    as (st' & E & _).
  unfold ReadClientHello. rewrite E. reflexivity.
Qed.


(** ** The server_name extension *)

Lemma b2z_zero b : b2z b = 0 -> b = x00.
Proof.
  unfold b2z. intros H. pose proof (Byte.of_to_N b) as E.
  replace (Byte.to_N b) with 0%N in E by lia. simpl in E. congruence.
Qed.

Lemma scanServerNames_entry k t name rest :
  len name < 65536 ->
  scanServerNames (S k) (encodeName (t, name) ++ rest) =
    if b2z t =? 0 then Some (Some name) else scanServerNames k rest.
Proof.
  intros Hn. pose proof (len_nonneg name) as Hn0. pose proof (len_nonneg rest) as Hr0.
  cbn [scanServerNames]. unfold encodeName. cbn [fst snd].
  set (d := (t :: u16 (len name) ++ name) ++ rest).
  assert (Hd : d = [t] ++ u16 (len name) ++ (name ++ rest)).
  { subst d. unfold u16. simpl. reflexivity. }
  assert (Hld : len d = 3 + len name + len rest).
  { rewrite Hd. unfold u16, len. rewrite !length_app. cbn [length]. lia. }
  destruct (Z.ltb_spec (len d) 3); [lia|].
  assert (H0 : at_ d 0 = b2z t) by (rewrite Hd; reflexivity).
  assert (Hl : be16 (at_ d 1) (at_ d 2) = len name).
  { rewrite Hd.
    change (be16 (at_ (u16 (len name) ++ (name ++ rest)) 0)
                 (at_ (u16 (len name) ++ (name ++ rest)) 1) = len name).
    apply be16_u16. lia. }
  assert (H3 : drop 3 d = name ++ rest) by (rewrite Hd; reflexivity).
  rewrite H0, Hl, H3. rewrite len_app.
  destruct (Z.ltb_spec (len name + len rest) (len name)); [lia|].
  destruct (b2z t =? 0).
  - unfold slice. rewrite Z.sub_0_r. unfold drop at 1. simpl skipn.
    rewrite take_app_l by lia. rewrite take_all by lia. reflexivity.
  - rewrite drop_app_r by lia. rewrite Z.sub_diag. reflexivity.
Qed.

Lemma scanServerNames_skip pre : forall k rest,
  Forall otherName pre ->
  scanServerNames (length pre + k) (encodeNames pre ++ rest) = scanServerNames k rest.
Proof.
  induction pre as [|[t name] pre IH]; intros k rest Hpre; [reflexivity|].
  inversion Hpre as [|? ? [Ht Hn] Hpre']; subst. cbn [fst snd] in *.
  unfold encodeNames. cbn [map concat length Nat.add]. rewrite <- app_assoc.
  rewrite scanServerNames_entry by assumption.
  destruct (Z.eqb_spec (b2z t) 0) as [Hz|_]; [apply b2z_zero in Hz; contradiction|].
  apply IH. assumption.
Qed.

Lemma encodeNames_app l1 l2 : encodeNames (l1 ++ l2) = encodeNames l1 ++ encodeNames l2.
Proof. unfold encodeNames. rewrite map_app, concat_app. reflexivity. Qed.

(** C3. In a server_name extension whose entries before the first entry of
    name type 0 are of other types, and whose count reaches that entry, the
    loop over the entries stops at it with its name, [extensionCase] makes
    this name the server name of the message, and the loop over the
    extensions goes on after the extension with that message. The entries
    [post] after the entry and the bytes [tail] that follow have no part in
    the result. *)
Theorem server_name_first_hostname :
  forall (m : ClientHelloMsg) (pre : list (byte * list byte)) (name : list byte)
         (post : list (byte * list byte)) (tail : list byte) (numNames extLen : Z)
         (fuel : nat),
    Forall otherName pre ->
    len name < 65536 ->
    Z.of_nat (length pre) < numNames < 65536 ->
    let body := u16 numNames ++ encodeNames (pre ++ (x00, name) :: post) ++ tail in
    2 <= extLen <= len body -> extLen < 65536 ->
    scanServerNames (Z.to_nat numNames) (drop 2 body) = Some (Some name) /\
    extensionCase m extensionServerName extLen body = Some (set_ServerName m name) /\
    extensionsLoop (S fuel) m (u16 extensionServerName ++ u16 extLen ++ body)
      = extensionsLoop fuel (set_ServerName m name) (drop extLen body) /\
    ServerName (set_ServerName m name) = name.
Proof.
  intros m pre name post tail numNames extLen fuel Hpre Hname Hnum body Hlen Hlen16.
  assert (Hdrop : drop 2 body = encodeNames (pre ++ (x00, name) :: post) ++ tail)
    by reflexivity.
  assert (Hscan : scanServerNames (Z.to_nat numNames) (drop 2 body) = Some (Some name)).
  { rewrite Hdrop.
    replace (Z.to_nat numNames)
      with (length pre + S (Z.to_nat numNames - length pre - 1))%nat by lia.
    rewrite encodeNames_app, <- app_assoc.
    rewrite scanServerNames_skip by assumption.
    change (encodeNames ((x00, name) :: post))
      with (encodeName (x00, name) ++ encodeNames post).
    rewrite <- app_assoc. rewrite scanServerNames_entry by assumption. reflexivity. }
  assert (Hcase : extensionCase m extensionServerName extLen body
                  = Some (set_ServerName m name)).
  { unfold extensionCase. change (extensionServerName =? extensionServerName) with true.
    cbv iota. destruct (Z.ltb_spec extLen 2); [lia|].
    unfold body at 1 2. rewrite be16_u16 by lia. rewrite Hscan. reflexivity. }
  split; [exact Hscan|]. split; [exact Hcase|]. split; [|reflexivity].
  set (d := u16 extensionServerName ++ u16 extLen ++ body).
  assert (Hd : len d = 4 + len body).
  { subst d. unfold u16, len. rewrite !length_app. cbn [length]. lia. }
  pose proof (len_nonneg body) as Hb0.
  cbn [extensionsLoop].
  destruct (Z.eqb_spec (len d) 0); [lia|].
  destruct (Z.ltb_spec (len d) 4); [lia|].
  assert (E0 : be16 (at_ d 0) (at_ d 1) = extensionServerName).
  { subst d. apply be16_u16. unfold extensionServerName. lia. }
  assert (E1 : be16 (at_ d 2) (at_ d 3) = extLen).
  { subst d.
    change (be16 (at_ (u16 extLen ++ body) 0) (at_ (u16 extLen ++ body) 1) = extLen).
    apply be16_u16. lia. }
  assert (E2 : drop 4 d = body) by reflexivity.
  rewrite E0, E1, E2.
  destruct (Z.ltb_spec (len body) extLen); [lia|].
  rewrite Hcase. reflexivity.
Qed.

(** A list without a host name leaves the server name as it was. *)
Lemma server_name_no_hostname m entries tail extLen :
  Forall otherName entries -> Z.of_nat (length entries) < 65536 -> 2 <= extLen ->
  extensionCase m extensionServerName extLen
    (u16 (Z.of_nat (length entries)) ++ encodeNames entries ++ tail) = Some m.
Proof.
  intros He Hn Hlen.
  unfold extensionCase. change (extensionServerName =? extensionServerName) with true.
  cbv iota. destruct (Z.ltb_spec extLen 2); [lia|].
  rewrite be16_u16 by lia.
  replace (drop 2 (u16 (Z.of_nat (length entries)) ++ encodeNames entries ++ tail))
    with (encodeNames entries ++ tail) by reflexivity.
  rewrite Nat2Z.id. rewrite <- (Nat.add_0_r (length entries)).
  rewrite scanServerNames_skip by assumption. reflexivity.
Qed.

(** ** The claims on the reader and the decoder *)

(** C3 on [exampleNames]: an entry of type 1, then the host name "a.b",
    then the host name "c". *)
Lemma server_name_first_hostname_witness :
  extensionCase zeroMsg extensionServerName 16 exampleNames
    = Some (set_ServerName zeroMsg (bytesOf [97; 46; 98])) /\
  extensionsLoop 1 zeroMsg (u16 extensionServerName ++ u16 16 ++ exampleNames)
    = Some (set_ServerName zeroMsg (bytesOf [97; 46; 98])).
Proof.
  pose proof (server_name_first_hostname zeroMsg [(x01, bytesOf [120])]
                (bytesOf [97; 46; 98]) [(x00, bytesOf [99])] [] 2 16 0%nat) as H.
  cbv zeta in H.
  assert (H1 : Forall otherName [(x01, bytesOf [120])]).
  { constructor; [|constructor]. split; [discriminate|vm_compute; reflexivity]. }
  assert (H2 : len (bytesOf [97; 46; 98]) < 65536) by (vm_compute; reflexivity).
  assert (H3 : Z.of_nat (length [(x01, bytesOf [120])]) < 2 < 65536)
    by (split; vm_compute; reflexivity).
  assert (H4 : 2 <= 16 <= len exampleNames) by (split; vm_compute; discriminate).
  assert (H5 : 16 < 65536) by reflexivity.
  destruct (H H1 H2 H3 H4 H5) as (_ & Hcase & Hloop & _).
  split; [exact Hcase|exact Hloop].
Defined.

(** C4 on [helloMessage], cut after its fourth byte, the two records coming
    in two chunks. *)
Lemma ReadClientHello_two_records_witness :
  exists res,
    ReadClientHello 80 (bytes_NewReader (handshakeRecord x03 x01 helloMessage)) = Done res /\
    ReadClientHello 80
      [handshakeRecord x03 x01 (take 4 helloMessage);
       handshakeRecord x03 x03 (drop 4 helloMessage)] = Done res.
Proof.
  apply (ReadClientHello_two_records helloMessage 4 x03 x01 x03 x01 x03 x03 []).
  - split; vm_compute; discriminate.
  - vm_compute. discriminate.
  - vm_compute. reflexivity.
  - vm_compute. reflexivity.
  - vm_compute. reflexivity.
  - vm_compute. reflexivity.
  - vm_compute. reflexivity.
  - apply Nat.leb_le. vm_compute. reflexivity.
  - apply Nat.leb_le. vm_compute. reflexivity.
Defined.

(** C4 as it stands fails: [helloMessage] in one record is decoded; cut
    after its third byte it is "not a tls packet". *)
Lemma ReadClientHello_short_first_record_counterexample :
  (exists msg,
     ReadClientHello 80 (bytes_NewReader (handshakeRecord x03 x01 helloMessage))
       = Done (inl msg)) /\
  ReadClientHello 80
    (bytes_NewReader (handshakeRecord x03 x01 (take 3 helloMessage)
                        ++ handshakeRecord x03 x01 (drop 3 helloMessage)))
    = Done (inr errNotTLS).
Proof.
  split.
  - eexists. vm_compute. reflexivity.
  - vm_compute. reflexivity.
Qed.




(** ** The range draw *)

Lemma wrap64_small z : - 2 ^ 63 <= z < 2 ^ 63 -> wrap64 z = z.
Proof. intros. unfold wrap64. rewrite Z.mod_small; lia. Qed.

Lemma drawRange_done lo hi s :
  exists v r', drawRange lo hi s = (Done v, mkState (self s) r').
Proof.
  unfold drawRange. destruct (0 <? wrap64 (hi - lo)).
  - unfold bind, rand_Intn, ret. destruct (rand (rt s)); eauto.
    destruct s; simpl; eauto.
  - unfold ret. destruct s; simpl; eauto.
Qed.

Lemma drawRange_bounds lo hi s v s' :
  0 <= lo -> lo <= hi -> hi < 2 ^ 63 ->
  drawRange lo hi s = (Done v, s') ->
  lo <= v /\ (lo < hi -> v < hi) /\ (lo = hi -> v = lo).
Proof.
  intros Hlo Hle Hhi. unfold drawRange.
  rewrite (wrap64_small (hi - lo)) by lia.
  destruct (0 <? hi - lo) eqn:E.
  - apply Z.ltb_lt in E. unfold bind, rand_Intn, ret.
    destruct (rand (rt s)) as [|x rest]; intros [= <- _].
    + rewrite wrap64_small by lia. lia.
    + pose proof (Z.mod_pos_bound x (hi - lo) E).
      rewrite wrap64_small by lia. lia.
  - apply Z.ltb_ge in E. unfold ret. intros [= <- _]. lia.
Qed.

(** Every value of [[lo, hi)] is drawn for some state of the source. *)
Lemma drawRange_reaches lo hi v a r :
  0 <= lo -> hi < 2 ^ 63 -> lo <= v < hi ->
  fst (drawRange lo hi (mkState a (mkRuntime ((v - lo) :: rand r) (slept r)))) = Done v.
Proof.
  intros. unfold drawRange. rewrite (wrap64_small (hi - lo)) by lia.
  destruct (0 <? hi - lo) eqn:E; [|apply Z.ltb_ge in E; lia].
  unfold bind, rand_Intn, ret. simpl.
  rewrite Z.mod_small by lia. rewrite wrap64_small by lia.
  f_equal. lia.
Qed.

(** C8. With the range [[1, 2]] every draw gives 1, whatever the state of
    the random source: the upper end of the range is never drawn. *)
Theorem drawRange_one_two_is_one :
  forall s : state, fst (drawRange 1 2 s) = Done 1.
Proof.
  intros s. unfold drawRange. change (0 <? wrap64 (2 - 1)) with true.
  cbv iota. unfold bind, rand_Intn, ret.
  change (wrap64 (2 - 1)) with 1.
  destruct (rand (rt s)); simpl; [reflexivity|].
  rewrite Z.mod_1_r. reflexivity.
Qed.

(** ** One pass of the fragmentation loop *)

Lemma frame_refl s r' : frame s (mkState (self s) r') [].
Proof.
  exists (conn (self s)), r'. unfold withConn. destruct s as [[c f b1 b2 b3 d] r]; simpl.
  rewrite app_nil_r. destruct c; auto.
Qed.

Lemma frame_refl' s : frame s s [].
Proof. destruct s as [a r]. apply (frame_refl (mkState a r) r). Qed.

Lemma frame_trans s1 s2 s3 n1 n2 :
  frame s1 s2 n1 -> frame s2 s3 n2 -> frame s1 s3 (n1 ++ n2).
Proof.
  intros (c2 & r2 & -> & Hl2 & Hs2 & Hr2) (c3 & r3 & -> & Hl3 & Hs3 & Hr3).
  exists c3, r3. simpl in *. repeat split.
  - rewrite Hl3, Hl2, app_assoc. reflexivity.
  - rewrite Hs3, Hs2, skipn_skipn, length_app. f_equal. lia.
  - congruence.
Qed.

Lemma frame_runtime s s' news r'' :
  frame s s' news -> frame s (mkState (self s') r'') news.
Proof.
  intros (c' & r' & -> & H). exists c', r''. split; [reflexivity|exact H].
Qed.

Lemma frame_newWrites s s' news : frame s s' news -> newWrites s s' = news.
Proof.
  intros (c' & r' & -> & Hl & _). unfold newWrites. simpl. rewrite Hl.
  rewrite skipn_app, skipn_all, Nat.sub_diag. reflexivity.
Qed.

Lemma frame_isFirstWrite s s' news :
  frame s s' news -> isFirstWrite (self s') = isFirstWrite (self s).
Proof. intros (c' & r' & -> & _). reflexivity. Qed.

Lemma frame_ranges s s' news :
  frame s s' news ->
  BSL (self s') = BSL (self s) /\ SL (self s') = SL (self s) /\
  ASL (self s') = ASL (self s) /\ Delay (self s') = Delay (self s).
Proof. intros (c' & r' & -> & _). simpl. auto. Qed.

Lemma frame_allWritesSucceed s s' news :
  frame s s' news -> allWritesSucceed (conn (self s)) -> allWritesSucceed (conn (self s')).
Proof.
  intros (c' & r' & -> & _ & Hs & _) H. unfold allWritesSucceed in *. simpl.
  rewrite Hs. rewrite <- (firstn_skipn (length news)) in H.
  apply Forall_app in H. tauto.
Qed.

(** [a.conn.Write(p)] as a frame. *)
Lemma connWrite_frame p s :
  exists res s',
    connWrite p s = (Done res, s') /\ frame s s' [(p, res)] /\
    (allWritesSucceed (conn (self s)) -> res = (len p, None)) /\
    (snd res = None -> res = (len p, None)).
Proof.
  unfold connWrite, Conn_Write.
  eexists _, _. split; [reflexivity|]. split; [|split].
  - eexists _, (rt s). split; [reflexivity|]. simpl. auto.
  - unfold allWritesSucceed. intros H.
    destruct (wscript (conn (self s))) as [|[[n e]|] t]; try reflexivity.
    inversion H; subst. discriminate.
  - destruct (wscript (conn (self s))) as [|[[n e]|] t]; try reflexivity.
    simpl. discriminate.
Qed.

Lemma writeFragments_loop_stop fuel b lo hi nw pos s :
  len b <= pos -> writeFragments_loop fuel b lo hi nw pos s = (Done (nw, None), s).
Proof.
  intros H. destruct fuel; simpl;
    (destruct (pos <? len b) eqn:E; [apply Z.ltb_lt in E; lia|reflexivity]).
Qed.

(** What one pass does, the draws being named. *)
Lemma writeFragments_loop_step fuel b lo hi nw pos s :
  pos < len b ->
  exists v d r2,
    (exists r1, drawRange lo hi s = (Done v, mkState (self s) r1) /\
       drawRange (fst (Delay (self s))) (snd (Delay (self s))) (mkState (self s) r1)
         = (Done d, mkState (self s) r2)) /\
    let fl := if len b - pos <? v then len b - pos else v in
    writeFragments_loop (S fuel) b lo hi nw pos s =
      if fl <? 0 then (Panic, mkState (self s) r2)
      else
        match connWrite (slice b pos (pos + fl)) (mkState (self s) r2) with
        | (Done (tnw, Some e), s') => (Done (0, Some e), s')
        | (Done (tnw, None), s') =>
            writeFragments_loop fuel b lo hi (nw + tnw) (pos + fl)
              (mkState (self s')
                 (if 0 <? d
                  then mkRuntime (rand (rt s'))
                         (slept (rt s') ++ [wrap64 (d * time_Millisecond)])
                  else rt s'))
        | (_, s') => (Panic, s')
        end.
Proof.
  intros Hpos.
  destruct (drawRange_done lo hi s) as (v & r1 & Hv).
  destruct (drawRange_done (fst (Delay (self s))) (snd (Delay (self s))) (mkState (self s) r1))
    as (d & r2 & Hd).
  simpl in Hd.
  exists v, d, r2. split; [eauto|].
  cbn zeta. cbn [writeFragments_loop].
  apply Z.ltb_lt in Hpos. rewrite Hpos.
  unfold bind at 1. rewrite Hv.
  unfold bind at 1. unfold getAdapter at 1. cbn [self].
  unfold bind at 1. rewrite Hd.
  destruct (_ <? 0) eqn:Efl; [reflexivity|].
  unfold bind at 1.
  destruct (connWrite_frame (slice b pos (pos + (if len b - pos <? v then len b - pos else v)))
              (mkState (self s) r2)) as ([tnw ew] & s' & Hw & _).
  rewrite Hw. destruct ew as [e|]; [reflexivity|].
  unfold bind at 1. destruct (0 <? d); unfold time_Sleep, ret; [reflexivity|].
  destruct s'; reflexivity.
Qed.

Lemma frame_from s r s' news : frame (mkState (self s) r) s' news -> frame s s' news.
Proof. intros (c' & r' & -> & H). exists c', r'. split; [reflexivity|exact H]. Qed.

(** The loop of [writeFragments], from any position: what it writes, what
    it returns, and when it returns. *)
Lemma writeFragments_loop_inv fuel : forall b lo hi nw pos s,
  0 <= pos <= len b ->
  let R := writeFragments_loop fuel b lo hi nw pos s in
  exists news,
    frame s (snd R) news /\
    (allWritesSucceed (conn (self s)) -> Forall okEntry news) /\
    (progressRange (lo, hi) -> Forall nonEmptyWrite news) /\
    (progressRange (lo, hi) -> len b - pos <= Z.of_nat fuel -> exists res, fst R = Done res) /\
    match fst R with
    | Done (n, None) =>
        Forall okEntry news /\ concat (map fst news) = drop pos b /\ n = nw + (len b - pos)
    | Done (n, Some e) =>
        n = 0 /\ exists pre p k, news = pre ++ [(p, (k, Some e))] /\ Forall okEntry pre
    | _ => Forall okEntry news
    end.
Proof.
  induction fuel as [|fuel IH]; intros b lo hi nw pos s Hpos R.
  - subst R. destruct (Z.ltb_spec pos (len b)) as [Hlt|Hge].
    + exists []. simpl. apply Z.ltb_lt in Hlt. rewrite Hlt. unfold outOfFuel. simpl.
      apply Z.ltb_lt in Hlt.
      repeat split; auto using frame_refl'. intros. lia.
    + rewrite writeFragments_loop_stop by lia. exists []. simpl.
      repeat split; auto using frame_refl'; eauto.
      * rewrite drop_all by lia. reflexivity.
      * lia.
  - destruct (Z.ltb_spec pos (len b)) as [Hlt|Hge].
    2:{ subst R. rewrite writeFragments_loop_stop by lia. exists []. simpl.
        repeat split; auto using frame_refl'; eauto.
        - rewrite drop_all by lia. reflexivity.
        - lia. }
    destruct (writeFragments_loop_step fuel b lo hi nw pos s Hlt)
      as (v & d & r2 & (r1 & Hv & Hd) & Hstep).
    cbv zeta in Hstep. subst R. rewrite Hstep. clear Hstep.
    set (fl := if len b - pos <? v then len b - pos else v).
    assert (Hfl : fl <= len b - pos).
    { subst fl. destruct (Z.ltb_spec (len b - pos) v); lia. }
    assert (Hprog : progressRange (lo, hi) -> 1 <= fl).
    { intros (H1 & H2 & H3). simpl in *.
      destruct (drawRange_bounds lo hi s v _ ltac:(lia) H2 H3 Hv) as (Hv1 & _).
      subst fl. destruct (Z.ltb_spec (len b - pos) v); lia. }
    destruct (Z.ltb_spec fl 0) as [Hneg|Hnn].
    { exists []. simpl. split; [apply frame_refl|].
      repeat split; auto. intros Hp. apply Hprog in Hp. lia. }
    destruct (connWrite_frame (slice b pos (pos + fl)) (mkState (self s) r2))
      as ([tnw ew] & s' & Hw & Hfr & Hok & Hnone).
    rewrite Hw. apply frame_from in Hfr. simpl in Hok.
    assert (Hlen : len (slice b pos (pos + fl)) = fl).
    { rewrite len_slice; lia. }
    destruct ew as [e|].
    + exists [(slice b pos (pos + fl), (tnw, Some e))]. simpl.
      split; [exact Hfr|]. split; [|split; [|split]].
      * intros H. apply Hok in H. discriminate.
      * intros Hp. constructor; [|constructor]. unfold nonEmptyWrite. simpl.
        apply Hprog in Hp. lia.
      * eauto.
      * split; [reflexivity|]. exists [], (slice b pos (pos + fl)), tnw. auto.
    + specialize (Hnone eq_refl). injection Hnone as ->.
      set (s'' := mkState (self s') _).
      assert (Hfr' : frame s s'' [(slice b pos (pos + fl), (len (slice b pos (pos + fl)), None))]).
      { apply frame_runtime. exact Hfr. }
      destruct (IH b lo hi (nw + len (slice b pos (pos + fl))) (pos + fl) s'' ltac:(lia))
        as (news & Hfr2 & Hall & Hne & Hterm & Hres).
      exists ((slice b pos (pos + fl), (len (slice b pos (pos + fl)), None)) :: news).
      split; [exact (frame_trans _ _ _ _ _ Hfr' Hfr2)|].
      assert (Hentry : okEntry (slice b pos (pos + fl), (len (slice b pos (pos + fl)), None))).
      { reflexivity. }
      split; [|split; [|split]].
      * intros H. constructor; [exact Hentry|]. apply Hall.
        exact (frame_allWritesSucceed _ _ _ Hfr' H).
      * intros Hp. constructor; [|auto]. unfold nonEmptyWrite. simpl.
        apply Hprog in Hp. lia.
      * intros Hp Hfuel. apply Hterm; [exact Hp|]. apply Hprog in Hp. lia.
      * destruct (fst (writeFragments_loop fuel b lo hi _ _ s'')) as [[n [e|]]| |].
        -- destruct Hres as (-> & pre & p & k & -> & Hpre).
           split; [reflexivity|].
           exists ((slice b pos (pos + fl), (len (slice b pos (pos + fl)), None)) :: pre), p, k.
           split; [reflexivity|]. constructor; assumption.
        -- destruct Hres as (Hres1 & Hres2 & ->).
           split; [constructor; assumption|]. split.
           ++ simpl. rewrite Hres2. apply slice_drop; lia.
           ++ rewrite Hlen. lia.
        -- constructor; assumption.
        -- constructor; assumption.
Qed.

(** ** writeFragments and the three chunks *)

Lemma zoneRange_progress a index : allProgress a -> progressRange (zoneRange a index).
Proof.
  intros (H0 & H1 & H2). unfold zoneRange.
  destruct (index =? 0); [assumption|]. destruct (index =? 1); assumption.
Qed.

Lemma writeFragments_inv fuel b index s :
  let R := writeFragments fuel b index s in
  exists news,
    frame s (snd R) news /\
    (allWritesSucceed (conn (self s)) -> Forall okEntry news) /\
    (progressRange (zoneRange (self s) index) -> Forall nonEmptyWrite news) /\
    (progressRange (zoneRange (self s) index) -> len b <= Z.of_nat fuel ->
     exists res, fst R = Done res) /\
    writeResult true b 0 news (fst R).
Proof.
  unfold writeFragments, bind, getAdapter. fold (zoneRange (self s) index).
  destruct (zoneRange (self s) index) as [lo hi] eqn:Ez.
  pose proof (len_nonneg b).
  destruct (writeFragments_loop_inv fuel b lo hi 0 0 s ltac:(lia))
    as (news & Hfr & Hall & Hne & Hterm & Hres).
  exists news. cbv zeta. repeat split; auto.
  - intros Hp Hf. apply Hterm; [assumption|lia].
  - unfold writeResult.
    destruct (fst (writeFragments_loop fuel b lo hi 0 0 s)) as [[n [e|]]| |]; auto.
    + destruct Hres as (-> & Hx). auto.
    + destruct Hres as (H1 & H2 & H3). rewrite Z.sub_0_r in H3. auto.
Qed.

Lemma allProgress_frame s s' news : frame s s' news -> allProgress (self s) -> allProgress (self s').
Proof.
  intros Hfr. destruct (frame_ranges _ _ _ Hfr) as (E0 & E1 & E2 & _).
  unfold allProgress. rewrite E0, E1, E2. auto.
Qed.

Lemma sendChunks_cons fuel c rest i nw s :
  sendChunks fuel (c :: rest) i nw s =
    match writeFragments fuel c i s with
    | (Done (tnw, Some e), s1) => (Done (0, Some e), s1)
    | (Done (tnw, None), s1) => sendChunks fuel rest (i + 1) (nw + tnw) s1
    | (Panic, s1) => (Panic, s1)
    | (OutOfFuel, s1) => (OutOfFuel, s1)
    end.
Proof.
  cbn [sendChunks]. unfold bind.
  destruct (writeFragments fuel c i s) as [[[tnw [e|]]| |] s1]; reflexivity.
Qed.

Lemma sendChunks_inv fuel chunks : forall i nw s,
  let R := sendChunks fuel chunks i nw s in
  exists news,
    frame s (snd R) news /\
    (allWritesSucceed (conn (self s)) -> Forall okEntry news) /\
    (allProgress (self s) -> Forall (fun c => len c <= Z.of_nat fuel) chunks ->
     exists res, fst R = Done res) /\
    writeResult true (concat chunks) nw news (fst R).
Proof.
  induction chunks as [|c rest IH]; intros i nw s R; subst R.
  - exists []. simpl. unfold ret. simpl.
    repeat split; auto using frame_refl'; eauto. unfold len. simpl. lia.
  - rewrite sendChunks_cons.
    destruct (writeFragments_inv fuel c i s) as (n1 & Hfr1 & Hall1 & _ & Hterm1 & Hres1).
    cbv zeta in *.
    destruct (writeFragments fuel c i s) as [[[tnw [e|]]| |] s1]; simpl in *.
    + exists n1. destruct Hres1 as (Hz & Hpre). repeat split; auto; eauto.
    + destruct Hres1 as (Hok1 & Hc1 & Htnw). subst tnw.
      destruct (IH (i + 1) (nw + len c) s1) as (n2 & Hfr2 & Hall2 & Hterm2 & Hres2).
      cbv zeta in *.
      exists (n1 ++ n2). split; [exact (frame_trans _ _ _ _ _ Hfr1 Hfr2)|].
      split; [|split].
      * intros H. apply Forall_app. split; [auto|].
        apply Hall2. exact (frame_allWritesSucceed _ _ _ Hfr1 H).
      * intros Hp Hf. inversion Hf; subst. apply Hterm2; [|assumption].
        exact (allProgress_frame _ _ _ Hfr1 Hp).
      * unfold writeResult in *.
        destruct (fst (sendChunks fuel rest (i + 1) (nw + len c) s1)) as [[n [e|]]| |];
          cbv beta iota in Hres2 |- *.
        -- destruct Hres2 as (Hn & pre & p & k & -> & Hpre). split; [assumption|].
           exists (n1 ++ pre), p, k. rewrite app_assoc. split; [reflexivity|].
           apply Forall_app; auto.
        -- destruct Hres2 as (Hok2 & Hc2 & ->). split; [apply Forall_app; auto|].
           split.
           ++ rewrite map_app, concat_app, Hc1, Hc2. reflexivity.
           ++ rewrite len_app. lia.
        -- apply Forall_app; auto.
        -- apply Forall_app; auto.
    + exists n1. repeat split; auto.
      intros Hp Hf. inversion Hf; subst.
      destruct (Hterm1 (zoneRange_progress _ i Hp) H1) as (res & Hres). discriminate.
    + exists n1. repeat split; auto.
      intros Hp Hf. inversion Hf; subst.
      destruct (Hterm1 (zoneRange_progress _ i Hp) H1) as (res & Hres). discriminate.
Qed.

(** ** bytes.Index *)

Lemma hasPrefix_len s : forall sep, hasPrefix s sep = true -> len sep <= len s.
Proof.
  induction s as [|y s IH]; intros [|x sep]; simpl; intros H; unfold len in *; simpl;
    try discriminate; try lia.
  apply andb_true_iff in H. destruct H as [_ H]. apply IH in H. lia.
Qed.

Lemma bytes_Index_from_bounds s sep : forall i,
  bytes_Index_from i s sep <> -1 ->
  0 <= i ->
  i <= bytes_Index_from i s sep /\ bytes_Index_from i s sep - i + len sep <= len s.
Proof.
  induction s as [|y s IH]; intros i Hne Hi; cbn [bytes_Index_from] in *.
  - destruct (hasPrefix [] sep) eqn:E; [|congruence].
    apply hasPrefix_len in E. lia.
  - destruct (hasPrefix (y :: s) sep) eqn:E.
    + apply hasPrefix_len in E. lia.
    + specialize (IH (i + 1) Hne ltac:(lia)). unfold len in *. simpl. lia.
Qed.

Lemma bytes_Index_bounds s sep :
  bytes_Index s sep <> -1 ->
  0 <= bytes_Index s sep /\ bytes_Index s sep + len sep <= len s.
Proof.
  intros H. destruct (bytes_Index_from_bounds s sep 0 H ltac:(lia)). unfold bytes_Index. lia.
Qed.

(** The three chunks of the first packet put together again. *)
Lemma chunks_concat (b : list byte) index l :
  0 <= index -> 0 <= l -> index + l <= len b ->
  concat [slice b 0 index; slice b index (index + l);
          take (len b - index - l) (drop (index + l) b)] = b.
Proof.
  intros H0 Hl H. simpl. rewrite app_nil_r.
  rewrite (take_all (len b - index - l)) by (rewrite len_drop; lia).
  rewrite slice_drop by lia.
  pose proof (slice_drop b 0 index ltac:(lia) H0) as E. rewrite E.
  unfold drop. reflexivity.
Qed.

Lemma unique_failure (pre : list (list byte * (Z * option error))) :
  forall pre' p k e post p' k' e',
  Forall okEntry pre' ->
  pre ++ (p, (k, Some e)) :: post = pre' ++ [(p', (k', Some e'))] ->
  post = [] /\ e = e' /\ pre = pre'.
Proof.
  induction pre as [|x pre IH]; intros pre' p k e post p' k' e' Hok Heq.
  - destruct pre' as [|y pre']; simpl in Heq.
    + injection Heq as -> -> -> ->. auto.
    + injection Heq as <- _. inversion Hok; subst. discriminate.
  - destruct pre' as [|y pre']; simpl in Heq.
    + injection Heq as _ Heq. destruct pre; discriminate.
    + injection Heq as -> Heq. inversion Hok; subst.
      destruct (IH _ _ _ _ _ _ _ _ H2 Heq) as (-> & -> & ->). auto.
Qed.

Lemma no_failure_in_ok (pre : list (list byte * (Z * option error))) p k e post :
  Forall okEntry (pre ++ (p, (k, Some e)) :: post) -> False.
Proof.
  intros H. apply Forall_app in H. destruct H as [_ H]. inversion H; subst. discriminate.
Qed.

(** ** The first packet *)

Lemma parseFirst_total b : exists res, parseFirst b = Done res.
Proof. apply ReadClientHello_total. apply Nat.le_refl. Qed.

Lemma newWrites_started s s' : newWrites (started s) s' = newWrites s s'.
Proof. reflexivity. Qed.

Lemma Write_unfold fuel b s :
  Write fuel b s =
    if isFirstWrite (self s) then fragmentAndWriteFirstPacket fuel b (started s)
    else connWrite b s.
Proof.
  unfold Write, bind, getAdapter. cbn [self]. destruct (isFirstWrite (self s)); reflexivity.
Qed.

Lemma connWrite_writeResult b s :
  exists news,
    frame s (snd (connWrite b s)) news /\
    (allWritesSucceed (conn (self s)) -> Forall okEntry news) /\
    (exists res, fst (connWrite b s) = Done res /\ news = [(b, res)]) /\
    writeResult false b 0 news (fst (connWrite b s)).
Proof.
  destruct (connWrite_frame b s) as ([n e] & s' & E & Hfr & Hok & Hnone).
  rewrite E. cbn [fst snd]. exists [(b, (n, e))].
  split; [exact Hfr|]. split; [|split].
  - intros H. rewrite (Hok H). constructor; [reflexivity|constructor].
  - eauto.
  - unfold writeResult. destruct e as [e|].
    + split; [discriminate|]. exists [], b, n. auto.
    + specialize (Hnone eq_refl). injection Hnone as ->.
      split; [constructor; [reflexivity|constructor]|].
      split; [simpl; apply app_nil_r|lia].
Qed.

Lemma writeResult_weaken b nw news r :
  writeResult true b nw news r -> writeResult false b nw news r.
Proof.
  unfold writeResult. destruct r as [[n [e|]]| |]; auto.
  intros (_ & H). split; [discriminate|exact H].
Qed.

Lemma fragmentAndWriteFirstPacket_fallback fuel b s :
  (exists e, parseFirst b = Done (inr e)) \/
  (exists hello, parseFirst b = Done (inl hello) /\ bytes_Index b (sni.ServerName hello) = -1) ->
  fragmentAndWriteFirstPacket fuel b s = connWrite b s.
Proof.
  unfold fragmentAndWriteFirstPacket, parseFirst.
  intros [(e & ->)|(hello & -> & Hi)]; [reflexivity|]. rewrite Hi. reflexivity.
Qed.

Lemma fragmentAndWriteFirstPacket_fragmenting fuel b s hello :
  parseFirst b = Done (inl hello) -> bytes_Index b (sni.ServerName hello) <> -1 ->
  let index := bytes_Index b (sni.ServerName hello) in
  let l := len (sni.ServerName hello) in
  fragmentAndWriteFirstPacket fuel b s =
    sendChunks fuel [slice b 0 index; slice b index (index + l);
                     take (len b - index - l) (drop (index + l) b)] 0 0 s.
Proof.
  unfold fragmentAndWriteFirstPacket, parseFirst. intros -> Hi. cbv zeta.
  destruct (Z.eqb_spec (bytes_Index b (sni.ServerName hello)) (-1)); [contradiction|reflexivity].
Qed.

Lemma chunks_fit (b : list byte) index l fuel :
  0 <= index -> 0 <= l -> index + l <= len b -> len b <= Z.of_nat fuel ->
  Forall (fun c : list byte => len c <= Z.of_nat fuel)
    [slice b 0 index; slice b index (index + l);
     take (len b - index - l) (drop (index + l) b)].
Proof.
  intros. repeat constructor.
  - rewrite len_slice; lia.
  - rewrite len_slice; lia.
  - rewrite len_take; [lia|]. rewrite len_drop; lia.
Qed.

Lemma fragmentAndWriteFirstPacket_inv fuel b s :
  let R := fragmentAndWriteFirstPacket fuel b s in
  exists news,
    frame s (snd R) news /\
    (allWritesSucceed (conn (self s)) -> Forall okEntry news) /\
    (allProgress (self s) -> len b <= Z.of_nat fuel -> exists res, fst R = Done res) /\
    writeResult false b 0 news (fst R).
Proof.
  cbv zeta. destruct (parseFirst_total b) as ([hello|e] & E).
  2:{ rewrite fragmentAndWriteFirstPacket_fallback by eauto.
      destruct (connWrite_writeResult b s) as (news & H1 & H2 & (res & H3 & _) & H4).
      exists news. repeat split; eauto. }
  destruct (Z.eq_dec (bytes_Index b (sni.ServerName hello)) (-1)) as [Hi|Hi].
  { rewrite fragmentAndWriteFirstPacket_fallback by eauto.
    destruct (connWrite_writeResult b s) as (news & H1 & H2 & (res & H3 & _) & H4).
    exists news. repeat split; eauto. }
  rewrite (fragmentAndWriteFirstPacket_fragmenting fuel b s hello E Hi). cbv zeta.
  destruct (bytes_Index_bounds b _ Hi) as (Hi0 & Hi1).
  pose proof (len_nonneg (sni.ServerName hello)) as Hl0.
  set (chunks := [_; _; _]).
  destruct (sendChunks_inv fuel chunks 0 0 s) as (news & H1 & H2 & H3 & H4).
  cbv zeta in *. exists news. split; [exact H1|]. split; [exact H2|]. split.
  - intros Hp Hf. apply H3; [exact Hp|]. apply chunks_fit; assumption.
  - apply writeResult_weaken. subst chunks. rewrite chunks_concat in H4 by assumption. exact H4.
Qed.

(** The two fallbacks of the first [Write]: when the parse fails, and when
    the server name is not found in the packet, the packet goes out in one
    write as it is. *)
Lemma Write_first_fallback fuel b s :
  isFirstWrite (self s) = true ->
  (exists e, parseFirst b = Done (inr e)) \/
  (exists hello, parseFirst b = Done (inl hello) /\ bytes_Index b (sni.ServerName hello) = -1) ->
  Write fuel b s = connWrite b (started s) /\
  exists res, newWrites s (snd (Write fuel b s)) = [(b, res)].
Proof.
  intros Hfirst Hfb. rewrite Write_unfold, Hfirst.
  rewrite (fragmentAndWriteFirstPacket_fallback fuel b (started s) Hfb).
  split; [reflexivity|].
  destruct (connWrite_frame b (started s)) as (res & s' & Hw & Hfr & _).
  rewrite Hw. exists res. rewrite <- newWrites_started. exact (frame_newWrites _ _ _ Hfr).
Qed.

(** With the range [[0, 0]] the loop writes empty fragments for as long as
    it is run. *)
Lemma writeFragments_loop_zero_range fuel : forall b nw pos s,
  0 <= pos < len b -> allWritesSucceed (conn (self s)) ->
  fst (writeFragments_loop fuel b 0 0 nw pos s) = OutOfFuel.
Proof.
  induction fuel as [|fuel IH]; intros b nw pos s Hpos Hall.
  - simpl. destruct (Z.ltb_spec pos (len b)); [reflexivity|lia].
  - destruct (writeFragments_loop_step fuel b 0 0 nw pos s ltac:(lia))
      as (v & d & r2 & (r1 & Hv & Hd) & Hstep).
    cbv zeta in Hstep. rewrite Hstep. clear Hstep.
    destruct (drawRange_bounds 0 0 s v _ ltac:(lia) ltac:(lia) ltac:(lia) Hv) as (_ & _ & Hv0).
    rewrite (Hv0 eq_refl).
    destruct (Z.ltb_spec (len b - pos) 0); [lia|].
    change (0 <? 0) with false. cbv iota.
    destruct (connWrite_frame (slice b pos (pos + 0)) (mkState (self s) r2))
      as ([tnw ew] & s' & Hw & Hfr & Hok & _).
    rewrite Hw. rewrite (Hok Hall) in *. injection (Hok Hall) as -> ->.
    apply IH; [lia|].
    exact (frame_allWritesSucceed _ _ _ Hfr Hall).
Qed.

(** ** The claims on the adapter *)

(** C1, as amended. On an adapter whose three size ranges start at 1 or
    more and on a connection whose writes all succeed,
    [fragmentAndWriteFirstPacket] returns for every [b], within [len b]
    passes of the loop of [writeFragments]; it returns [(len b, nil)], every
    write it has made has succeeded, and the fragments it has written, put
    end to end in the order of the writes, are [b]. *)
Theorem first_write_round_trip :
  forall (fuel : nat) (b : list byte) (s : state),
    allWritesSucceed (conn (self s)) ->
    allProgress (self s) ->
    len b <= Z.of_nat fuel ->
    let R := fragmentAndWriteFirstPacket fuel b s in
    fst R = Done (len b, None) /\
    sentSince s (snd R) = b /\
    Forall okEntry (newWrites s (snd R)).
Proof.
  intros fuel b s Hall Hp Hf R.
  destruct (fragmentAndWriteFirstPacket_inv fuel b s) as (news & Hfr & Hok & Hterm & Hres).
  fold R in Hfr, Hterm, Hres. specialize (Hok Hall).
  unfold sentSince. rewrite (frame_newWrites _ _ _ Hfr).
  destruct (Hterm Hp Hf) as ([n [e|]] & E); rewrite E in Hres; unfold writeResult in Hres.
  - destruct Hres as (_ & pre & p & k & -> & _).
    exfalso. exact (no_failure_in_ok _ _ _ _ _ Hok).
  - destruct Hres as (_ & Hc & ->). rewrite Z.add_0_l in E. auto.
Qed.

(** C1 on [helloPacket], with 64 passes of fuel. *)
Lemma first_write_round_trip_witness :
  fst (fragmentAndWriteFirstPacket 64 helloPacket (exampleState (freshConn []))) =
    Done (len helloPacket, None) /\
  sentSince (exampleState (freshConn []))
    (snd (fragmentAndWriteFirstPacket 64 helloPacket (exampleState (freshConn [])))) =
    helloPacket.
Proof.
  destruct (first_write_round_trip 64 helloPacket (exampleState (freshConn [])))
    as (H1 & H2 & _).
  - constructor.
  - unfold allProgress, progressRange. simpl. lia.
  - vm_compute. discriminate.
  - split; [exact H1|exact H2].
Defined.

(** C1 as it stands, without a condition on the ranges, fails on an
    adapter whose range for the bytes before the server name is [[0, 0]]:
    every write succeeds, and after 500 passes the call is still in the
    loop of the first chunk, having written nothing but empty fragments. *)
Lemma first_write_zero_range_counterexample :
  let s := mkState (New (freshConn []) (0, 0) (1, 2) (1, 2) (0, 0)) (mkRuntime [] []) in
  let R := fragmentAndWriteFirstPacket 500 helloPacket s in
  allWritesSucceed (conn (self s)) /\
  fst R = OutOfFuel /\
  length (newWrites s (snd R)) = 500%nat /\
  sentSince s (snd R) = [].
Proof.
  intros s R. split; [constructor|]. split; [|split]; vm_compute; reflexivity.
Qed.

(** C2. A new adapter has [isFirstWrite = true]. After a call of [Write],
    whatever it did and however it ended (fragments, fallback, error, panic
    or a loop that does not end), [isFirstWrite] is [false]; and a [Write]
    that follows is one [conn.Write] of its argument as it is, with that
    call's result as its own, and nothing else. *)
Theorem Write_state_machine :
  forall (fuel fuel' : nat) (b b' : list byte) (s : state)
         (c : Conn) (bsl sl asl delay : Z * Z),
    isFirstWrite (New c bsl sl asl delay) = true /\
    let s1 := snd (Write fuel b s) in
    isFirstWrite (self s1) = false /\
    Write fuel' b' s1 =
      (Done (fst (Conn_Write (conn (self s1)) b')),
       withConn s1 (snd (Conn_Write (conn (self s1)) b')) (rt s1)) /\
    newWrites s1 (snd (Write fuel' b' s1)) = [(b', fst (Conn_Write (conn (self s1)) b'))].
Proof.
  intros fuel fuel' b b' s c bsl sl asl delay. split; [reflexivity|]. cbv zeta.
  assert (Hflag : isFirstWrite (self (snd (Write fuel b s))) = false).
  { rewrite Write_unfold. destruct (isFirstWrite (self s)) eqn:E.
    - destruct (fragmentAndWriteFirstPacket_inv fuel b (started s)) as (news & Hfr & _).
      rewrite (frame_isFirstWrite _ _ _ Hfr). reflexivity.
    - destruct (connWrite_frame b s) as (res & s' & Hw & Hfr & _).
      rewrite Hw. cbn [snd]. rewrite (frame_isFirstWrite _ _ _ Hfr). exact E. }
  split; [exact Hflag|].
  set (s1 := snd (Write fuel b s)) in *.
  assert (HW : Write fuel' b' s1 =
      (Done (fst (Conn_Write (conn (self s1)) b')),
       withConn s1 (snd (Conn_Write (conn (self s1)) b')) (rt s1))).
  { rewrite Write_unfold, Hflag. unfold connWrite, withConn.
    destruct (Conn_Write (conn (self s1)) b'). reflexivity. }
  split; [exact HW|].
  rewrite HW. unfold newWrites, withConn, Conn_Write. cbn [snd self conn wlog].
  rewrite skipn_app, skipn_all, Nat.sub_diag. reflexivity.
Qed.

(** C7, as amended. In a first [Write] that fragments, a write of the
    connection that returns an error is the last write made, the writes
    before it have all succeeded, and [Write] returns that error with the
    count 0. *)
Theorem first_write_abort :
  forall (fuel : nat) (b : list byte) (s : state) (hello : sni.ClientHelloMsg)
         (pre : list (list byte * (Z * option error))) (p : list byte) (k : Z) (e : error)
         (post : list (list byte * (Z * option error))),
    isFirstWrite (self s) = true ->
    parseFirst b = Done (inl hello) ->
    bytes_Index b (sni.ServerName hello) <> -1 ->
    newWrites s (snd (Write fuel b s)) = pre ++ (p, (k, Some e)) :: post ->
    post = [] /\ fst (Write fuel b s) = Done (0, Some e) /\ Forall okEntry pre.
Proof.
  intros fuel b s hello pre p k e post Hfirst Hparse Hidx.
  rewrite Write_unfold, Hfirst.
  rewrite (fragmentAndWriteFirstPacket_fragmenting fuel b (started s) hello Hparse Hidx).
  cbv zeta. set (chunks := [_; _; _]).
  destruct (sendChunks_inv fuel chunks 0 0 (started s)) as (news & Hfr & _ & _ & Hres).
  cbv zeta in *. rewrite <- newWrites_started, (frame_newWrites _ _ _ Hfr).
  intros ->. unfold writeResult in Hres.
  destruct (fst (sendChunks fuel chunks 0 0 (started s))) as [[n [e'|]]| |].
  - destruct Hres as (Hn & pre' & p' & k' & Heq & Hpre').
    destruct (unique_failure _ _ _ _ _ _ _ _ _ Hpre' Heq) as (-> & -> & ->).
    rewrite (Hn eq_refl). auto.
  - destruct Hres as (Hok & _). exfalso. exact (no_failure_in_ok _ _ _ _ _ Hok).
  - exfalso. exact (no_failure_in_ok _ _ _ _ _ Hres).
  - exfalso. exact (no_failure_in_ok _ _ _ _ _ Hres).
Qed.

(** C7 on [helloPacket] and [failingState]: the second write fails. *)
Lemma first_write_abort_witness :
  fst (Write 64 helloPacket failingState) = Done (0, Some (errNet 1)).
Proof.
  refine (proj1 (proj2 (first_write_abort 64 helloPacket failingState
            (match parseFirst helloPacket with
             | Done (inl h) => h
             | _ => sni.zeroMsg
             end)
            [(slice helloPacket 0 20, (20, None))] (slice helloPacket 20 40) 0 (errNet 1) []
            _ _ _ _))).
  - reflexivity.
  - vm_compute. reflexivity.
  - vm_compute. discriminate.
  - vm_compute. reflexivity.
Defined.

(** C7 as it stands fails: the first fragment, of twenty bytes, has been
    written when the second write fails, and [Write] returns the count 0. *)
Lemma first_write_abort_count_counterexample :
  fst (Write 64 helloPacket failingState) = Done (0, Some (errNet 1)) /\
  acceptedSince failingState (snd (Write 64 helloPacket failingState)) = 20.
Proof. split; vm_compute; reflexivity. Qed.

(** C9, as amended. [Read] hands the buffer to one [conn.Read]; it returns
    the count of that call when the call reports no error, and the count 0
    with the error of the call otherwise. [isFirstWrite] has no part in the
    result and is left as it is. *)
Theorem Read_passthrough :
  forall (p : list byte) (s : state),
    Read p s =
      (let '(n, e, p') := fst (Conn_Read (conn (self s)) p) in
       Done (match e with Some _ => 0 | None => n end, e, p'),
       withConn s (snd (Conn_Read (conn (self s)) p)) (rt s)) /\
    fst (Read p (started s)) = fst (Read p s) /\
    isFirstWrite (self (snd (Read p s))) = isFirstWrite (self s).
Proof.
  intros p s.
  assert (H : Read p s =
      (let '(n, e, p') := fst (Conn_Read (conn (self s)) p) in
       Done (match e with Some _ => 0 | None => n end, e, p'),
       withConn s (snd (Conn_Read (conn (self s)) p)) (rt s))).
  { unfold Read, bind, connRead, withConn.
    destruct (Conn_Read (conn (self s)) p) as [[[n e] p'] c']. cbn [fst snd].
    destruct e; reflexivity. }
  split; [exact H|]. split.
  - unfold Read, bind, connRead, started. cbn [self conn].
    destruct (Conn_Read (conn (self s)) p) as [[[n e] p'] c'].
    destruct e; reflexivity.
  - rewrite H. reflexivity.
Qed.

(** C9 as it stands fails: the connection returns the count 3 with
    [io.EOF], and [Read] returns the count 0 with [io.EOF]. *)
Lemma Read_count_counterexample :
  fst (Conn_Read (conn (self readState)) (repeat x00 8)) =
    (3, Some io_EOF, [x01; x02; x03; x00; x00; x00; x00; x00]) /\
  fst (Read (repeat x00 8) readState) =
    Done (0, Some io_EOF, [x01; x02; x03; x00; x00; x00; x00; x00]).
Proof. split; vm_compute; reflexivity. Qed.

Lemma slice_slice {A} (s : list A) lo mid hi :
  0 <= lo -> lo <= mid -> mid <= hi ->
  slice s lo mid ++ slice s mid hi = slice s lo hi.
Proof.
  intros Hlo Hmid Hhi. unfold slice.
  replace (drop mid s) with (drop (mid - lo) (drop lo s))
    by (rewrite drop_drop by lia; f_equal; lia).
  generalize (drop lo s). intros t. unfold take, drop.
  replace (Z.to_nat (hi - lo)) with (Z.to_nat (mid - lo) + Z.to_nat (hi - mid))%nat by lia.
  rewrite firstn_skipn_comm.
  rewrite <- (firstn_skipn (Z.to_nat (mid - lo))
                (firstn (Z.to_nat (mid - lo) + Z.to_nat (hi - mid)) t)) at 2.
  f_equal. rewrite firstn_firstn. f_equal. lia.
Qed.

(** The loop of [writeFragments] hands [b] to the connection piece by
    piece, from the position it starts at: every write begins where the
    one before it ended. *)
Lemma writeFragments_loop_consecutive fuel : forall b lo hi nw pos s,
  0 <= pos <= len b ->
  let R := writeFragments_loop fuel b lo hi nw pos s in
  exists news k,
    frame s (snd R) news /\ pos <= k <= len b /\ concat (map fst news) = slice b pos k.
Proof.
  assert (Hempty : forall (b : list byte) pos, slice b pos pos = []).
  { intros b pos. unfold slice. rewrite Z.sub_diag. reflexivity. }
  induction fuel as [|fuel IH]; intros b lo hi nw pos s Hpos R; subst R.
  - cbn [writeFragments_loop]. destruct (pos <? len b); unfold outOfFuel, ret; cbn [fst snd];
      exists [], pos; (split; [apply frame_refl'|]); (split; [lia|]);
      rewrite Hempty; reflexivity.
  - destruct (Z.lt_ge_cases pos (len b)) as [Hlt|Hge].
    2:{ rewrite writeFragments_loop_stop by lia. cbn [fst snd].
        exists [], pos. split; [apply frame_refl'|]. split; [lia|].
        rewrite Hempty. reflexivity. }
    destruct (writeFragments_loop_step fuel b lo hi nw pos s Hlt)
      as (v & d & r2 & _ & Hstep).
    cbv zeta in Hstep. rewrite Hstep. clear Hstep.
    set (fl := if len b - pos <? v then len b - pos else v).
    assert (Hfl : fl <= len b - pos).
    { subst fl. destruct (Z.ltb_spec (len b - pos) v); lia. }
    destruct (Z.ltb_spec fl 0) as [Hneg|Hnn].
    { cbn [fst snd]. exists [], pos. split; [apply frame_refl|]. split; [lia|].
      rewrite Hempty. reflexivity. }
    destruct (connWrite_frame (slice b pos (pos + fl)) (mkState (self s) r2))
      as ([tnw ew] & s' & Hw & Hfr & _ & _).
    rewrite Hw. apply frame_from in Hfr.
    destruct ew as [e|].
    { cbn [fst snd]. exists [(slice b pos (pos + fl), (tnw, Some e))], (pos + fl).
      split; [exact Hfr|]. split; [lia|]. cbn [map fst concat]. apply app_nil_r. }
    set (s'' := mkState (self s') _).
    assert (Hfr'' : frame s s'' [(slice b pos (pos + fl), (tnw, None))])
      by exact (frame_runtime _ _ _ _ Hfr).
    destruct (IH b lo hi (nw + tnw) (pos + fl) s'' ltac:(lia)) as (news & k & Hfr2 & Hk & Hc).
    cbv zeta in Hfr2.
    exists ((slice b pos (pos + fl), (tnw, None)) :: news), k.
    split; [exact (frame_trans _ _ _ _ _ Hfr'' Hfr2)|]. split; [lia|].
    cbn [map fst concat]. rewrite Hc. apply slice_slice; lia.
Qed.

(** C10. With a size range [[min, max]] where [1 <= min <= max],
    [writeFragments] on [b] returns within [len b] passes of its loop.
    Every fragment it hands to the connection has one byte at least and
    begins where the one before it ended, so that the fragments are a
    beginning of [b]. It returns [(len b, nil)] after writes that all
    succeeded and that make up [b] - which is how it ends when no write
    of the connection fails - or it returns [(0, err)], [err] being the
    error of the last write it made, the writes before having succeeded. *)
Theorem writeFragments_terminates :
  forall (fuel : nat) (b : list byte) (index : Z) (s : state),
    progressRange (zoneRange (self s) index) ->
    len b <= Z.of_nat fuel ->
    let R := writeFragments fuel b index s in
    let news := newWrites s (snd R) in
    Forall nonEmptyWrite news /\
    (exists k, 0 <= k <= len b /\ sentSince s (snd R) = take k b) /\
    ((fst R = Done (len b, None) /\ Forall okEntry news /\ sentSince s (snd R) = b) \/
     (exists e pre p k,
        fst R = Done (0, Some e) /\ news = pre ++ [(p, (k, Some e))] /\
        Forall okEntry pre)) /\
    (allWritesSucceed (conn (self s)) ->
     fst R = Done (len b, None) /\ sentSince s (snd R) = b).
Proof.
  intros fuel b index s Hp Hf R news. subst news.
  destruct (writeFragments_inv fuel b index s) as (news & Hfr & Hok & Hne & Hterm & Hres).
  fold R in Hfr, Hterm, Hres. unfold sentSince. rewrite (frame_newWrites _ _ _ Hfr).
  assert (Hpre : exists k, 0 <= k <= len b /\ concat (map fst news) = take k b).
  { pose proof (len_nonneg b) as Hb.
    assert (HR : R = writeFragments_loop fuel b (fst (zoneRange (self s) index))
                       (snd (zoneRange (self s) index)) 0 0 s).
    { subst R. unfold writeFragments, bind, getAdapter. fold (zoneRange (self s) index).
      destruct (zoneRange (self s) index); reflexivity. }
    destruct (writeFragments_loop_consecutive fuel b (fst (zoneRange (self s) index))
                (snd (zoneRange (self s) index)) 0 0 s ltac:(lia))
      as (news' & k & Hfr' & Hk & Hc).
    cbv zeta in Hfr'. rewrite <- HR in Hfr'.
    assert (news' = news) as -> by (apply frame_newWrites in Hfr, Hfr'; congruence).
    exists k. split; [exact Hk|]. rewrite Hc. unfold slice. rewrite Z.sub_0_r. reflexivity. }
  destruct (Hterm Hp Hf) as ([n [e|]] & E); rewrite E in Hres; unfold writeResult in Hres.
  - destruct Hres as (Hn & pre & p & k & Hnews & Hokpre). rewrite (Hn eq_refl) in E.
    split; [auto|]. split; [exact Hpre|]. split.
    + right. exists e, pre, p, k. auto.
    + intros Hall. exfalso. specialize (Hok Hall). rewrite Hnews in Hok.
      exact (no_failure_in_ok _ _ _ _ _ Hok).
  - destruct Hres as (Hokn & Hc & ->). rewrite Z.add_0_l in E.
    split; [auto|]. split; [exact Hpre|]. split; [left|]; auto.
Qed.

(** C10 on [helloPacket] as the chunk of index 1, with the range [[1, 2]]. *)
Lemma writeFragments_terminates_witness :
  let s := exampleState (freshConn []) in
  let R := writeFragments 64 helloPacket 1 s in
  Forall nonEmptyWrite (newWrites s (snd R)) /\
  fst R = Done (len helloPacket, None) /\ sentSince s (snd R) = helloPacket.
Proof.
  intros s R.
  assert (Hp : progressRange (zoneRange (self s) 1)) by (unfold progressRange; simpl; lia).
  assert (Hf : len helloPacket <= Z.of_nat 64) by (vm_compute; discriminate).
  destruct (writeFragments_terminates 64 helloPacket 1 s Hp Hf) as (Hne & _ & _ & Hall).
  split; [exact Hne|]. apply Hall. constructor.
Defined.

(** The remark of C10 on the range [[0, 0]]. *)
Lemma writeFragments_zero_range_stuck fuel b index s :
  zoneRange (self s) index = (0, 0) -> allWritesSucceed (conn (self s)) -> b <> [] ->
  fst (writeFragments fuel b index s) = OutOfFuel.
Proof.
  intros Hz Hall Hb. unfold writeFragments, bind, getAdapter. fold (zoneRange (self s) index).
  rewrite Hz. apply writeFragments_loop_zero_range; [|exact Hall].
  destruct b; [contradiction|]. unfold len. simpl. lia.
Qed.

(** C6. The packet [plainHelloPacket] is a ClientHello without a
    server_name extension: it is parsed, and its server name is empty. The
    first [Write] of it makes five writes of ten bytes, the range of the
    chunk after the SNI, where C6 asks for one write of the fifty bytes. *)
Theorem Write_empty_server_name_fragments :
  (exists hello, parseFirst plainHelloPacket = Done (inl hello) /\ sni.ServerName hello = []) /\
  let s' := snd (Write 64 plainHelloPacket
                   (mkState (New (freshConn []) (20, 20) (1, 2) (10, 10) (0, 0))
                            (mkRuntime [] []))) in
  map (fun w => len (fst w)) (wlog (conn (self s'))) = [10; 10; 10; 10; 10] /\
  concat (map fst (wlog (conn (self s')))) = plainHelloPacket.
Proof.
  split.
  - eexists. split; vm_compute; reflexivity.
  - split; vm_compute; reflexivity.
Qed.

(** * Further properties of the code *)

(** ** Blocks *)

Lemma grow_doubles fuel : forall m n,
  0 < m ->
  exists k : nat,
    grow fuel m n = m * 2 ^ Z.of_nat k /\ (grow fuel m n = m \/ grow fuel m n < 2 * n).
Proof.
  induction fuel as [|fuel IH]; intros m n Hm.
  - exists 0%nat. simpl. destruct (m <? n); split; auto; lia.
  - cbn [grow]. destruct (Z.ltb_spec m n) as [Hlt|Hge].
    + destruct (IH (m * 2) n ltac:(lia)) as (k & Hk & Hmin).
      exists (S k). rewrite Nat2Z.inj_succ, Z.pow_succ_r by lia. split; [lia|].
      right. lia.
    + exists 0%nat. split; [simpl; lia|]. auto.
Qed.

(** X1. [reserve] changes nothing of a block but its capacity. The data
    and the offset are kept; the capacity afterwards holds [n] bytes and is
    never smaller than before; a block that is large enough is returned as
    it is; otherwise the new capacity is the old one (1024 for a block
    without capacity) doubled as often as it takes to reach [n], so that it
    stays below [2 * n] whenever it was doubled at all. *)
Theorem reserve_capacity :
  forall (b : block) (n : Z),
    wfBlock b ->
    data (reserve b n) = data b /\ off (reserve b n) = off b /\
    n <= cap (reserve b n) /\ cap b <= cap (reserve b n) /\
    (n <= cap b -> reserve b n = b) /\
    (cap b < n ->
     exists k : nat,
       cap (reserve b n) = (if cap b =? 0 then 1024 else cap b) * 2 ^ Z.of_nat k /\
       (cap (reserve b n) = (if cap b =? 0 then 1024 else cap b) \/
        cap (reserve b n) < 2 * n)).
Proof.
  intros b n Hwf. destruct (reserve_spec b n Hwf) as (Hd & Ho & Hn & Hc).
  repeat (split; [assumption|]). split.
  - intros H. unfold reserve. destruct (Z.leb_spec n (cap b)); [reflexivity|lia].
  - intros H. unfold reserve. destruct (Z.leb_spec n (cap b)); [lia|]. cbn [cap].
    apply grow_doubles. unfold wfBlock in Hwf. pose proof (len_nonneg (data b)).
    destruct (Z.eqb_spec (cap b) 0); lia.
Qed.

Lemma reserve_capacity_witness :
  wfBlock smallBlock /\
  70000 <= cap (reserve smallBlock 70000) /\
  exists k : nat, cap (reserve smallBlock 70000) = 4 * 2 ^ Z.of_nat k.
Proof.
  assert (W : wfBlock smallBlock) by (unfold wfBlock; vm_compute; discriminate).
  destruct (reserve_capacity smallBlock 70000 W) as (_ & _ & Hn & _ & _ & Hk).
  split; [exact W|]. split; [exact Hn|].
  destruct (Hk ltac:(vm_compute; reflexivity)) as (k & Ek & _). exists k. exact Ek.
Defined.

(** X2. [splitBlock b n] cuts the data of [b] at [n] and loses no byte: the
    first block holds the first [n] bytes (all of them when there are no
    more), the second block what follows, and there is no second block
    exactly when [b] holds at most [n] bytes. Both blocks are well formed
    and the second one starts at offset 0. *)
Theorem splitBlock_partition :
  forall (b : block) (n : Z),
    wfBlock b -> 0 <= n ->
    data (fst (splitBlock b n)) ++ pending (snd (splitBlock b n)) = data b /\
    len (data (fst (splitBlock b n))) = Z.min n (len (data b)) /\
    (snd (splitBlock b n) = None <-> len (data b) <= n) /\
    wfBlock (fst (splitBlock b n)) /\
    match snd (splitBlock b n) with
    | None => True
    | Some bb => wfBlock bb /\ off bb = 0
    end.
Proof.
  intros b n Hwf Hn. pose proof (len_nonneg (data b)) as Hl.
  destruct (Z.le_gt_cases (len (data b)) n) as [Hle|Hgt].
  - unfold splitBlock. destruct (Z.leb_spec (len (data b)) n); [|lia]. cbn [fst snd pending].
    rewrite app_nil_r. repeat split; auto; lia.
  - destruct (splitBlock_spec b n Hwf ltac:(lia)) as (H1 & H2).
    assert (Hoff : match snd (splitBlock b n) with
                   | None => True | Some bb => off bb = 0 end).
    { unfold splitBlock. destruct (Z.leb_spec (len (data b)) n); [exact I|].
      cbn [snd off]. unfold resize. cbn [off].
      destruct (cap newBlock <? len (data b) - n); [|reflexivity].
      assert (W : wfBlock newBlock) by (unfold wfBlock; vm_compute; discriminate).
      destruct (reserve_spec newBlock (len (data b) - n) W) as (_ & Ho & _). exact Ho. }
    assert (Hcap : cap (fst (splitBlock b n)) = cap b).
    { unfold splitBlock. destruct (Z.leb_spec (len (data b)) n); reflexivity. }
    destruct (snd (splitBlock b n)) as [bb|] eqn:E.
    + destruct H2 as (H2 & H3). cbn [pending]. rewrite H1, H2, take_drop.
      split; [reflexivity|]. split; [rewrite len_take; lia|].
      split; [split; [discriminate|lia]|].
      split; [|auto]. unfold wfBlock in *. rewrite H1, Hcap, len_take; lia.
    + exfalso. assert (Hd : len (drop n (data b)) = 0) by (rewrite H2; reflexivity).
      rewrite len_drop in Hd; lia.
Qed.

Lemma splitBlock_partition_witness :
  data (fst (splitBlock smallBlock 1)) ++ pending (snd (splitBlock smallBlock 1))
    = [x01; x02; x03] /\
  len (data (fst (splitBlock smallBlock 1))) = 1.
Proof.
  assert (W : wfBlock smallBlock) by (unfold wfBlock; vm_compute; discriminate).
  destruct (splitBlock_partition smallBlock 1 W ltac:(lia)) as (H1 & H2 & _).
  split; [exact H1|exact H2].
Defined.

(** X3. [readFromUntil] returns on every reader, given one pass more than
    the reader has chunks, and no byte is lost or reordered between the
    block and the reader. With [n] bytes in the block already, nothing is
    read; when the block and the reader hold [n] bytes together, the call
    succeeds with [n] bytes or more in the block; when they do not, it
    returns [io.EOF] with the reader drained. *)
Theorem readFromUntil_reads_enough :
  forall (fuel : nat) (r : Reader) (b : block) (n : Z),
    wfBlock b -> (length r < fuel)%nat ->
    exists e r' b',
      readFromUntil fuel r b n = Done (e, r', b') /\
      data b' ++ concat r' = data b ++ concat r /\
      wfBlock b' /\
      (n <= len (data b) -> e = None /\ r' = r /\ b' = b) /\
      (n <= len (data b ++ concat r) -> e = None /\ n <= len (data b')) /\
      (len (data b ++ concat r) < n -> e = Some io_EOF /\ r' = []).
Proof.
  intros fuel r b n Hwf Hf.
  destruct (readFromUntil_spec fuel r b n Hwf Hf) as (e & r' & b' & E & Hcat & Hwf' & Hl & Hc).
  exists e, r', b'. split; [exact E|]. split; [exact Hcat|]. split; [exact Hwf'|].
  split; [|split].
  - intros Hq. unfold readFromUntil in E.
    destruct (Z.leb_spec n (len (data b))); [|lia]. injection E as <- <- <-. auto.
  - intros Hq. destruct Hc as [Hc|(-> & Hc)]; [exact Hc|lia].
  - intros Hq. destruct Hc as [(-> & Hc)|(-> & Hc)].
    + exfalso. rewrite <- Hcat, len_app in Hq. pose proof (len_nonneg (concat r')). lia.
    + split; [reflexivity|].
      assert (Hlen : len (data b') + len (concat r') = len (data b) + len (concat r))
        by (rewrite <- !len_app, Hcat; reflexivity).
      (* the reader is drained: the loop stops on the error only *)
      clear Hl. unfold readFromUntil in E.
      destruct (Z.leb_spec n (len (data b))); [discriminate|].
      revert E. generalize (reserve b n). clear. revert r.
      induction fuel as [|fuel IH]; intros r b0 E; [discriminate|].
      cbn [readFromUntil_loop] in E. destruct r as [|c r]; cbn [Reader_Read] in E.
      * destruct (n <=? _); [discriminate|]. injection E as <- _. reflexivity.
      * destruct (len c <=? _).
        -- destruct (n <=? _); [discriminate|]. exact (IH _ _ E).
        -- destruct (n <=? _); [discriminate|]. exact (IH _ _ E).
Qed.

Lemma readFromUntil_reads_enough_witness :
  exists e r' b',
    readFromUntil 3 [[x16; x03]; [x01; x00; x05; x07]] newBlock 5 = Done (e, r', b') /\
    data b' ++ concat r' = [x16; x03; x01; x00; x05; x07] /\
    e = None /\ 5 <= len (data b').
Proof.
  assert (W : wfBlock newBlock) by (unfold wfBlock; vm_compute; discriminate).
  destruct (readFromUntil_reads_enough 3 [[x16; x03]; [x01; x00; x05; x07]] newBlock 5 W
              ltac:(simpl; lia)) as (e & r' & b' & E & Hcat & _ & _ & Hok & _).
  exists e, r', b'. split; [exact E|]. split; [exact Hcat|].
  apply Hok. vm_compute. discriminate.
Defined.

(** X4. [block.Read] copies into [p] the bytes of the block from its offset
    on, as many as fit, and leaves the rest of [p] alone; it advances the
    offset by the count it returns, so that consecutive calls deliver the
    data in order, never reports an error and keeps the offset within the
    data. *)
Theorem block_Read_in_order :
  forall (b : block) (p : list byte),
    0 <= off b <= len (data b) ->
    exists n p' b',
      block_Read b p = Done ((n, None, p'), b') /\
      n = Z.min (len p) (len (data b) - off b) /\
      take n p' = slice (data b) (off b) (off b + n) /\
      drop n p' = drop n p /\
      data b' = data b /\ off b' = off b + n /\
      0 <= off b' <= len (data b').
Proof.
  intros b p Hoff. unfold block_Read.
  destruct (Z.ltb_spec (off b) 0); [lia|].
  destruct (Z.ltb_spec (len (data b)) (off b)); [lia|]. cbn [orb].
  pose proof (len_nonneg p) as Hp.
  assert (Hsrc : len (drop (off b) (data b)) = len (data b) - off b) by (apply len_drop; lia).
  rewrite Hsrc. set (n := Z.min (len p) (len (data b) - off b)).
  assert (Hn : 0 <= n <= len (data b) - off b) by (subst n; lia).
  assert (Hnp : n <= len p) by (subst n; lia).
  assert (Hlt : len (take n (drop (off b) (data b))) = n) by (apply len_take; lia).
  eexists _, _, _. split; [reflexivity|]. cbn [data off].
  split; [reflexivity|]. split; [|split; [|split; [reflexivity|split; [reflexivity|lia]]]].
  - rewrite take_app_l by lia. rewrite take_all by lia.
    unfold slice. f_equal. lia.
  - rewrite drop_app_r by lia. rewrite Hlt, Z.sub_diag. reflexivity.
Qed.

Lemma block_Read_in_order_witness :
  exists n p' b',
    block_Read (mkBlock [x01; x02; x03] 4 1) [x00; x00; x00; x00] = Done ((n, None, p'), b') /\
    n = 2 /\ off b' = 3.
Proof.
  destruct (block_Read_in_order (mkBlock [x01; x02; x03] 4 1) [x00; x00; x00; x00]
              ltac:(vm_compute; split; discriminate))
    as (n & p' & b' & E & Hn & _ & _ & _ & Ho & _).
  exists n, p', b'. split; [exact E|]. split; [exact Hn|]. rewrite Ho, Hn. reflexivity.
Defined.

(** ** Records *)

(** X5. A stream that ends within a record header, or within the payload
    that the header of a handshake record announces, makes [readRecord]
    return [io.EOF]; the handshake buffer is left as it was. *)
Theorem readRecord_truncated :
  forall (fuel : nat) (st : rstate),
    wfState st -> (length (rd st) < fuel)%nat ->
    len (stream st) < 5 \/
    (at_ (stream st) 0 = recordTypeHandshake /\
     be16 (at_ (stream st) 1) (at_ (stream st) 2) < 4096 /\
     len (stream st) < 5 + be16 (at_ (stream st) 3) (at_ (stream st) 4)) ->
    exists st', readRecord fuel st = Done (Some io_EOF, st') /\ hand st' = hand st.
Proof.
  intros fuel st Hwf Hf Hcase.
  destruct (readRecord_spec fuel st Hwf Hf) as (e & st' & E & _ & _ & R).
  exists st'. unfold recordOf in R.
  destruct Hcase as [Hshort|(Ht & Hv & Hn)].
  - destruct (Z.ltb_spec (len (stream st)) 5); [|lia]. destruct R as (-> & Hh). auto.
  - destruct (Z.ltb_spec (len (stream st)) 5).
    { destruct R as (-> & Hh). auto. }
    rewrite Ht in R. unfold recordTypeHandshake in R.
    change (22 =? 128) with false in R. change (negb (22 =? 22)) with false in R.
    cbv iota in R. rewrite orb_false_l in R.
    destruct (Z.leb_spec 4096 (be16 (at_ (stream st) 1) (at_ (stream st) 2))); [lia|].
    destruct (Z.ltb_spec (len (stream st))
                (5 + be16 (at_ (stream st) 3) (at_ (stream st) 4))); [|lia].
    destruct R as (-> & Hh). auto.
Qed.

Lemma readRecord_truncated_witness :
  exists st',
    readRecord 4 (mkRState (bytes_NewReader (bytesOf [22; 3; 1; 0; 9; 1; 2])) None [])
      = Done (Some io_EOF, st') /\
    hand st' = [].
Proof.
  apply (readRecord_truncated 4
           (mkRState (bytes_NewReader (bytesOf [22; 3; 1; 0; 9; 1; 2])) None [])).
  - exact I.
  - simpl. lia.
  - right. split; [vm_compute; reflexivity|]. split; vm_compute; reflexivity.
Defined.

(** X6. With five bytes at hand of which the first is not 0x80,
    [readRecord] answers "not a tls packet" when that byte is not the
    handshake type 22 or when the two version bytes read 0x1000 or more;
    the handshake buffer is left as it was. *)
Theorem readRecord_not_tls :
  forall (fuel : nat) (st : rstate),
    wfState st -> (length (rd st) < fuel)%nat ->
    5 <= len (stream st) ->
    at_ (stream st) 0 <> 128 ->
    at_ (stream st) 0 <> recordTypeHandshake \/
    4096 <= be16 (at_ (stream st) 1) (at_ (stream st) 2) ->
    exists st', readRecord fuel st = Done (Some errNotTLS, st') /\ hand st' = hand st.
Proof.
  intros fuel st Hwf Hf H5 H80 Hcase.
  destruct (readRecord_spec fuel st Hwf Hf) as (e & st' & E & _ & _ & R).
  exists st'. unfold recordOf in R.
  destruct (Z.ltb_spec (len (stream st)) 5); [lia|].
  destruct (Z.eqb_spec (at_ (stream st) 0) 128); [contradiction|].
  assert (Hor : negb (at_ (stream st) 0 =? recordTypeHandshake)
                || (4096 <=? be16 (at_ (stream st) 1) (at_ (stream st) 2)) = true).
  { apply orb_true_iff. destruct Hcase as [Ht|Hv].
    - left. apply negb_true_iff. apply Z.eqb_neq. exact Ht.
    - right. apply Z.leb_le. exact Hv. }
  rewrite Hor in R. destruct R as (-> & Hh). auto.
Qed.

Lemma readRecord_not_tls_witness :
  exists st',
    readRecord 4 (mkRState (bytes_NewReader (bytesOf [104; 101; 108; 108; 111; 32; 119])) None [])
      = Done (Some errNotTLS, st') /\
    hand st' = [].
Proof.
  apply (readRecord_not_tls 4
           (mkRState (bytes_NewReader (bytesOf [104; 101; 108; 108; 111; 32; 119])) None [])).
  - exact I.
  - simpl. lia.
  - vm_compute. discriminate.
  - vm_compute. discriminate.
  - left. vm_compute. discriminate.
Defined.

(** X7. [readRecord] takes exactly one record off the stream: its payload
    is appended to the handshake buffer, and the bytes after the record,
    whether they were read into the block already or are still in the
    reader, are what the next call sees. *)
Theorem readRecord_takes_one_record :
  forall (fuel : nat) (st : rstate) (vh vl : byte) (p rest : list byte),
    wfState st -> (length (rd st) < fuel)%nat ->
    b2z vh < 16 -> len p <= 65535 ->
    stream st = handshakeRecord vh vl p ++ rest ->
    exists st',
      readRecord fuel st = Done (None, st') /\
      hand st' = hand st ++ p /\ stream st' = rest /\
      wfState st' /\ (length (rd st') <= length (rd st))%nat.
Proof.
  intros fuel st vh vl p rest Hwf Hf Hv Hp Hs.
  destruct (readRecord_spec fuel st Hwf Hf) as (e & st' & E & W & L & R).
  rewrite Hs, recordOf_handshakeRecord in R by assumption.
  destruct R as (-> & Hh & Hr). exists st'. auto.
Qed.

Lemma readRecord_takes_one_record_witness :
  exists st',
    readRecord 4 (mkRState [handshakeRecord x03 x01 [x01; x02] ++ [x16]; [x03; x03]] None [x09])
      = Done (None, st') /\
    hand st' = [x09; x01; x02] /\ stream st' = [x16; x03; x03].
Proof.
  destruct (readRecord_takes_one_record 4
              (mkRState [handshakeRecord x03 x01 [x01; x02] ++ [x16]; [x03; x03]] None [x09])
              x03 x01 [x01; x02] [x16; x03; x03] I ltac:(simpl; lia)
              ltac:(vm_compute; reflexivity) ltac:(vm_compute; discriminate) eq_refl)
    as (st' & E & Hh & Hr & _).
  exists st'. auto.
Defined.

(** ** The fields before the extensions *)

Lemma sameFixedFields_refl m : sameFixedFields m m.
Proof. unfold sameFixedFields. auto 10. Qed.

Lemma sameFixedFields_trans m1 m2 m3 :
  sameFixedFields m1 m2 -> sameFixedFields m2 m3 -> sameFixedFields m1 m3.
Proof. unfold sameFixedFields. intuition congruence. Qed.

Lemma extensionCase_fixed m extension l d m' :
  extensionCase m extension l d = Some m' -> sameFixedFields m m'.
Proof.
  unfold extensionCase.
  repeat match goal with
         | |- context [if ?c then _ else _] => destruct c
         | |- context [match ?x with Some _ => _ | None => _ end] => destruct x
         end;
    try discriminate; intros [= <-]; unfold sameFixedFields; simpl; auto 10.
Qed.

Lemma extensionsLoop_fixed fuel : forall m data m',
  extensionsLoop fuel m data = Some m' -> sameFixedFields m m'.
Proof.
  induction fuel as [|fuel IH]; intros m data m'; cbn [extensionsLoop].
  - destruct (len data =? 0); [|discriminate]. intros [= <-]. apply sameFixedFields_refl.
  - destruct (len data =? 0); [intros [= <-]; apply sameFixedFields_refl|].
    destruct (len data <? 4); [discriminate|].
    destruct (len (drop 4 data) <? _); [discriminate|].
    destruct (extensionCase m _ _ (drop 4 data)) as [m1|] eqn:E; [|discriminate].
    intros H. apply extensionCase_fixed in E. apply IH in H.
    exact (sameFixedFields_trans _ _ _ E H).
Qed.


(** [unmarshal] keeps the whole input in [Raw]. *)
Lemma unmarshal_Raw m data m' : unmarshal m data = Some m' -> Raw m' = data.
Proof.
  unfold unmarshal. cbv zeta.
  destruct (len data <? 42); [discriminate|].
  destruct ((32 <? at_ data 38) || _); [discriminate|].
  destruct (len (drop _ data) <? 2); [discriminate|].
  destruct ((Z.rem _ 2 =? 1) || _); [discriminate|].
  destruct (len (drop _ (drop _ data)) <? 1); [discriminate|].
  destruct (len (drop _ (drop _ data)) <? 1 + _); [discriminate|].
  destruct (len (drop _ (drop _ (drop _ data))) =? 0).
  - intros [= <-]. reflexivity.
  - destruct (len _ <? 2); [discriminate|]. destruct (negb _); [discriminate|].
    intros Hres. apply extensionsLoop_fixed in Hres. destruct Hres as (F1 & _). exact F1.
Qed.



(** ** What ReadClientHello returns *)

Lemma handshakeLen_nonneg data : 0 <= handshakeLen data.
Proof.
  unfold handshakeLen.
  pose proof (at_range data 1). pose proof (at_range data 2). pose proof (at_range data 3).
  apply Z.lor_nonneg. split; [|lia].
  apply Z.lor_nonneg. split; apply Z.shiftl_nonneg; lia.
Qed.

Lemma handshakeLen_app s t : 4 <= len s -> handshakeLen (s ++ t) = handshakeLen s.
Proof.
  intros H. unfold handshakeLen. rewrite !at_app_l by lia. reflexivity.
Qed.

Lemma readRecord_hand_prefix fuel st e st' :
  readRecord fuel st = Done (e, st') -> exists p, hand st' = hand st ++ p.
Proof.
  unfold readRecord.
  destruct (readFromUntil fuel (rd st) _ recordHeaderLen) as [[[[e1|] r1] b1]| |];
    try discriminate.
  - intros [= _ <-]. exists []. simpl. rewrite app_nil_r. reflexivity.
  - destruct (at_ (data b1) 0 =? 128).
    { intros [= _ <-]. exists []. simpl. rewrite app_nil_r. reflexivity. }
    destruct (negb _ || _).
    { intros [= _ <-]. exists []. simpl. rewrite app_nil_r. reflexivity. }
    destruct (readFromUntil fuel r1 b1 _) as [[[[e2|] r2] b2]| |]; try discriminate.
    + intros [= _ <-]. exists []. simpl. rewrite app_nil_r. reflexivity.
    + destruct (splitBlock b2 _) as [b3 nb]. intros [= _ <-]. eexists. reflexivity.
Qed.

Lemma readRest_post fuel : forall n st st',
  readRest fuel n st = Done (None, st') ->
  4 + n <= len (hand st') /\ exists p, hand st' = hand st ++ p.
Proof.
  induction fuel as [|fuel IH]; intros n st st'; cbn [readRest].
  - destruct (Z.ltb_spec (len (hand st)) (4 + n)); [discriminate|].
    intros [= <-]. split; [lia|]. exists []. rewrite app_nil_r. reflexivity.
  - destruct (Z.ltb_spec (len (hand st)) (4 + n)) as [Hlt|Hge].
    + destruct (readRecord (S fuel) st) as [[[e|] s1]| |] eqn:E; try discriminate.
      intros H. apply IH in H. destruct H as (H1 & p2 & H2).
      apply readRecord_hand_prefix in E. destruct E as (p1 & E).
      split; [exact H1|]. exists (p1 ++ p2). rewrite H2, E, app_assoc. reflexivity.
    + intros [= <-]. split; [lia|]. exists []. rewrite app_nil_r. reflexivity.
Qed.

(** X9. A message returned by [ReadClientHello] holds in [Raw] one complete
    handshake message: its type is ClientHello, its length is the one that
    its bytes 1 to 3 announce plus the four header bytes, it has 42 bytes at
    least, and the message returned is what [unmarshal] makes of [Raw]. *)
Theorem ReadClientHello_result_shape :
  forall (fuel : nat) (r : Reader) (msg : ClientHelloMsg),
    ReadClientHello fuel r = Done (inl msg) ->
    at_ (Raw msg) 0 = typeClientHello /\
    len (Raw msg) = 4 + handshakeLen (Raw msg) /\
    42 <= len (Raw msg) /\
    unmarshal zeroMsg (Raw msg) = Some msg.
Proof.
  intros fuel r msg. rewrite ReadClientHello_unfold.
  destruct (readRecord fuel (mkRState r None [])) as [[[e|] st]| |]; try discriminate.
  destruct (Z.ltb_spec (len (hand st)) 4) as [|H4]; [discriminate|].
  set (n := handshakeLen (hand st)).
  destruct (readRest fuel n st) as [[[e|] st']| |] eqn:E; try discriminate.
  apply readRest_post in E. destruct E as (Hn & p & Hp).
  unfold decodeHand.
  destruct (Z.eqb_spec (at_ (take (4 + n) (hand st')) 0) typeClientHello) as [Ht|];
    [|discriminate].
  cbn [negb].
  destruct (unmarshal zeroMsg (take (4 + n) (hand st'))) as [m'|] eqn:Eu; [|discriminate].
  intros [= <-].
  pose proof (handshakeLen_nonneg (hand st)) as Hn0. fold n in Hn0.
  pose proof (unmarshal_Raw _ _ _ Eu) as HRaw.
  pose proof (unmarshal_inv _ _ _ Eu) as (H42 & _).
  rewrite HRaw.
  assert (Hlen : len (take (4 + n) (hand st')) = 4 + n) by (apply len_take; lia).
  split; [exact Ht|]. split; [|split; [exact H42|exact Eu]].
  rewrite Hlen. f_equal. unfold handshakeLen. rewrite !at_take by lia.
  fold (handshakeLen (hand st')). rewrite Hp. rewrite handshakeLen_app by lia. reflexivity.
Qed.

Lemma ReadClientHello_result_shape_witness :
  exists msg,
    ReadClientHello 80 (bytes_NewReader helloPacket) = Done (inl msg) /\
    len (Raw msg) = 4 + handshakeLen (Raw msg).
Proof.
  destruct (ReadClientHello 80 (bytes_NewReader helloPacket)) as [[msg|e]| |] eqn:E;
    try (vm_compute in E; discriminate).
  destruct (ReadClientHello_result_shape 80 (bytes_NewReader helloPacket) msg E)
    as (_ & H & _).
  exists msg. auto.
Defined.

(** X10. [ReadClientHello] returns on every reader, and what it returns
    depends on the bytes of the reader only, not on the chunks in which the
    [Read] calls deliver them. *)
Theorem ReadClientHello_ignores_chunking :
  forall (fuel1 fuel2 : nat) (r1 r2 : Reader),
    concat r1 = concat r2 ->
    (readFuel r1 <= fuel1)%nat -> (readFuel r2 <= fuel2)%nat ->
    ReadClientHello fuel1 r1 = ReadClientHello fuel2 r2 /\
    exists res, ReadClientHello fuel1 r1 = Done res.
Proof.
  intros fuel1 fuel2 r1 r2 Hc H1 H2.
  destruct (ReadClientHello_stream fuel1 fuel2 r1 r2 Hc H1 H2) as (res & E1 & E2).
  split; [congruence|eauto].
Qed.

Lemma ReadClientHello_ignores_chunking_witness :
  ReadClientHello 80 (bytes_NewReader helloPacket)
    = ReadClientHello 200 (map (fun b => [b]) helloPacket).
Proof.
  apply (ReadClientHello_ignores_chunking 80 200 (bytes_NewReader helloPacket)
           (map (fun b => [b]) helloPacket)).
  - vm_compute. reflexivity.
  - apply Nat.leb_le. vm_compute. reflexivity.
  - apply Nat.leb_le. vm_compute. reflexivity.
Defined.

(** X11. A first record that carries fewer than four bytes of handshake
    data, and a complete handshake message whose type is not ClientHello,
    are both answered with "not a tls packet". *)
Theorem ReadClientHello_bad_handshake_header :
  forall (fuel : nat) (r : Reader) (vh vl : byte) (data tail : list byte),
    (readFuel r <= fuel)%nat ->
    b2z vh < 16 -> len data <= 65535 ->
    concat r = handshakeRecord vh vl data ++ tail ->
    len data < 4 \/
    (4 + handshakeLen data <= len data /\ at_ data 0 <> typeClientHello) ->
    ReadClientHello fuel r = Done (inr errNotTLS).
Proof.
  intros fuel r vh vl data tail Hf Hv Hl Hc Hcase. unfold readFuel in Hf.
  rewrite ReadClientHello_unfold.
  destruct (initial_state r) as (W & S).
  destruct (readRecord_spec fuel _ W ltac:(simpl; lia)) as (e & s1 & E & W' & L & R).
  rewrite E. rewrite S, Hc, recordOf_handshakeRecord in R by lia.
  destruct R as (-> & H1 & T1). cbn [hand app] in H1. rewrite H1.
  destruct Hcase as [Hshort|(Hn & Ht)].
  - destruct (Z.ltb_spec (len data) 4); [reflexivity|lia].
  - pose proof (handshakeLen_nonneg data) as Hn0.
    destruct (Z.ltb_spec (len data) 4); [reflexivity|].
    rewrite readRest_done by (rewrite H1; lia).
    unfold decodeHand. rewrite H1. rewrite at_take by lia.
    destruct (Z.eqb_spec (at_ data 0) typeClientHello); [contradiction|]. reflexivity.
Qed.

Lemma ReadClientHello_bad_handshake_header_witness :
  ReadClientHello 20 (bytes_NewReader (handshakeRecord x03 x01 (bytesOf [2; 0; 0; 1; 9])))
    = Done (inr errNotTLS).
Proof.
  apply (ReadClientHello_bad_handshake_header 20 _ x03 x01 (bytesOf [2; 0; 0; 1; 9]) []).
  - apply Nat.leb_le. vm_compute. reflexivity.
  - vm_compute. reflexivity.
  - vm_compute. discriminate.
  - vm_compute. reflexivity.
  - right. split; vm_compute; discriminate.
Defined.

(** ** Encoded extensions *)

Lemma len_cons {A} (x : A) (s : list A) : len (x :: s) = 1 + len s.
Proof. unfold len. simpl length. lia. Qed.

Lemma len_u16 n : len (u16 n) = 2.
Proof. reflexivity. Qed.

Lemma drop_exact {A} (s t : list A) : drop (len s) (s ++ t) = t.
Proof.
  rewrite drop_app_r by lia. rewrite Z.sub_diag. reflexivity.
Qed.

Lemma take_exact {A} (s t : list A) : take (len s) (s ++ t) = s.
Proof.
  rewrite take_app_l by lia. apply take_all. lia.
Qed.

Lemma extensionsLoop_step fuel m t body rest :
  0 <= t < 65536 -> len body < 65536 ->
  extensionsLoop (S fuel) m (u16 t ++ u16 (len body) ++ body ++ rest) =
    match extensionCase m t (len body) (body ++ rest) with
    | None => None
    | Some m' => extensionsLoop fuel m' rest
    end.
Proof.
  intros Ht Hb. pose proof (len_nonneg body) as Hb0. pose proof (len_nonneg rest) as Hr0.
  set (d := u16 t ++ u16 (len body) ++ body ++ rest).
  assert (Hd : len d = 4 + len body + len rest).
  { subst d. rewrite !len_app, !len_u16. lia. }
  cbn [extensionsLoop].
  destruct (Z.eqb_spec (len d) 0); [lia|].
  destruct (Z.ltb_spec (len d) 4); [lia|].
  assert (E0 : be16 (at_ d 0) (at_ d 1) = t) by (subst d; apply be16_u16; lia).
  assert (E1 : be16 (at_ d 2) (at_ d 3) = len body).
  { subst d.
    change (be16 (at_ (u16 (len body) ++ body ++ rest) 0)
                 (at_ (u16 (len body) ++ body ++ rest) 1) = len body).
    apply be16_u16. lia. }
  assert (E2 : drop 4 d = body ++ rest) by reflexivity.
  rewrite E0, E1, E2. rewrite len_app.
  destruct (Z.ltb_spec (len body + len rest) (len body)); [lia|].
  destruct (extensionCase m t (len body) (body ++ rest)); [|reflexivity].
  rewrite drop_exact. reflexivity.
Qed.

Lemma scanServerNames_first entries : forall k rest,
  Forall (fun x => len (snd x) < 65536) entries ->
  scanServerNames (length entries + k) (encodeNames entries ++ rest) =
    match firstHostName entries with
    | Some name => Some (Some name)
    | None => scanServerNames k rest
    end.
Proof.
  induction entries as [|[t name] entries IH]; intros k rest Hall; [reflexivity|].
  inversion Hall as [|? ? Hn Hall']; subst. cbn [snd] in Hn.
  unfold encodeNames. cbn [map concat length Nat.add firstHostName]. rewrite <- app_assoc.
  rewrite scanServerNames_entry by assumption.
  destruct (b2z t =? 0); [reflexivity|]. apply IH. assumption.
Qed.

Lemma readCurves_encoded curves : forall rest,
  Forall (fun c => 0 <= c < 65536) curves ->
  readCurves (length curves) (concat (map u16 curves) ++ rest) = curves.
Proof.
  induction curves as [|c curves IH]; intros rest Hall; [reflexivity|].
  inversion Hall as [|? ? Hc Hall']; subst.
  cbn [map concat length readCurves]. rewrite <- app_assoc.
  rewrite be16_u16 by lia. f_equal.
  change (drop 2 (u16 c ++ concat (map u16 curves) ++ rest))
    with (concat (map u16 curves) ++ rest).
  apply IH. assumption.
Qed.

Lemma len_encoded_u16s (l : list Z) : len (concat (map u16 l)) = 2 * len l.
Proof.
  induction l as [|x l IH]; [reflexivity|].
  cbn [map concat]. rewrite len_app, len_u16, IH, len_cons. lia.
Qed.

Lemma extensionCase_encoded m e rest :
  wfExtension e ->
  extensionCase m (extensionType e) (len (extensionBody e)) (extensionBody e ++ rest)
    = Some (applyExtension m e).
Proof.
  intros (Hlen & Hwf). unfold extensionCase.
  destruct e as [entries|st request|curves|points|ticket| |typ body];
    cbn [extensionType extensionBody applyExtension] in *.
  - change (extensionServerName =? extensionServerName) with true. cbv iota.
    destruct Hwf as (Hcount & Hnames). pose proof (len_nonneg entries) as H0.
    pose proof (len_nonneg (encodeNames entries)) as H1.
    rewrite len_app, len_u16. destruct (Z.ltb_spec (2 + len (encodeNames entries)) 2); [lia|].
    rewrite <- app_assoc. rewrite be16_u16 by lia.
    change (drop 2 (u16 (len entries) ++ encodeNames entries ++ rest))
      with (encodeNames entries ++ rest).
    unfold len at 1. rewrite Nat2Z.id. rewrite <- (Nat.add_0_r (length entries)).
    rewrite scanServerNames_first by assumption.
    destruct (firstHostName entries); reflexivity.
  - change (extensionStatusRequest =? extensionServerName) with false.
    change (extensionStatusRequest =? extensionNextProtoNeg) with false.
    change (extensionStatusRequest =? extensionStatusRequest) with true. cbv iota.
    rewrite len_cons. pose proof (len_nonneg request).
    destruct (Z.ltb_spec (1 + len request) 1); [lia|].
    change (at_ ((st :: request) ++ rest) 0) with (b2z st).
    destruct (b2z st =? statusTypeOCSP); reflexivity.
  - change (extensionSupportedCurves =? extensionServerName) with false.
    change (extensionSupportedCurves =? extensionNextProtoNeg) with false.
    change (extensionSupportedCurves =? extensionStatusRequest) with false.
    change (extensionSupportedCurves =? extensionSupportedCurves) with true. cbv iota.
    pose proof (len_nonneg curves) as H0.
    rewrite len_app, len_u16, len_encoded_u16s in *.
    destruct (Z.ltb_spec (2 + 2 * len curves) 2); [lia|].
    rewrite <- app_assoc. rewrite be16_u16 by lia.
    replace (Z.rem (2 * len curves) 2) with 0
      by (rewrite Z.mul_comm, Z.rem_mul; lia).
    change (0 =? 0) with true. cbn [negb orb].
    destruct (Z.eqb_spec (2 + 2 * len curves) (2 * len curves + 2)); [|lia]. cbn [negb].
    replace (Z.quot (2 * len curves) 2) with (len curves)
      by (rewrite Z.mul_comm, Z.quot_mul; lia).
    change (drop 2 (u16 (2 * len curves) ++ concat (map u16 curves) ++ rest))
      with (concat (map u16 curves) ++ rest).
    unfold len at 1. rewrite Nat2Z.id. rewrite readCurves_encoded by assumption. reflexivity.
  - change (extensionSupportedPoints =? extensionServerName) with false.
    change (extensionSupportedPoints =? extensionNextProtoNeg) with false.
    change (extensionSupportedPoints =? extensionStatusRequest) with false.
    change (extensionSupportedPoints =? extensionSupportedCurves) with false.
    change (extensionSupportedPoints =? extensionSupportedPoints) with true. cbv iota.
    pose proof (len_nonneg points) as H0. rewrite len_cons.
    destruct (Z.ltb_spec (1 + len points) 1); [lia|].
    change (at_ ((byteOf (len points) :: points) ++ rest) 0) with (b2z (byteOf (len points))).
    rewrite b2z_byteOf by lia.
    destruct (Z.eqb_spec (1 + len points) (len points + 1)); [|lia]. cbn [negb].
    change (drop 1 ((byteOf (len points) :: points) ++ rest)) with (points ++ rest).
    rewrite take_exact. reflexivity.
  - change (extensionSessionTicket =? extensionServerName) with false.
    change (extensionSessionTicket =? extensionNextProtoNeg) with false.
    change (extensionSessionTicket =? extensionStatusRequest) with false.
    change (extensionSessionTicket =? extensionSupportedCurves) with false.
    change (extensionSessionTicket =? extensionSupportedPoints) with false.
    change (extensionSessionTicket =? extensionSessionTicket) with true. cbv iota.
    unfold slice. rewrite Z.sub_0_r. change (drop 0 (ticket ++ rest)) with (ticket ++ rest).
    rewrite take_exact. reflexivity.
  - reflexivity.
  - destruct Hwf as (_ & Hk). unfold knownExtensionType in Hk.
    repeat (apply orb_false_iff in Hk; destruct Hk as [Hk ?]).
    repeat match goal with H : (_ =? _) = false |- _ => rewrite H; clear H end.
    reflexivity.
Qed.

Lemma extensionType_range e : wfExtension e -> 0 <= extensionType e < 65536.
Proof.
  intros (_ & Hwf). destruct e; cbn [extensionType];
    try (vm_compute; split; [discriminate|reflexivity]).
  tauto.
Qed.

(** The loop over the extensions reads an encoded list of them and goes on
    with what follows. *)
Lemma extensionsLoop_encoded exts : forall fuel m rest,
  Forall wfExtension exts ->
  (length (encodeExtensions exts ++ rest) <= fuel)%nat ->
  extensionsLoop fuel m (encodeExtensions exts ++ rest) =
    extensionsLoop fuel (fold_left applyExtension exts m) rest.
Proof.
  induction exts as [|e exts IH]; intros fuel m rest Hall Hf; [reflexivity|].
  inversion Hall as [|? ? He Hall']; subst.
  unfold encodeExtensions in *. cbn [map concat fold_left] in *.
  unfold encodeExtension at 1 in Hf. unfold encodeExtension at 1.
  rewrite <- !app_assoc in *.
  destruct fuel as [|fuel]; [rewrite !length_app in Hf; simpl in Hf; lia|].
  rewrite extensionsLoop_step by (try apply extensionType_range; try apply He; assumption).
  rewrite extensionCase_encoded by assumption.
  rewrite (IH fuel) by (try assumption; rewrite !length_app in *; simpl in Hf; lia).
  apply extensionsLoop_fuel; rewrite !length_app in *; simpl in Hf; lia.
Qed.

(** X12. The extension loop of [unmarshal] reads every list of well-formed
    extensions, one after the other: server_name sets [ServerName] to the
    first entry of type host_name, status_request of type OCSP sets
    [OcspStapling], supported_curves and supported_points give back the
    curves and the point formats that were encoded, a session ticket is
    stored with [TicketSupported], next_protocol_negotiation sets
    [NextProtoNeg], and an extension of any other type is skipped. *)
Theorem extensions_round_trip :
  forall (exts : list extension) (fuel : nat) (m : ClientHelloMsg),
    Forall wfExtension exts ->
    (length (encodeExtensions exts) <= fuel)%nat ->
    extensionsLoop fuel m (encodeExtensions exts) = Some (fold_left applyExtension exts m).
Proof.
  intros exts fuel m Hall Hf.
  rewrite <- (app_nil_r (encodeExtensions exts)).
  rewrite extensionsLoop_encoded by (try assumption; rewrite app_nil_r; assumption).
  destruct fuel; reflexivity.
Qed.

Lemma exampleExtensions_wf : Forall wfExtension exampleExtensions.
Proof.
  unfold exampleExtensions.
  repeat (constructor; [split; [vm_compute; reflexivity|]|]); try exact I.
  - split; [split; [discriminate|reflexivity]|reflexivity].
  - split; [vm_compute; reflexivity|].
    repeat (constructor; [vm_compute; reflexivity|]). constructor.
  - repeat (constructor; [split; [discriminate|reflexivity]|]). constructor.
  - constructor.
Qed.

Lemma extensions_round_trip_witness :
  exists m',
    extensionsLoop 64 zeroMsg (encodeExtensions exampleExtensions) = Some m' /\
    ServerName m' = bytesOf [97; 46; 98] /\ SupportedCurves m' = [29; 23] /\
    OcspStapling m' = true /\ SessionTicket m' = bytesOf [7; 7].
Proof.
  exists (fold_left applyExtension exampleExtensions zeroMsg).
  split; [|vm_compute; auto].
  apply (extensions_round_trip exampleExtensions 64 zeroMsg exampleExtensions_wf).
  apply Nat.leb_le. vm_compute. reflexivity.
Defined.

(** X13. One to three bytes after the last extension, or an extension
    header that announces more bytes than are left, make the extension loop
    fail, whatever well-formed extensions come before. *)
Theorem extensions_trailing_bytes_rejected :
  forall (exts : list extension) (junk : list byte) (fuel : nat) (m : ClientHelloMsg),
    Forall wfExtension exts ->
    (length (encodeExtensions exts ++ junk) <= fuel)%nat ->
    0 < len junk < 4 \/
    (4 <= len junk /\ len junk - 4 < be16 (at_ junk 2) (at_ junk 3)) ->
    extensionsLoop fuel m (encodeExtensions exts ++ junk) = None.
Proof.
  intros exts junk fuel m Hall Hf Hjunk.
  rewrite extensionsLoop_encoded by assumption.
  destruct fuel as [|fuel].
  { rewrite length_app in Hf. unfold len in Hjunk. lia. }
  cbn [extensionsLoop]. destruct (Z.eqb_spec (len junk) 0); [lia|].
  destruct Hjunk as [Hshort|(H4 & Hlong)].
  - destruct (Z.ltb_spec (len junk) 4); [reflexivity|lia].
  - destruct (Z.ltb_spec (len junk) 4); [reflexivity|].
    rewrite len_drop by lia.
    destruct (Z.ltb_spec (len junk - 4) (be16 (at_ junk 2) (at_ junk 3))); [reflexivity|lia].
Qed.

Lemma extensions_trailing_bytes_rejected_witness :
  extensionsLoop 64 zeroMsg (encodeExtensions exampleExtensions ++ bytesOf [0; 11; 0]) = None.
Proof.
  apply (extensions_trailing_bytes_rejected exampleExtensions (bytesOf [0; 11; 0]) 64 zeroMsg
           exampleExtensions_wf).
  - apply Nat.leb_le. vm_compute. reflexivity.
  - left. split; vm_compute; reflexivity.
Defined.

(** ** Extensions that are refused *)

Lemma extensionCase_malformed m t body rest :
  malformedExtension t body -> extensionCase m t (len body) (body ++ rest) = None.
Proof.
  unfold malformedExtension, extensionCase.
  intros [(-> & H)|[(-> & H)|[(-> & H)|[(-> & H)|(-> & H)]]]].
  - change (extensionServerName =? extensionServerName) with true. cbv iota.
    destruct (Z.ltb_spec (len body) 2); [reflexivity|lia].
  - change (extensionNextProtoNeg =? extensionServerName) with false.
    change (extensionNextProtoNeg =? extensionNextProtoNeg) with true. cbv iota.
    destruct (Z.ltb_spec 0 (len body)); [reflexivity|lia].
  - change (extensionStatusRequest =? extensionServerName) with false.
    change (extensionStatusRequest =? extensionNextProtoNeg) with false.
    change (extensionStatusRequest =? extensionStatusRequest) with true. cbv iota.
    destruct (Z.ltb_spec (len body) 1); [reflexivity|lia].
  - change (extensionSupportedCurves =? extensionServerName) with false.
    change (extensionSupportedCurves =? extensionNextProtoNeg) with false.
    change (extensionSupportedCurves =? extensionStatusRequest) with false.
    change (extensionSupportedCurves =? extensionSupportedCurves) with true. cbv iota.
    destruct (Z.ltb_spec (len body) 2) as [|H2]; [reflexivity|].
    rewrite !at_app_l by lia.
    pose proof (be16_range body 0 1) as Hr.
    set (l := be16 (at_ body 0) (at_ body 1)) in *.
    destruct H as [H|[H|H]]; [lia| |].
    + rewrite (odd_rem_1 l) by (lia || assumption). reflexivity.
    + destruct (Z.eqb_spec (len body) (l + 2)); [contradiction|].
      cbn [negb]. rewrite orb_true_r. reflexivity.
  - change (extensionSupportedPoints =? extensionServerName) with false.
    change (extensionSupportedPoints =? extensionNextProtoNeg) with false.
    change (extensionSupportedPoints =? extensionStatusRequest) with false.
    change (extensionSupportedPoints =? extensionSupportedCurves) with false.
    change (extensionSupportedPoints =? extensionSupportedPoints) with true. cbv iota.
    destruct (Z.ltb_spec (len body) 1) as [|H1]; [reflexivity|].
    rewrite at_app_l by lia.
    destruct H as [H|H]; [lia|].
    destruct (Z.eqb_spec (len body) (at_ body 0 + 1)); [contradiction|]. reflexivity.
Qed.

(** X14. An extension of a known type with a body its case refuses makes
    the extension loop fail, whatever well-formed extensions come before and
    whatever follows: a server_name shorter than its count field, a
    next_protocol_negotiation with a body, an empty status_request, a
    supported_curves whose list length is odd or is not the body length
    less two, a supported_points whose count is not the body length less
    one. *)
Theorem malformed_extension_rejected :
  forall (exts : list extension) (t : Z) (body rest : list byte) (fuel : nat)
         (m : ClientHelloMsg),
    Forall wfExtension exts ->
    len body < 65536 ->
    malformedExtension t body ->
    let data := encodeExtensions exts ++ u16 t ++ u16 (len body) ++ body ++ rest in
    (length data <= fuel)%nat ->
    extensionsLoop fuel m data = None.
Proof.
  intros exts t body rest fuel m Hall Hlen Hbad data Hf. subst data.
  rewrite extensionsLoop_encoded by assumption.
  destruct fuel as [|fuel].
  { rewrite !length_app in Hf. cbn [length u16] in Hf. lia. }
  assert (Ht : 0 <= t < 65536).
  { destruct Hbad as [(-> & _)|[(-> & _)|[(-> & _)|[(-> & _)|(-> & _)]]]];
      vm_compute; split; congruence. }
  rewrite extensionsLoop_step by assumption.
  rewrite extensionCase_malformed by assumption. reflexivity.
Qed.

Lemma malformed_extension_rejected_witness :
  extensionsLoop 64 zeroMsg
    (encodeExtensions exampleExtensions
       ++ u16 extensionSupportedCurves ++ u16 (len (bytesOf [0; 3; 0; 29; 0]))
       ++ bytesOf [0; 3; 0; 29; 0] ++ []) = None.
Proof.
  apply (malformed_extension_rejected exampleExtensions extensionSupportedCurves
           (bytesOf [0; 3; 0; 29; 0]) [] 64 zeroMsg exampleExtensions_wf).
  - vm_compute. reflexivity.
  - right. right. right. left. split; [reflexivity|]. right. left. vm_compute. reflexivity.
  - apply Nat.leb_le. vm_compute. reflexivity.
Defined.

(** ** Encoded messages *)

Lemma slice_exact {A} (a b c : list A) : slice (a ++ b ++ c) (len a) (len a + len b) = b.
Proof.
  unfold slice. rewrite drop_exact. replace (len a + len b - len a) with (len b) by lia.
  apply take_exact.
Qed.

Lemma at_exact a t i : 0 <= i -> at_ (a ++ t) (len a + i) = at_ t i.
Proof.
  intros H. pose proof (len_nonneg a). rewrite at_app_r by lia. f_equal. lia.
Qed.

Lemma cipherSuites_encoded suites : forall rest,
  Forall (fun c => 0 <= c < 65536) suites ->
  map (fun i => be16 (at_ (concat (map u16 suites) ++ rest) (2 * Z.of_nat i))
                     (at_ (concat (map u16 suites) ++ rest) (1 + 2 * Z.of_nat i)))
      (seq 0 (length suites)) = suites.
Proof.
  induction suites as [|c suites IH]; intros rest Hall; [reflexivity|].
  inversion Hall as [|? ? Hc Hall']; subst.
  cbn [length seq map concat]. rewrite <- app_assoc. f_equal.
  - apply (be16_u16 c). lia.
  - rewrite <- seq_shift, map_map. rewrite <- (IH rest Hall') at 2.
    apply map_ext. intros i.
    replace (1 + 2 * Z.of_nat (S i)) with (len (u16 c) + (1 + 2 * Z.of_nat i))
      by (rewrite len_u16; lia).
    replace (2 * Z.of_nat (S i)) with (len (u16 c) + 2 * Z.of_nat i) by (rewrite len_u16; lia).
    rewrite !at_exact by lia. reflexivity.
Qed.

Lemma unmarshal_encoded m (h0 h1 h2 h3 : byte) version random sessionID cipherSuites
    compressionMethods exts :
  wfHello version random sessionID cipherSuites compressionMethods exts ->
  let data := [h0; h1; h2; h3]
                ++ encodeHelloBody version random sessionID cipherSuites
                     compressionMethods exts in
  unmarshal m data
    = Some (decodedHello m data version random sessionID cipherSuites
              compressionMethods exts).
Proof.
  intros (Hv & Hr & Hs & Hcs & Hsuites & Hcm & Hexts) data.
  pose proof (len_nonneg sessionID) as Hs0.
  pose proof (len_nonneg cipherSuites) as Hc0.
  pose proof (len_nonneg compressionMethods) as Hm0.
  set (blk := encodeExtensionBlock exts).
  set (C := (byteOf (len compressionMethods) :: compressionMethods) ++ blk).
  set (suitesBytes := concat (map u16 cipherSuites)).
  set (B := u16 (2 * len cipherSuites) ++ suitesBytes ++ C).
  set (A38 := [h0; h1; h2; h3] ++ u16 version ++ random).
  assert (HA : len A38 = 38).
  { subst A38. rewrite !len_app, len_u16, Hr. reflexivity. }
  assert (Hdata : data = A38 ++ [byteOf (len sessionID)] ++ sessionID ++ B).
  { subst data A38 B C blk suitesBytes. unfold encodeHelloBody.
    rewrite <- !app_assoc. reflexivity. }
  pose proof (len_nonneg blk) as Hblk0.
  assert (HlenC : len C = 1 + len compressionMethods + len blk).
  { subst C. rewrite len_app, len_cons. lia. }
  assert (HlenB : len B = 2 + 2 * len cipherSuites + len C).
  { subst B suitesBytes. rewrite !len_app, len_u16, len_encoded_u16s. lia. }
  assert (Hlen : len data = 39 + len sessionID + len B).
  { rewrite Hdata, !len_app, HA. change (len [byteOf (len sessionID)]) with 1. lia. }
  assert (E45 : be16 (at_ data 4) (at_ data 5) = version).
  { subst data. change (be16 (at_ (u16 version ++ random
        ++ (byteOf (len sessionID) :: sessionID)
        ++ (u16 (2 * len cipherSuites) ++ concat (map u16 cipherSuites))
        ++ (byteOf (len compressionMethods) :: compressionMethods)
        ++ encodeExtensionBlock exts) 0) (at_ (u16 version ++ random
        ++ (byteOf (len sessionID) :: sessionID)
        ++ (u16 (2 * len cipherSuites) ++ concat (map u16 cipherSuites))
        ++ (byteOf (len compressionMethods) :: compressionMethods)
        ++ encodeExtensionBlock exts) 1) = version).
    apply be16_u16. lia. }
  assert (Erandom : slice data 6 38 = random).
  { subst data. unfold encodeHelloBody.
    change (slice (([h0; h1; h2; h3] ++ u16 version) ++ random
        ++ (byteOf (len sessionID) :: sessionID)
        ++ (u16 (2 * len cipherSuites) ++ concat (map u16 cipherSuites))
        ++ (byteOf (len compressionMethods) :: compressionMethods)
        ++ encodeExtensionBlock exts) 6 38 = random).
    replace 38 with (len ([h0; h1; h2; h3] ++ u16 version) + len random)
      by (rewrite Hr; reflexivity).
    change 6 with (len ([h0; h1; h2; h3] ++ u16 version)) at 1.
    apply slice_exact. }
  assert (E38 : at_ data 38 = len sessionID).
  { rewrite Hdata. replace 38 with (len A38 + 0) by lia. rewrite at_exact by lia.
    change (at_ ([byteOf (len sessionID)] ++ sessionID ++ B) 0)
      with (b2z (byteOf (len sessionID))).
    apply b2z_byteOf. lia. }
  assert (Esid : slice data 39 (39 + len sessionID) = sessionID).
  { rewrite Hdata. rewrite (app_assoc A38).
    replace 39 with (len (A38 ++ [byteOf (len sessionID)]))
      by (rewrite len_app, HA; reflexivity).
    apply slice_exact. }
  assert (EB : drop (39 + len sessionID) data = B).
  { rewrite Hdata. rewrite (app_assoc A38), app_assoc.
    replace (39 + len sessionID) with (len ((A38 ++ [byteOf (len sessionID)]) ++ sessionID))
      by (rewrite !len_app, HA; reflexivity).
    apply drop_exact. }
  assert (Ecsl : be16 (at_ B 0) (at_ B 1) = 2 * len cipherSuites).
  { subst B. apply be16_u16. lia. }
  assert (Esuites :
    map (fun i => be16 (at_ B (2 + 2 * Z.of_nat i)) (at_ B (3 + 2 * Z.of_nat i)))
        (seq 0 (Z.to_nat (len cipherSuites))) = cipherSuites).
  { unfold len at 1. rewrite Nat2Z.id.
    rewrite <- (cipherSuites_encoded cipherSuites C Hsuites) at 2.
    apply map_ext. intros i. subst B. fold suitesBytes.
    replace (2 + 2 * Z.of_nat i) with (len (u16 (2 * len cipherSuites)) + 2 * Z.of_nat i)
      by (rewrite len_u16; lia).
    replace (3 + 2 * Z.of_nat i)
      with (len (u16 (2 * len cipherSuites)) + (1 + 2 * Z.of_nat i))
      by (rewrite len_u16; lia).
    rewrite !at_exact by lia. reflexivity. }
  assert (EC : drop (2 + 2 * len cipherSuites) B = C).
  { subst B. rewrite app_assoc.
    replace (2 + 2 * len cipherSuites) with (len (u16 (2 * len cipherSuites) ++ suitesBytes))
      by (subst suitesBytes; rewrite len_app, len_u16, len_encoded_u16s; reflexivity).
    apply drop_exact. }
  assert (Ecml : at_ C 0 = len compressionMethods).
  { subst C. change (at_ ((byteOf (len compressionMethods) :: compressionMethods) ++ blk) 0)
      with (b2z (byteOf (len compressionMethods))). apply b2z_byteOf. lia. }
  assert (Ecm : slice C 1 (1 + len compressionMethods) = compressionMethods).
  { subst C. change ((byteOf (len compressionMethods) :: compressionMethods) ++ blk)
      with ([byteOf (len compressionMethods)] ++ compressionMethods ++ blk).
    change 1 with (len [byteOf (len compressionMethods)]). apply slice_exact. }
  assert (Eblk : drop (1 + len compressionMethods) C = blk).
  { subst C. replace (1 + len compressionMethods)
      with (len (byteOf (len compressionMethods) :: compressionMethods))
      by (rewrite len_cons; reflexivity).
    apply drop_exact. }
  unfold unmarshal. cbv zeta.
  destruct (Z.ltb_spec (len data) 42); [lia|].
  rewrite E45, Erandom, E38, Esid, EB.
  destruct (Z.ltb_spec 32 (len sessionID)); [lia|].
  destruct (Z.ltb_spec (len data) (39 + len sessionID)); [lia|]. cbn [orb].
  destruct (Z.ltb_spec (len B) 2); [lia|].
  rewrite Ecsl.
  replace (Z.rem (2 * len cipherSuites) 2) with 0 by (rewrite Z.mul_comm, Z.rem_mul; lia).
  change (0 =? 1) with false. cbn [orb].
  destruct (Z.ltb_spec (len B) (2 + 2 * len cipherSuites)); [lia|].
  replace (Z.quot (2 * len cipherSuites) 2) with (len cipherSuites)
    by (rewrite Z.mul_comm, Z.quot_mul; lia).
  rewrite Esuites, EC.
  destruct (Z.ltb_spec (len C) 1); [lia|].
  rewrite Ecml, Ecm, Eblk.
  destruct (Z.ltb_spec (len C) (1 + len compressionMethods)); [lia|].
  unfold decodedHello. subst blk.
  destruct exts as [l|]; cbn [encodeExtensionBlock]; [|reflexivity].
  destruct Hexts as (Hwf & Hl). pose proof (len_nonneg (encodeExtensions l)) as Hl0.
  rewrite len_app, len_u16.
  destruct (Z.eqb_spec (2 + len (encodeExtensions l)) 0); [lia|].
  destruct (Z.ltb_spec (2 + len (encodeExtensions l)) 2); [lia|].
  rewrite be16_u16 by lia.
  change (drop 2 (u16 (len (encodeExtensions l)) ++ encodeExtensions l))
    with (encodeExtensions l).
  rewrite Z.eqb_refl. cbn [negb].
  pose proof (extensionsLoop_encoded l (length (encodeExtensions l))
                (mkClientHelloMsg data version random sessionID cipherSuites
                   compressionMethods false [] false (SupportedCurves m) (SupportedPoints m)
                   false []) [] Hwf) as He.
  rewrite app_nil_r in He. rewrite He by lia.
  destruct (length (encodeExtensions l)); reflexivity.
Qed.

Lemma applyExtension_fixed m e : sameFixedFields m (applyExtension m e).
Proof.
  unfold sameFixedFields.
  destruct e as [entries|st request|curves|points|ticket| |typ body];
    cbn [applyExtension]; try (repeat split; reflexivity).
  - destruct (firstHostName entries); repeat split; reflexivity.
  - destruct (b2z st =? statusTypeOCSP); repeat split; reflexivity.
Qed.

Lemma fold_applyExtension_fixed exts : forall m,
  sameFixedFields m (fold_left applyExtension exts m).
Proof.
  induction exts as [|e exts IH]; intros m; cbn [fold_left].
  - apply sameFixedFields_refl.
  - eapply sameFixedFields_trans; [apply applyExtension_fixed|apply IH].
Qed.

Lemma handshakeLen_eq data :
  handshakeLen data = at_ data 1 * 65536 + at_ data 2 * 256 + at_ data 3.
Proof.
  unfold handshakeLen.
  pose proof (at_range data 1). pose proof (at_range data 2). pose proof (at_range data 3).
  replace (Z.shiftl (at_ data 1) 16) with (Z.shiftl (Z.shiftl (at_ data 1) 8) 8)
    by (rewrite Z.shiftl_shiftl by lia; reflexivity).
  rewrite <- Z.shiftl_lor. fold (be16 (at_ data 1) (at_ data 2)).
  fold (be16 (be16 (at_ data 1) (at_ data 2)) (at_ data 3)).
  rewrite be16_eq by (try rewrite be16_at; lia). rewrite be16_at. lia.
Qed.

Lemma handshakeLen_u24 h n t : 0 <= n < 16777216 -> handshakeLen (h :: u24 n ++ t) = n.
Proof.
  intros H. rewrite handshakeLen_eq. unfold u24, at_. simpl.
  assert (0 <= n / 65536 < 256)
    by (split; [apply Z.div_pos; lia|apply Z.div_lt_upper_bound; lia]).
  pose proof (Z.mod_pos_bound (n / 256) 256 ltac:(lia)).
  pose proof (Z.mod_pos_bound n 256 ltac:(lia)).
  rewrite !b2z_byteOf by assumption.
  pose proof (Z.div_mod n 256 ltac:(lia)).
  pose proof (Z.div_mod (n / 256) 256 ltac:(lia)).
  replace (n / 65536) with (n / 256 / 256) by (rewrite Z.div_div by lia; reflexivity).
  lia.
Qed.

(** X15. [unmarshal] gives back the fields from which a ClientHello was
    encoded: the version, the random bytes, the session id, the cipher
    suites and the compression methods, with the extensions applied in
    their order, for a message with or without an extension block. *)
Theorem unmarshal_round_trip :
  forall (m : ClientHelloMsg) (version : Z) (random sessionID : list byte)
         (cipherSuites : list Z) (compressionMethods : list byte)
         (exts : option (list extension)),
    wfHello version random sessionID cipherSuites compressionMethods exts ->
    let data := encodeHello version random sessionID cipherSuites compressionMethods exts in
    exists m',
      unmarshal m data = Some m' /\
      m' = decodedHello m data version random sessionID cipherSuites compressionMethods exts /\
      Raw m' = data /\ Versions m' = version /\ Random m' = random /\
      SessionID m' = sessionID /\ CipherSuites m' = cipherSuites /\
      CompressionMethods m' = compressionMethods.
Proof.
  intros m version random sessionID cipherSuites compressionMethods exts Hwf data.
  exists (decodedHello m data version random sessionID cipherSuites compressionMethods exts).
  split; [|split; [reflexivity|]].
  - apply (unmarshal_encoded m x01 _ _ _ version random sessionID cipherSuites
             compressionMethods exts Hwf).
  - unfold decodedHello.
    match goal with |- context [fold_left applyExtension ?l ?m0] =>
      destruct (fold_applyExtension_fixed l m0) as (H1 & H2 & H3 & H4 & H5 & H6)
    end.
    cbn [Raw Versions Random SessionID CipherSuites CompressionMethods] in *.
    repeat split; congruence.
Qed.

Lemma exampleHello_wf :
  wfHello 771 exampleRandom [x05] [4865; 49195] [x00] (Some exampleExtensions).
Proof.
  unfold wfHello.
  split; [split; [discriminate|reflexivity]|].
  split; [reflexivity|]. split; [discriminate|]. split; [reflexivity|].
  split; [repeat (constructor; [split; [discriminate|reflexivity]|]); constructor|].
  split; [reflexivity|].
  split; [apply exampleExtensions_wf|vm_compute; reflexivity].
Qed.

Lemma unmarshal_round_trip_witness :
  exists m',
    unmarshal zeroMsg (encodeHello 771 exampleRandom [x05] [4865; 49195] [x00]
                         (Some exampleExtensions)) = Some m' /\
    CipherSuites m' = [4865; 49195] /\ ServerName m' = bytesOf [97; 46; 98].
Proof.
  destruct (unmarshal_round_trip zeroMsg 771 exampleRandom [x05] [4865; 49195] [x00]
              (Some exampleExtensions) exampleHello_wf)
    as (m' & E & Hm & _ & _ & _ & _ & Hc & _).
  exists m'. split; [exact E|]. split; [exact Hc|]. rewrite Hm. vm_compute. reflexivity.
Defined.

(** X16. A ClientHello encoded from its fields and sent in one handshake
    record is returned by [ReadClientHello] with these fields, whatever the
    chunks of the reader and whatever follows the record. *)
Theorem ReadClientHello_round_trip :
  forall (fuel : nat) (r : Reader) (vh vl : byte) (tail : list byte)
         (version : Z) (random sessionID : list byte) (cipherSuites : list Z)
         (compressionMethods : list byte) (exts : option (list extension)),
    let data := encodeHello version random sessionID cipherSuites compressionMethods exts in
    wfHello version random sessionID cipherSuites compressionMethods exts ->
    len data <= 65535 -> b2z vh < 16 ->
    concat r = handshakeRecord vh vl data ++ tail ->
    (readFuel r <= fuel)%nat ->
    ReadClientHello fuel r
      = Done (inl (decodedHello zeroMsg data version random sessionID cipherSuites
                     compressionMethods exts)).
Proof.
  intros fuel r vh vl tail version random sessionID cipherSuites compressionMethods exts
         data Hwf Hl Hv Hc Hf.
  unfold readFuel in Hf. rewrite ReadClientHello_unfold.
  destruct (initial_state r) as (W & S).
  destruct (readRecord_spec fuel _ W ltac:(simpl; lia)) as (e & s1 & E & W' & L & R).
  rewrite E. rewrite S, Hc, recordOf_handshakeRecord in R by lia.
  destruct R as (-> & H1 & T1). cbn [hand app] in H1. rewrite H1.
  set (body := encodeHelloBody version random sessionID cipherSuites compressionMethods exts).
  assert (Hdata : data = x01 :: u24 (len body) ++ body) by reflexivity.
  pose proof (len_nonneg body) as Hb0.
  assert (Hlen : len data = 4 + len body).
  { rewrite Hdata, len_cons, len_app. change (len (u24 (len body))) with 3. lia. }
  assert (Hn : handshakeLen data = len body).
  { rewrite Hdata. apply handshakeLen_u24. lia. }
  destruct (Z.ltb_spec (len data) 4); [lia|].
  rewrite readRest_done by (rewrite H1; lia).
  unfold decodeHand. rewrite H1, Hn. rewrite take_all by lia.
  change (at_ data 0) with 1. change (negb (1 =? typeClientHello)) with false. cbv iota.
  pose proof (unmarshal_encoded zeroMsg x01 (byteOf (len body / 65536))
                (byteOf ((len body / 256) mod 256)) (byteOf (len body mod 256))
                version random sessionID cipherSuites compressionMethods exts Hwf) as Hu.
  cbv zeta in Hu. change (unmarshal zeroMsg data = Some
    (decodedHello zeroMsg data version random sessionID cipherSuites compressionMethods exts))
    in Hu.
  rewrite Hu. reflexivity.
Qed.

Lemma ReadClientHello_round_trip_witness :
  exists m',
    ReadClientHello 200
      (bytes_NewReader
         (handshakeRecord x03 x01
            (encodeHello 771 exampleRandom [x05] [4865; 49195] [x00]
               (Some exampleExtensions)))) = Done (inl m') /\
    ServerName m' = bytesOf [97; 46; 98].
Proof.
  eexists. split.
  - apply (ReadClientHello_round_trip 200 _ x03 x01 [] 771 exampleRandom [x05]
             [4865; 49195] [x00] (Some exampleExtensions) exampleHello_wf).
    + vm_compute. discriminate.
    + vm_compute. reflexivity.
    + vm_compute. reflexivity.
    + apply Nat.leb_le. vm_compute. reflexivity.
  - vm_compute. reflexivity.
Defined.

(** ** The fragments and the sleeps of the first write *)

Lemma drawRange_slept lo hi s v s' :
  drawRange lo hi s = (Done v, s') -> slept (rt s') = slept (rt s).
Proof.
  unfold drawRange. destruct (0 <? wrap64 (hi - lo)).
  - unfold bind, rand_Intn, ret. destruct (rand (rt s)); intros [= _ <-]; reflexivity.
  - unfold ret. intros [= _ <-]. reflexivity.
Qed.

Lemma connWrite_rt p s : rt (snd (connWrite p s)) = rt s.
Proof. reflexivity. Qed.

Lemma frame_same s news : frame s s news -> news = [].
Proof.
  intros H. apply frame_newWrites in H. rewrite <- H. unfold newWrites.
  apply skipn_all.
Qed.

Lemma writeFragments_loop_trace fuel : forall b lo hi nw pos s,
  0 <= pos <= len b ->
  let R := writeFragments_loop fuel b lo hi nw pos s in
  exists news ds,
    frame s (snd R) news /\
    slept (rt (snd R)) = slept (rt s) ++ map sleepDuration ds /\
    (wfRange (lo, hi) -> fragmentSizes (lo, hi) news) /\
    (wfRange (Delay (self s)) -> delaysFollow (Delay (self s)) ds news (fst R)).
Proof.
  assert (Hnil : forall (s : state) r res,
    (match res with Done (_, Some _) => false | _ => true end) = true ->
    wfRange r -> delaysFollow r [] (@nil (list byte * (Z * option error))) res).
  { intros s r res Hres _. split; [constructor|]. split; [apply Nat.le_refl|].
    intros _. destruct res as [[n [e|]]| |]; try discriminate; reflexivity. }
  induction fuel as [|fuel IH]; intros b lo hi nw pos s Hpos R; subst R.
  - cbn [writeFragments_loop]. destruct (pos <? len b); unfold outOfFuel, ret; cbn [fst snd];
      exists [], []; (split; [apply frame_refl'|]);
      (split; [cbn [map]; rewrite app_nil_r; reflexivity|]);
      (split; [intros _; split; [constructor|exact I]|]); apply (Hnil s); reflexivity.
  - destruct (Z.lt_ge_cases pos (len b)) as [Hlt|Hge].
    2:{ rewrite writeFragments_loop_stop by lia. cbn [fst snd].
        exists [], []. split; [apply frame_refl'|].
        split; [cbn [map]; rewrite app_nil_r; reflexivity|].
        split; [intros _; split; [constructor|exact I]|]. apply (Hnil s). reflexivity. }
    destruct (writeFragments_loop_step fuel b lo hi nw pos s Hlt)
      as (v & d & r2 & (r1 & Hv & Hd) & Hstep).
    cbv zeta in Hstep. rewrite Hstep. clear Hstep.
    pose proof (drawRange_slept _ _ _ _ _ Hv) as Hs1.
    pose proof (drawRange_slept _ _ _ _ _ Hd) as Hs2. cbn [rt] in Hs1, Hs2.
    set (fl := if len b - pos <? v then len b - pos else v).
    assert (Hfl : fl <= len b - pos).
    { subst fl. destruct (Z.ltb_spec (len b - pos) v); lia. }
    assert (Hflv : wfRange (lo, hi) -> lo <= fl \/ pos + fl = len b).
    { intros (H0 & H1 & H2). cbn [fst snd] in *.
      destruct (drawRange_bounds lo hi s v _ H0 H1 H2 Hv) as (Hb & _).
      subst fl. destruct (Z.ltb_spec (len b - pos) v); lia. }
    assert (Hflmax : wfRange (lo, hi) -> fl <= rangeMax (lo, hi)).
    { intros (H0 & H1 & H2). cbn [fst snd] in *.
      destruct (drawRange_bounds lo hi s v _ H0 H1 H2 Hv) as (Hb & Hb1 & Hb2).
      unfold rangeMax. cbn [fst snd].
      subst fl. destruct (Z.ltb_spec (len b - pos) v); lia. }
    destruct (Z.ltb_spec fl 0) as [Hneg|Hnn].
    { cbn [fst snd]. exists [], []. split; [apply frame_refl|].
      split; [cbn [rt map]; rewrite app_nil_r; congruence|].
      split; [intros _; split; [constructor|exact I]|]. apply (Hnil s). reflexivity. }
    destruct (connWrite_frame (slice b pos (pos + fl)) (mkState (self s) r2))
      as ([tnw ew] & s' & Hw & Hfr & _ & _).
    pose proof (connWrite_rt (slice b pos (pos + fl)) (mkState (self s) r2)) as Hrt.
    rewrite Hw in Hrt |- *. cbn [snd rt] in Hrt.
    apply frame_from in Hfr.
    assert (Hlen : len (slice b pos (pos + fl)) = fl).
    { rewrite len_slice by lia. lia. }
    destruct ew as [e|].
    { cbn [fst snd]. exists [(slice b pos (pos + fl), (tnw, Some e))], [].
      split; [exact Hfr|]. split; [cbn [map]; rewrite app_nil_r; congruence|]. split.
      - intros Hr. split; [|split; exact I].
        constructor; [|constructor]. cbn [fst]. rewrite Hlen. auto.
      - intros _. split; [constructor|]. split; [simpl; lia|]. reflexivity. }
    set (s'' := mkState (self s')
                  (if 0 <? d
                   then mkRuntime (rand (rt s'))
                          (slept (rt s') ++ [wrap64 (d * time_Millisecond)])
                   else rt s')).
    assert (Hfr'' : frame s s'' [(slice b pos (pos + fl), (tnw, None))]).
    { exact (frame_runtime _ _ _ _ Hfr). }
    assert (Hsl'' : slept (rt s'')
                    = slept (rt s) ++ map sleepDuration (if 0 <? d then [d] else [])).
    { subst s''. cbn [rt]. destruct (0 <? d); cbn [slept map]; rewrite Hrt.
      - unfold sleepDuration. congruence.
      - rewrite app_nil_r. congruence. }
    assert (Hdelay : Delay (self s'') = Delay (self s)).
    { destruct (frame_ranges _ _ _ Hfr'') as (_ & _ & _ & H). exact H. }
    destruct (IH b lo hi (nw + tnw) (pos + fl) s'' ltac:(lia))
      as (news & ds & Hfr2 & Hsl2 & Hsz2 & Hdl2).
    cbv zeta in Hfr2, Hsl2, Hdl2. rewrite Hdelay in Hdl2.
    exists ((slice b pos (pos + fl), (tnw, None)) :: news), ((if 0 <? d then [d] else []) ++ ds).
    split; [exact (frame_trans _ _ _ _ _ Hfr'' Hfr2)|].
    split; [rewrite Hsl2, Hsl'', map_app, app_assoc; reflexivity|]. split.
    + intros Hr. destruct (Hsz2 Hr) as (Hmax & Hmin). split.
      * constructor; [cbn [fst]; rewrite Hlen; auto|exact Hmax].
      * cbn [allButLast]. split; [|exact Hmin].
        destruct news as [|w news']; [exact I|]. cbn [fst]. rewrite Hlen.
        destruct (Hflv Hr) as [Hok|Hend]; [exact Hok|].
        rewrite writeFragments_loop_stop in Hfr2 by lia. cbn [snd] in Hfr2.
        apply frame_same in Hfr2. discriminate.
    + intros Hr. destruct (Hdl2 Hr) as (Hds & Hle & Hcount).
      destruct Hr as (H0 & H1 & H2).
      destruct (drawRange_bounds _ _ _ d _ H0 H1 H2 Hd) as (Hb & Hb1 & Hb2).
      split; [|split].
      * apply Forall_app. split; [|exact Hds].
        destruct (Z.ltb_spec 0 d); constructor; [|constructor].
        unfold rangeMax. lia.
      * rewrite length_app. cbn [length]. destruct (0 <? d); simpl; lia.
      * intros H1'. rewrite length_app. cbn [length].
        destruct (Z.ltb_spec 0 d); [|lia]. rewrite (Hcount H1'). simpl. lia.
Qed.

Lemma writeFragments_trace fuel b index s :
  let R := writeFragments fuel b index s in
  exists news ds,
    frame s (snd R) news /\
    slept (rt (snd R)) = slept (rt s) ++ map sleepDuration ds /\
    (wfRange (zoneRange (self s) index) -> fragmentSizes (zoneRange (self s) index) news) /\
    (wfRange (Delay (self s)) -> delaysFollow (Delay (self s)) ds news (fst R)).
Proof.
  unfold writeFragments, bind, getAdapter. fold (zoneRange (self s) index).
  destruct (zoneRange (self s) index) as [lo hi] eqn:Ez.
  pose proof (len_nonneg b).
  exact (writeFragments_loop_trace fuel b lo hi 0 0 s ltac:(lia)).
Qed.

(** What one chunk contributes to the first write. *)
Lemma writeFragments_chunk fuel c i s :
  let R := writeFragments fuel c i s in
  exists news,
    frame s (snd R) news /\
    (wfRange (zoneRange (self s) i) -> fragmentSizes (zoneRange (self s) i) news) /\
    (progressRange (zoneRange (self s) i) -> Forall nonEmptyWrite news) /\
    (forall n, fst R = Done (n, None) -> concat (map fst news) = c /\ n = len c).
Proof.
  cbv zeta.
  destruct (writeFragments_inv fuel c i s) as (news & Hfr & _ & Hne & _ & Hres).
  destruct (writeFragments_trace fuel c i s) as (news' & ds & Hfr' & _ & Hsz & _).
  cbv zeta in *.
  assert (news' = news) as ->.
  { apply frame_newWrites in Hfr, Hfr'. congruence. }
  exists news. split; [exact Hfr|]. split; [exact Hsz|]. split; [exact Hne|].
  intros n Hn. rewrite Hn in Hres. destruct Hres as (_ & Hc & ->). split; [exact Hc|lia].
Qed.

Lemma sendChunks_trace fuel chunks : forall i nw s,
  let R := sendChunks fuel chunks i nw s in
  exists news ds,
    frame s (snd R) news /\
    slept (rt (snd R)) = slept (rt s) ++ map sleepDuration ds /\
    (wfRange (Delay (self s)) -> delaysFollow (Delay (self s)) ds news (fst R)).
Proof.
  induction chunks as [|c rest IH]; intros i nw s R; subst R.
  - exists [], []. cbn [sendChunks]. unfold ret. cbn [fst snd].
    split; [apply frame_refl'|]. split; [cbn [map]; rewrite app_nil_r; reflexivity|].
    intros _. split; [constructor|]. split; [apply Nat.le_refl|]. reflexivity.
  - rewrite sendChunks_cons.
    destruct (writeFragments_trace fuel c i s) as (n1 & d1 & Hfr1 & Hsl1 & _ & Hdl1).
    cbv zeta in *.
    destruct (writeFragments fuel c i s) as [[[tnw [e|]]| |] s1]; cbn [fst snd] in *;
      try (exists n1, d1; split; [exact Hfr1|]; split; [exact Hsl1|]; exact Hdl1).
    destruct (IH (i + 1) (nw + tnw) s1) as (n2 & d2 & Hfr2 & Hsl2 & Hdl2).
    cbv zeta in *.
    destruct (frame_ranges _ _ _ Hfr1) as (_ & _ & _ & Hd). rewrite Hd in Hdl2.
    exists (n1 ++ n2), (d1 ++ d2).
    split; [exact (frame_trans _ _ _ _ _ Hfr1 Hfr2)|].
    split; [rewrite Hsl2, Hsl1, map_app, app_assoc; reflexivity|].
    intros Hr. destruct (Hdl1 Hr) as (A1 & B1 & C1). destruct (Hdl2 Hr) as (A2 & B2 & C2).
    split; [apply Forall_app; auto|]. rewrite !length_app. split; [lia|].
    intros H1. rewrite (C1 H1), (C2 H1). lia.
Qed.

Lemma hasPrefix_take s : forall sep, hasPrefix s sep = true -> take (len sep) s = sep.
Proof.
  induction s as [|y s IH]; intros [|x sep]; cbn [hasPrefix]; try reflexivity; try discriminate.
  intros H. apply andb_true_iff in H. destruct H as (Hx & Hs).
  apply Byte.byte_dec_bl in Hx. subst y.
  unfold take, len. cbn [length]. rewrite Nat2Z.id. cbn [firstn]. f_equal.
  specialize (IH sep Hs). unfold take, len in IH. rewrite Nat2Z.id in IH. exact IH.
Qed.

Lemma bytes_Index_from_found s sep : forall i,
  bytes_Index_from i s sep <> -1 -> 0 <= i ->
  take (len sep) (drop (bytes_Index_from i s sep - i) s) = sep.
Proof.
  induction s as [|a s IH]; intros i; cbn [bytes_Index_from];
    destruct (hasPrefix _ sep) eqn:E; intros Hj Hi.
  - rewrite Z.sub_diag. apply hasPrefix_take. exact E.
  - contradiction.
  - rewrite Z.sub_diag. apply hasPrefix_take. exact E.
  - destruct (bytes_Index_from_bounds s sep (i + 1) Hj ltac:(lia)) as (Hlo & _).
    specialize (IH (i + 1) Hj ltac:(lia)).
    set (j := bytes_Index_from (i + 1) s sep) in *.
    unfold drop in *. replace (Z.to_nat (j - i)) with (S (Z.to_nat (j - (i + 1)))) by lia.
    exact IH.
Qed.

Lemma bytes_Index_found s sep :
  bytes_Index s sep <> -1 ->
  slice s (bytes_Index s sep) (bytes_Index s sep + len sep) = sep.
Proof.
  intros H. unfold slice.
  replace (bytes_Index s sep + len sep - bytes_Index s sep) with (len sep) by lia.
  pose proof (bytes_Index_from_found s sep 0 H ltac:(lia)) as Hf.
  rewrite Z.sub_0_r in Hf. exact Hf.
Qed.

(** The writes of a fragmented first packet, zone by zone. *)
Lemma fragmentAndWriteFirstPacket_zones fuel b s hello n :
  parseFirst b = Done (inl hello) ->
  bytes_Index b (sni.ServerName hello) <> -1 ->
  let index := bytes_Index b (sni.ServerName hello) in
  let R := fragmentAndWriteFirstPacket fuel b s in
  fst R = Done (n, None) ->
  exists w0 w1 w2,
    newWrites s (snd R) = w0 ++ w1 ++ w2 /\
    (concat (map fst w0) = take index b /\
     concat (map fst w1) = sni.ServerName hello /\
     concat (map fst w2) = drop (index + len (sni.ServerName hello)) b) /\
    ((wfRange (BSL (self s)) -> fragmentSizes (BSL (self s)) w0) /\
     (wfRange (SL (self s)) -> fragmentSizes (SL (self s)) w1) /\
     (wfRange (ASL (self s)) -> fragmentSizes (ASL (self s)) w2)) /\
    ((progressRange (BSL (self s)) -> Forall nonEmptyWrite w0) /\
     (progressRange (SL (self s)) -> Forall nonEmptyWrite w1) /\
     (progressRange (ASL (self s)) -> Forall nonEmptyWrite w2)).
Proof.
  intros Hparse Hidx index R. subst R.
  rewrite (fragmentAndWriteFirstPacket_fragmenting fuel b s hello Hparse Hidx). cbv zeta.
  fold index.
  destruct (bytes_Index_bounds b _ Hidx) as (Hi0 & Hi1). fold index in Hi0, Hi1.
  pose proof (len_nonneg (sni.ServerName hello)) as Hl0.
  pose proof (bytes_Index_found b _ Hidx) as Hsni. fold index in Hsni. rewrite Hsni.
  assert (E0 : slice b 0 index = take index b).
  { unfold slice. rewrite Z.sub_0_r. reflexivity. }
  assert (E2 : take (len b - index - len (sni.ServerName hello))
                 (drop (index + len (sni.ServerName hello)) b)
               = drop (index + len (sni.ServerName hello)) b).
  { apply take_all. rewrite len_drop by lia. lia. }
  rewrite E0, E2.
  rewrite sendChunks_cons.
  destruct (writeFragments_chunk fuel (take index b) 0 s) as (w0 & F0 & S0 & N0 & C0).
  cbv zeta in *.
  destruct (writeFragments fuel (take index b) 0 s) as [[[t0 [e|]]| |] s1];
    cbn [fst snd] in *; try discriminate.
  rewrite sendChunks_cons.
  destruct (writeFragments_chunk fuel (sni.ServerName hello) (0 + 1) s1)
    as (w1 & F1 & S1 & N1 & C1).
  cbv zeta in *.
  destruct (writeFragments fuel (sni.ServerName hello) (0 + 1) s1) as [[[t1 [e|]]| |] s2];
    cbn [fst snd] in *; try discriminate.
  rewrite sendChunks_cons.
  destruct (writeFragments_chunk fuel (drop (index + len (sni.ServerName hello)) b)
              (0 + 1 + 1) s2) as (w2 & F2 & S2 & N2 & C2).
  cbv zeta in *.
  destruct (writeFragments fuel (drop (index + len (sni.ServerName hello)) b) (0 + 1 + 1) s2)
    as [[[t2 [e|]]| |] s3]; cbn [fst snd] in *; try discriminate.
  cbn [sendChunks]. unfold ret. cbn [fst snd]. intros _.
  destruct (frame_ranges _ _ _ F0) as (_ & HSL1 & HASL1 & _).
  destruct (frame_ranges _ _ _ F1) as (_ & _ & HASL2 & _).
  change (zoneRange (self s) 0) with (BSL (self s)) in S0, N0.
  change (zoneRange (self s1) (0 + 1)) with (SL (self s1)) in S1, N1.
  change (zoneRange (self s2) (0 + 1 + 1)) with (ASL (self s2)) in S2, N2.
  rewrite HSL1 in S1, N1. rewrite HASL2, HASL1 in S2, N2.
  exists w0, w1, w2.
  split; [exact (frame_newWrites _ _ _ (frame_trans _ _ _ _ _ F0
                   (frame_trans _ _ _ _ _ F1 F2)))|].
  split; [exact (conj (proj1 (C0 _ eq_refl))
                   (conj (proj1 (C1 _ eq_refl)) (proj1 (C2 _ eq_refl))))|].
  split; [exact (conj S0 (conj S1 S2))|exact (conj N0 (conj N1 N2))].
Qed.

(** X18. When the first packet is fragmented and all of it is written, no
    write straddles a zone: the writes are those of the bytes before the
    first occurrence of the server name, then those of the server name,
    then those of the bytes after it, and the writes of each zone keep to
    the size range of that zone ([BSL], [SL], [ASL]). *)
Theorem first_write_zones :
  forall (fuel : nat) (b : list byte) (s : state) (hello : sni.ClientHelloMsg) (n : Z),
    parseFirst b = Done (inl hello) ->
    bytes_Index b (sni.ServerName hello) <> -1 ->
    let index := bytes_Index b (sni.ServerName hello) in
    let R := fragmentAndWriteFirstPacket fuel b s in
    fst R = Done (n, None) ->
    exists w0 w1 w2,
      newWrites s (snd R) = w0 ++ w1 ++ w2 /\
      concat (map fst w0) = take index b /\
      concat (map fst w1) = sni.ServerName hello /\
      concat (map fst w2) = drop (index + len (sni.ServerName hello)) b /\
      (wfRange (BSL (self s)) -> fragmentSizes (BSL (self s)) w0) /\
      (wfRange (SL (self s)) -> fragmentSizes (SL (self s)) w1) /\
      (wfRange (ASL (self s)) -> fragmentSizes (ASL (self s)) w2).
Proof.
  intros fuel b s hello n Hparse Hidx index R HR.
  destruct (fragmentAndWriteFirstPacket_zones fuel b s hello n Hparse Hidx HR)
    as (w0 & w1 & w2 & H & (C0 & C1 & C2) & (S0 & S1 & S2) & _).
  exists w0, w1, w2.
  exact (conj H (conj C0 (conj C1 (conj C2 (conj S0 (conj S1 S2)))))).
Qed.

Lemma first_write_zones_witness :
  exists w0 w1 w2,
    newWrites (exampleState (freshConn []))
      (snd (fragmentAndWriteFirstPacket 64 helloPacket (exampleState (freshConn []))))
      = w0 ++ w1 ++ w2 /\
    concat (map fst w1) = bytesOf [97; 46; 98] /\
    fragmentSizes (1, 2) w1.
Proof.
  destruct (parseFirst helloPacket) as [[hello|e]| |] eqn:E;
    try (vm_compute in E; discriminate).
  assert (Hname : sni.ServerName hello = bytesOf [97; 46; 98]).
  { vm_compute in E. injection E as <-. reflexivity. }
  destruct (first_write_zones 64 helloPacket (exampleState (freshConn [])) hello 64 E)
    as (w0 & w1 & w2 & H & _ & H1 & _ & _ & HS & _).
  - rewrite Hname. vm_compute. discriminate.
  - vm_compute. reflexivity.
  - exists w0, w1, w2. split; [exact H|]. split; [congruence|].
    apply HS. unfold wfRange. simpl. lia.
Defined.

(** X19. The fragments [writeFragments] writes for a range with
    [0 <= min <= max]: none is longer than [max - 1], or than [min] when
    [min = max], and every fragment but the last one written has [min]
    bytes at least. *)
Theorem writeFragments_fragment_sizes :
  forall (fuel : nat) (b : list byte) (index : Z) (s : state),
    wfRange (zoneRange (self s) index) ->
    let news := newWrites s (snd (writeFragments fuel b index s)) in
    Forall (fun w => len (fst w) <= rangeMax (zoneRange (self s) index)) news /\
    allButLast (fun w => fst (zoneRange (self s) index) <= len (fst w)) news.
Proof.
  intros fuel b index s Hr news. subst news.
  destruct (writeFragments_trace fuel b index s) as (news & ds & Hfr & _ & Hsz & _).
  cbv zeta in *. rewrite (frame_newWrites _ _ _ Hfr). exact (Hsz Hr).
Qed.

Lemma writeFragments_fragment_sizes_witness :
  let s := exampleState (freshConn []) in
  Forall (fun w => len (fst w) <= rangeMax (zoneRange (self s) 0))
    (newWrites s (snd (writeFragments 64 helloPacket 0 s))).
Proof.
  intros s.
  assert (Hr : wfRange (zoneRange (self s) 0)) by (unfold wfRange; simpl; lia).
  exact (proj1 (writeFragments_fragment_sizes 64 helloPacket 0 s Hr)).
Defined.

(** The sleeps of a fragmented first packet. *)
Lemma fragmentAndWriteFirstPacket_sleeps fuel b s hello :
  parseFirst b = Done (inl hello) ->
  bytes_Index b (sni.ServerName hello) <> -1 ->
  wfRange (Delay (self s)) ->
  let R := fragmentAndWriteFirstPacket fuel b s in
  exists ds,
    slept (rt (snd R)) = slept (rt s) ++ map sleepDuration ds /\
    delaysFollow (Delay (self s)) ds (newWrites s (snd R)) (fst R).
Proof.
  intros Hparse Hidx Hr R. subst R.
  rewrite (fragmentAndWriteFirstPacket_fragmenting fuel b s hello Hparse Hidx). cbv zeta.
  match goal with |- context [sendChunks fuel ?c 0 0 s] =>
    destruct (sendChunks_trace fuel c 0 0 s) as (news & ds & Hfr & Hsl & Hdl)
  end.
  cbv zeta in *. exists ds. split; [exact Hsl|].
  rewrite (frame_newWrites _ _ _ Hfr). exact (Hdl Hr).
Qed.

(** X20. The sleeps of a fragmented first packet, for a delay range with
    [0 <= min <= max]: the delay of each is between [min] and [max - 1]
    milliseconds ([min] when [min = max]) and a zero delay is no sleep; when
    [min] is 1 or more there are as many sleeps as writes that succeeded,
    the last write of the packet included. The duration [time.Sleep] is
    called with is the 64-bit product of the delay and [time.Millisecond];
    it is the delay in nanoseconds when [max] is at most 9223372036854, the
    largest number of milliseconds a [time.Duration] holds. *)
Theorem first_write_delays :
  forall (fuel : nat) (b : list byte) (s : state) (hello : sni.ClientHelloMsg),
    parseFirst b = Done (inl hello) ->
    bytes_Index b (sni.ServerName hello) <> -1 ->
    wfRange (Delay (self s)) ->
    let R := fragmentAndWriteFirstPacket fuel b s in
    exists ds,
      slept (rt (snd R)) = slept (rt s) ++ map sleepDuration ds /\
      Forall (fun d => 1 <= d /\ fst (Delay (self s)) <= d <= rangeMax (Delay (self s))) ds /\
      (length ds <= length (newWrites s (snd R)))%nat /\
      (1 <= fst (Delay (self s)) ->
       length (newWrites s (snd R))
         = (length ds + match fst R with Done (_, Some _) => 1 | _ => 0 end)%nat) /\
      (snd (Delay (self s)) <= 9223372036854 ->
       Forall (fun d => sleepDuration d = d * time_Millisecond) ds).
Proof.
  intros fuel b s hello Hparse Hidx Hr R.
  destruct (fragmentAndWriteFirstPacket_sleeps fuel b s hello Hparse Hidx Hr)
    as (ds & Hsl & Hds & Hle & Hcount).
  exists ds. split; [exact Hsl|]. split; [exact Hds|]. split; [exact Hle|].
  split; [exact Hcount|].
  intros Hmax. eapply Forall_impl; [|exact Hds]. intros d (Hd1 & _ & Hd2).
  destruct Hr as (_ & Hr & _).
  unfold rangeMax in Hd2. unfold sleepDuration, time_Millisecond.
  apply wrap64_small. lia.
Qed.

Lemma first_write_delays_witness :
  exists ds,
    slept (rt (snd (fragmentAndWriteFirstPacket 64 helloPacket (exampleState (freshConn [])))))
      = slept (rt (exampleState (freshConn []))) ++ map sleepDuration ds /\
    Forall (fun d => sleepDuration d = d * time_Millisecond) ds.
Proof.
  destruct (parseFirst helloPacket) as [[hello|e]| |] eqn:E;
    try (vm_compute in E; discriminate).
  assert (Hname : sni.ServerName hello = bytesOf [97; 46; 98]).
  { vm_compute in E. injection E as <-. reflexivity. }
  destruct (first_write_delays 64 helloPacket (exampleState (freshConn [])) hello E)
    as (ds & H & _ & _ & _ & HD).
  - rewrite Hname. vm_compute. discriminate.
  - unfold wfRange. simpl. lia.
  - exists ds. split; [exact H|]. apply HD. vm_compute. discriminate.
Defined.

(** ** Edges of the first write *)

Lemma concat_bytes_NewReader b : concat (bytes_NewReader b) = b.
Proof. destruct b; [reflexivity|]. cbn [bytes_NewReader concat]. apply app_nil_r. Qed.

Lemma parseFirst_no_record b e : recordOf b = inl e -> parseFirst b = Done (inr e).
Proof.
  intros H. unfold parseFirst. rewrite ReadClientHello_unfold.
  destruct (initial_state (bytes_NewReader b)) as (W & S).
  destruct (readRecord_spec (readFuel (bytes_NewReader b)) _ W
              ltac:(unfold readFuel; cbn [rd]; lia)) as (e' & s1 & E & _ & _ & R).
  rewrite E. rewrite S, concat_bytes_NewReader, H in R. destruct R as (-> & _). reflexivity.
Qed.

(** X17. A first [Write] whose bytes do not start with a complete TLS
    handshake record (fewer than five bytes, a first byte other than 22,
    version bytes of 0x1000 or more, or fewer payload bytes than the header
    announces) goes to the connection in one write of the unmodified
    bytes. *)
Theorem Write_first_without_record :
  forall (fuel : nat) (b : list byte) (s : state),
    isFirstWrite (self s) = true ->
    len b < 5 \/ at_ b 0 <> recordTypeHandshake \/ 4096 <= be16 (at_ b 1) (at_ b 2) \/
    len b < 5 + be16 (at_ b 3) (at_ b 4) ->
    Write fuel b s = connWrite b (started s) /\
    newWrites s (snd (Write fuel b s)) = [(b, fst (Conn_Write (conn (self s)) b))].
Proof.
  intros fuel b s Hfirst Hcase.
  assert (Hrec : exists e, recordOf b = inl e).
  { unfold recordOf.
    destruct (Z.ltb_spec (len b) 5); [eauto|].
    destruct (at_ b 0 =? 128); [eauto|].
    destruct (Z.eqb_spec (at_ b 0) recordTypeHandshake) as [Ht|Ht]; cbn [negb orb]; [|eauto].
    destruct (Z.leb_spec 4096 (be16 (at_ b 1) (at_ b 2))); [eauto|].
    destruct (Z.ltb_spec (len b) (5 + be16 (at_ b 3) (at_ b 4))); [eauto|].
    exfalso. destruct Hcase as [?|[?|[?|?]]]; [lia|contradiction|lia|lia]. }
  destruct Hrec as (e & Hrec). apply parseFirst_no_record in Hrec.
  destruct (Write_first_fallback fuel b s Hfirst (or_introl (ex_intro _ e Hrec))) as (HW & _).
  split; [exact HW|]. rewrite HW.
  unfold connWrite, newWrites, started, Conn_Write. cbn [self conn wlog snd fst].
  rewrite skipn_app, skipn_all, Nat.sub_diag. reflexivity.
Qed.

Lemma Write_first_without_record_witness :
  newWrites (exampleState (freshConn []))
    (snd (Write 64 httpPacket (exampleState (freshConn []))))
    = [(httpPacket, fst (Conn_Write (conn (self (exampleState (freshConn [])))) httpPacket))].
Proof.
  apply (Write_first_without_record 64 httpPacket (exampleState (freshConn []))).
  - reflexivity.
  - right. left. vm_compute. discriminate.
Defined.

Lemma drawRange_negative lo hi s v s' :
  - 2 ^ 63 < lo < 0 -> - 2 ^ 63 <= hi <= 0 ->
  drawRange lo hi s = (Done v, s') -> v < 0.
Proof.
  intros Hlo Hhi. unfold drawRange.
  rewrite (wrap64_small (hi - lo)) by lia.
  destruct (0 <? hi - lo) eqn:E.
  - apply Z.ltb_lt in E. unfold bind, rand_Intn, ret.
    destruct (rand (rt s)) as [|x rest]; intros [= <- _].
    + rewrite wrap64_small by lia. lia.
    + pose proof (Z.mod_pos_bound x (hi - lo) E).
      rewrite wrap64_small by lia. lia.
  - unfold ret. intros [= <- _]. lia.
Qed.

(** X21. With a size range whose minimum is negative and whose maximum is
    not positive, [writeFragments] panics on non-empty data in its first
    pass, on the slice expression [b[position : position+fragmentLength]],
    before anything is written. *)
Theorem writeFragments_negative_range_panics :
  forall (fuel : nat) (b : list byte) (index : Z) (s : state),
    - 2 ^ 63 < fst (zoneRange (self s) index) < 0 ->
    - 2 ^ 63 <= snd (zoneRange (self s) index) <= 0 ->
    b <> [] ->
    let R := writeFragments (S fuel) b index s in
    fst R = Panic /\ newWrites s (snd R) = [].
Proof.
  intros fuel b index s Hlo Hhi Hb R. subst R.
  unfold writeFragments, bind, getAdapter. fold (zoneRange (self s) index).
  destruct (zoneRange (self s) index) as [lo hi]. cbn [fst snd] in Hlo, Hhi.
  assert (Hlen : 0 < len b).
  { destruct b as [|x b']; [contradiction|]. rewrite len_cons.
    pose proof (len_nonneg b'). lia. }
  destruct (writeFragments_loop_step fuel b lo hi 0 0 s Hlen)
    as (v & d & r2 & (r1 & Hv & Hd) & Hstep).
  cbv zeta in Hstep. rewrite Hstep. clear Hstep.
  pose proof (drawRange_negative lo hi s v _ Hlo Hhi Hv) as Hneg.
  destruct (Z.ltb_spec (len b - 0) v); [lia|].
  destruct (Z.ltb_spec v 0); [|lia]. cbn [fst snd].
  split; [reflexivity|]. exact (frame_newWrites _ _ _ (frame_refl s r2)).
Qed.

Lemma writeFragments_negative_range_panics_witness :
  let s := mkState (New (freshConn []) (-1, -1) (1, 2) (1, 2) (0, 0)) (mkRuntime [] []) in
  fst (writeFragments 1 helloPacket 0 s) = Panic.
Proof.
  intros s.
  refine (proj1 (writeFragments_negative_range_panics 0 helloPacket 0 s _ _ _)).
  - simpl. lia.
  - simpl. lia.
  - discriminate.
Defined.

Lemma writeFragments_loop_zero_writes fuel : forall b nw pos s,
  0 <= pos < len b -> allWritesSucceed (conn (self s)) ->
  let R := writeFragments_loop fuel b 0 0 nw pos s in
  fst R = OutOfFuel /\ frame s (snd R) (repeat ([], (0, None)) fuel).
Proof.
  induction fuel as [|fuel IH]; intros b nw pos s Hpos Hall R; subst R.
  - cbn [writeFragments_loop]. destruct (Z.ltb_spec pos (len b)); [|lia].
    unfold outOfFuel. cbn [fst snd repeat]. split; [reflexivity|apply frame_refl'].
  - destruct (writeFragments_loop_step fuel b 0 0 nw pos s ltac:(lia))
      as (v & d & r2 & (r1 & Hv & Hd) & Hstep).
    cbv zeta in Hstep. rewrite Hstep. clear Hstep.
    destruct (drawRange_bounds 0 0 s v _ ltac:(lia) ltac:(lia) ltac:(lia) Hv) as (_ & _ & Hv0).
    rewrite (Hv0 eq_refl).
    destruct (Z.ltb_spec (len b - pos) 0); [lia|].
    change (0 <? 0) with false. cbv iota.
    assert (Hempty : slice b pos (pos + 0) = []).
    { unfold slice. replace (pos + 0 - pos) with 0 by lia. reflexivity. }
    rewrite Hempty.
    destruct (connWrite_frame [] (mkState (self s) r2))
      as ([tnw ew] & s' & Hw & Hfr & Hok & _).
    rewrite Hw. pose proof (Hok Hall) as Hres. injection Hres as -> ->.
    apply frame_from in Hfr.
    set (s'' := mkState (self s') _).
    assert (Hfr'' : frame s s'' [([], (len (@nil byte), None))])
      by exact (frame_runtime _ _ _ _ Hfr).
    destruct (IH b (nw + len (@nil byte)) (pos + 0) s'' ltac:(lia)
                (frame_allWritesSucceed _ _ _ Hfr'' Hall)) as (HR & Hfr2).
    split; [exact HR|]. exact (frame_trans _ _ _ _ _ Hfr'' Hfr2).
Qed.

(** X22. With the size range [[0, 0]], non-empty data and a connection
    whose writes succeed, [writeFragments] never returns: after any number
    of passes of its loop it is still running, and every pass has written
    one empty fragment. *)
Theorem writeFragments_zero_range_empty_writes :
  forall (fuel : nat) (b : list byte) (index : Z) (s : state),
    zoneRange (self s) index = (0, 0) ->
    allWritesSucceed (conn (self s)) ->
    b <> [] ->
    let R := writeFragments fuel b index s in
    fst R = OutOfFuel /\ newWrites s (snd R) = repeat ([], (0, None)) fuel.
Proof.
  intros fuel b index s Hz Hall Hb R. subst R.
  unfold writeFragments, bind, getAdapter. fold (zoneRange (self s) index). rewrite Hz.
  assert (Hlen : 0 < len b).
  { destruct b as [|x b']; [contradiction|]. rewrite len_cons.
    pose proof (len_nonneg b'). lia. }
  destruct (writeFragments_loop_zero_writes fuel b 0 0 s ltac:(lia) Hall) as (HR & Hfr).
  split; [exact HR|exact (frame_newWrites _ _ _ Hfr)].
Qed.

Lemma writeFragments_zero_range_empty_writes_witness :
  let s := mkState (New (freshConn []) (0, 0) (1, 2) (1, 2) (0, 0)) (mkRuntime [] []) in
  fst (writeFragments 7 helloPacket 0 s) = OutOfFuel /\
  newWrites s (snd (writeFragments 7 helloPacket 0 s)) = repeat ([], (0, None)) 7.
Proof.
  intros s.
  apply (writeFragments_zero_range_empty_writes 7 helloPacket 0 s).
  - reflexivity.
  - constructor.
  - discriminate.
Defined.

(** X23. What any [Write] does and returns, first or later, whichever
    writes of the connection fail. It only appends to the write log,
    takes one scripted result per write it makes, reads nothing and leaves
    the four ranges alone. It returns when the size ranges start at 1 or
    more and the fuel covers [len b] passes. A return without error
    carries [len b], every write having
    succeeded and the bytes written being [b]; a return with an error
    carries the error of the last write made, all writes before it having
    succeeded. *)
Theorem Write_outcome :
  forall (fuel : nat) (b : list byte) (s : state),
    let R := Write fuel b s in
    let news := newWrites s (snd R) in
    wlog (conn (self (snd R))) = wlog (conn (self s)) ++ news /\
    wscript (conn (self (snd R))) = skipn (length news) (wscript (conn (self s))) /\
    rscript (conn (self (snd R))) = rscript (conn (self s)) /\
    (BSL (self (snd R)), SL (self (snd R)), ASL (self (snd R)), Delay (self (snd R)))
      = (BSL (self s), SL (self s), ASL (self s), Delay (self s)) /\
    (allProgress (self s) -> len b <= Z.of_nat fuel -> exists res, fst R = Done res) /\
    (forall n, fst R = Done (n, None) ->
       n = len b /\ Forall okEntry news /\ sentSince s (snd R) = b) /\
    (forall n e, fst R = Done (n, Some e) ->
       exists pre p k, news = pre ++ [(p, (k, Some e))] /\ Forall okEntry pre).
Proof.
  intros fuel b s R news. subst R news.
  assert (H : exists news,
    frame (started s) (snd (Write fuel b s)) news /\
    (allProgress (self s) -> len b <= Z.of_nat fuel ->
       exists res, fst (Write fuel b s) = Done res) /\
    writeResult false b 0 news (fst (Write fuel b s))).
  { rewrite Write_unfold. destruct (isFirstWrite (self s)) eqn:Hfirst.
    - destruct (fragmentAndWriteFirstPacket_inv fuel b (started s))
        as (news & H1 & _ & H3 & H4).
      cbv zeta in *. exists news. split; [exact H1|]. split; [exact H3|exact H4].
    - destruct (connWrite_writeResult b s) as (news & H1 & _ & (res & H3 & _) & H4).
      exists news. split; [|split; [eauto|exact H4]].
      destruct H1 as (c' & r' & E & Hx). exists c', r'. split; [|exact Hx].
      rewrite E. unfold withConn, started. cbn [self isFirstWrite BSL SL ASL Delay].
      rewrite Hfirst. reflexivity. }
  destruct H as (news & Hfr & Hterm & Hres).
  pose proof (frame_newWrites _ _ _ Hfr) as Hnw. rewrite newWrites_started in Hnw.
  unfold sentSince. rewrite Hnw.
  destruct (frame_ranges _ _ _ Hfr) as (E0 & E1 & E2 & E3).
  destruct Hfr as (c' & r' & E & Hl & Hs & Hr).
  rewrite E. cbn [withConn self conn started BSL SL ASL Delay] in *.
  split; [exact Hl|]. split; [exact Hs|]. split; [exact Hr|].
  split; [reflexivity|]. split; [exact Hterm|].
  unfold writeResult in Hres. split.
  - intros n Hn. rewrite Hn in Hres. destruct Hres as (H1 & H2 & H3).
    split; [lia|]. split; assumption.
  - intros n e Hn. rewrite Hn in Hres. destruct Hres as (_ & H). exact H.
Qed.

Lemma Write_outcome_witness :
  exists pre p k,
    newWrites failingState (snd (Write 64 helloPacket failingState))
      = pre ++ [(p, (k, Some (errNet 1)))] /\ Forall okEntry pre.
Proof.
  destruct (Write_outcome 64 helloPacket failingState) as (_ & _ & _ & _ & _ & _ & H).
  apply (H 0). vm_compute. reflexivity.
Defined.

(** ** The settings of the fragment test *)

Lemma singletons (l : list (list byte)) :
  Forall (fun f => len f = 1) l -> l = map (fun x => [x]) (concat l).
Proof.
  induction l as [|f l IH]; intros H; [reflexivity|].
  inversion H as [|? ? Hf Hl]; subst.
  destruct f as [|x [|y f]]; try (unfold len in Hf; simpl in Hf; lia).
  cbn [concat app map]. f_equal. apply IH. exact Hl.
Qed.

Lemma one_byte_fragments (news : list (list byte * (Z * option error))) :
  fragmentSizes (1, 2) news -> Forall nonEmptyWrite news ->
  map fst news = map (fun x => [x]) (concat (map fst news)).
Proof.
  intros (Hmax & _) Hne. apply singletons.
  apply Forall_map. rewrite Forall_forall in *. intros w Hw.
  specialize (Hmax w Hw). specialize (Hne w Hw).
  unfold nonEmptyWrite, rangeMax in *. cbn [fst snd] in Hmax. lia.
Qed.

(** X24. With the settings of the repository's fragment test (2000 bytes
    before the server name, [[1, 2]] for the server name and after it,
    [[10, 20]] milliseconds of delay), a first packet that is fragmented and
    written in full goes out as follows: the bytes before the server name
    in writes of at most 2000 bytes, then every byte from the server name
    on in a write of its own, with as many sleeps as writes, each of 10 to
    19 milliseconds, the duration being given in nanoseconds. *)
Theorem bepass_fragment_first_write :
  forall (fuel : nat) (b : list byte) (tcpConn : Conn) (r : Runtime)
         (hello : sni.ClientHelloMsg) (n : Z),
    let s := mkState (tcpTlsFragConn tcpConn) r in
    parseFirst b = Done (inl hello) ->
    bytes_Index b (sni.ServerName hello) <> -1 ->
    let index := bytes_Index b (sni.ServerName hello) in
    let R := Write fuel b s in
    fst R = Done (n, None) ->
    exists w0 ds,
      map fst (newWrites s (snd R)) = w0 ++ map (fun x => [x]) (drop index b) /\
      concat w0 = take index b /\
      Forall (fun f => 1 <= len f <= 2000) w0 /\
      slept (rt (snd R)) = slept r ++ map (fun d => d * time_Millisecond) ds /\
      length ds = length (newWrites s (snd R)) /\
      Forall (fun d => 10 <= d <= 19) ds.
Proof.
  intros fuel b tcpConn r hello n s Hparse Hidx index R HR. subst R.
  rewrite Write_unfold in HR |- *.
  change (isFirstWrite (self s)) with true in HR |- *. cbv iota in HR |- *.
  rewrite <- newWrites_started.
  destruct (fragmentAndWriteFirstPacket_zones fuel b (started s) hello n Hparse Hidx HR)
    as (w0 & w1 & w2 & Hnews & (C0 & C1 & C2) & (S0 & S1 & S2) & (N0 & N1 & N2)).
  fold index in C0, C2.
  assert (Hdelay : wfRange (Delay (self (started s)))) by (unfold wfRange; simpl; lia).
  destruct (fragmentAndWriteFirstPacket_sleeps fuel b (started s) hello Hparse Hidx Hdelay)
    as (ds & Hsl & Hds & _ & Hcount).
  rewrite HR in Hcount.
  assert (W : wfRange (1, 2)) by (unfold wfRange; simpl; lia).
  assert (P : progressRange (1, 2)) by (unfold progressRange; simpl; lia).
  specialize (S1 W). specialize (S2 W). specialize (N1 P). specialize (N2 P).
  assert (S0' : fragmentSizes (2000, 2000) w0) by (apply S0; unfold wfRange; simpl; lia).
  assert (N0' : Forall nonEmptyWrite w0) by (apply N0; unfold progressRange; simpl; lia).
  destruct (bytes_Index_bounds b _ Hidx) as (Hi0 & Hi1). fold index in Hi0, Hi1.
  pose proof (len_nonneg (sni.ServerName hello)) as Hl0.
  assert (Hrest : drop index b
                  = sni.ServerName hello ++ drop (index + len (sni.ServerName hello)) b).
  { rewrite <- (slice_drop b index (index + len (sni.ServerName hello))) by lia.
    unfold index. rewrite bytes_Index_found by assumption. reflexivity. }
  assert (Hbounds : Forall (fun d => 10 <= d <= 19) ds).
  { eapply Forall_impl; [|exact Hds]. intros d (_ & Hd).
    change (rangeMax (Delay (self (started s)))) with 19 in Hd.
    change (fst (Delay (self (started s)))) with 10 in Hd. exact Hd. }
  assert (Hdur : map sleepDuration ds = map (fun d => d * time_Millisecond) ds).
  { apply map_ext_in. intros d Hd. rewrite Forall_forall in Hbounds.
    specialize (Hbounds d Hd). unfold sleepDuration, time_Millisecond.
    apply wrap64_small. lia. }
  rewrite Hdur in Hsl.
  exists (map fst w0), ds.
  split; [|split; [exact C0|split; [|split; [exact Hsl|split]]]].
  - rewrite Hnews, !map_app. f_equal.
    rewrite (one_byte_fragments w1 S1 N1), (one_byte_fragments w2 S2 N2).
    rewrite C1, C2, Hrest, map_app. reflexivity.
  - apply Forall_map. destruct S0' as (Hmax & _).
    rewrite Forall_forall in *. intros w Hw.
    specialize (Hmax w Hw). specialize (N0' w Hw).
    unfold nonEmptyWrite, rangeMax in *. cbn [fst snd] in Hmax. lia.
  - rewrite Hcount by (simpl; lia). lia.
  - exact Hbounds.
Qed.

Lemma bepass_fragment_first_write_witness :
  let s := mkState (tcpTlsFragConn (freshConn [])) (mkRuntime [3; 14; 15] []) in
  exists w0 ds,
    map fst (newWrites s (snd (Write 64 helloPacket s)))
      = w0 ++ map (fun x => [x]) (drop 61 helloPacket) /\
    slept (rt (snd (Write 64 helloPacket s))) = map (fun d => d * time_Millisecond) ds /\
    length ds = length (newWrites s (snd (Write 64 helloPacket s))).
Proof.
  intros s.
  destruct (parseFirst helloPacket) as [[hello|e]| |] eqn:E;
    try (vm_compute in E; discriminate).
  assert (Hname : sni.ServerName hello = bytesOf [97; 46; 98]).
  { vm_compute in E. injection E as <-. reflexivity. }
  assert (Hidx : bytes_Index helloPacket (sni.ServerName hello) = 61).
  { rewrite Hname. vm_compute. reflexivity. }
  destruct (bepass_fragment_first_write 64 helloPacket (freshConn []) (mkRuntime [3; 14; 15] [])
              hello 64 E) as (w0 & ds & H & _ & _ & Hsl & Hlen & _).
  - rewrite Hidx. discriminate.
  - vm_compute. reflexivity.
  - rewrite Hidx in H. exists w0, ds. split; [exact H|]. split; [exact Hsl|exact Hlen].
Defined.

(** ** The result table *)

Lemma tally_spec lo hi lo' hi' attempts : forall c tt tl,
  0 <= lo -> 0 <= lo' ->
  Forall (durationsWithin lo hi lo' hi') attempts ->
  0 <= c -> (c + len attempts) * hi < 2 ^ 63 -> (c + len attempts) * hi' < 2 ^ 63 ->
  c * lo <= tt <= c * hi -> c * lo' <= tl <= c * hi' ->
  exists c' tt' tl',
    tally attempts (c, tt, tl) = (c', tt', tl') /\
    c' = c + len (filter succeeded attempts) /\
    c' * lo <= tt' <= c' * hi /\ c' * lo' <= tl' <= c' * hi'.
Proof.
  induction attempts as [|a rest IH]; intros c tt tl Hlo Hlo' Hall Hc Hhi Hhi' Htt Htl.
  - exists c, tt, tl. cbn [tally filter]. change (len (@nil TestAttemptResult)) with 0.
    rewrite Z.add_0_r. auto.
  - inversion Hall as [|? ? Ha Hrest]; subst. rewrite len_cons in Hhi, Hhi'.
    pose proof (len_nonneg rest) as Hr0.
    cbn [tally filter]. unfold durationsWithin in Ha.
    destruct (err a) as [e|] eqn:Ea.
    + replace (succeeded a) with false by (unfold succeeded; rewrite Ea; reflexivity).
      apply IH; try assumption; nia.
    + assert (Hs : succeeded a = true) by (unfold succeeded; rewrite Ea; reflexivity).
      rewrite Hs. destruct (Ha Hs) as (HT & HL).
      assert (Hh : lo <= hi /\ lo' <= hi') by lia.
      rewrite !wrap64_small by nia.
      destruct (IH (c + 1) (tt + TransportEstablishDuration a) (tl + TLSHandshakeDuration a))
        as (c' & tt' & tl' & E & Hc' & Hb & Hb'); try assumption; try nia.
      exists c', tt', tl'. rewrite len_cons. split; [exact E|]. split; [lia|]. auto.
Qed.

Lemma filter_none {A} (f : A -> bool) l :
  len (filter f l) = 0 <-> Forall (fun a => f a = false) l.
Proof.
  induction l as [|a l IH]; cbn [filter].
  - split; [constructor|reflexivity].
  - destruct (f a) eqn:E.
    + rewrite len_cons. pose proof (len_nonneg (filter f l)) as Hn. split; [lia|].
      intros Hf. inversion Hf; congruence.
    + rewrite IH. split; [intros Hf; constructor; assumption|].
      intros Hf. inversion Hf; assumption.
Qed.

Lemma filter_le {A} (f : A -> bool) l : len (filter f l) <= len l.
Proof.
  induction l as [|a l IH]; cbn [filter]; [lia|].
  destruct (f a); rewrite !len_cons; lia.
Qed.

Lemma filter_all {A} (f : A -> bool) l :
  len (filter f l) = len l <-> Forall (fun a => f a = true) l.
Proof.
  induction l as [|a l IH]; cbn [filter].
  - split; [constructor|reflexivity].
  - pose proof (filter_le f l) as Hle. destruct (f a) eqn:E.
    + rewrite !len_cons. split.
      * intros Hf. constructor; [assumption|]. apply IH. lia.
      * intros Hf. inversion Hf as [|? ? _ Hl]; subst. apply IH in Hl. lia.
    + rewrite len_cons. split; [lia|]. intros Hf. inversion Hf; congruence.
Qed.

(** X25. One row of the result table, for durations that do not overflow
    their sum: the counts are the successful attempts and all attempts; the
    status is Failed exactly when no attempt succeeded (also when there was
    none), Success exactly when there was an attempt and all succeeded,
    Partial otherwise; the averages are 0 for a Failed row and lie
    otherwise between the smallest and the largest duration of the
    successful attempts. *)
Theorem row_summary :
  forall (attempts : list TestAttemptResult) (lo hi lo' hi' : Z),
    0 <= lo -> 0 <= lo' ->
    Forall (durationsWithin lo hi lo' hi') attempts ->
    len attempts * hi < 2 ^ 63 -> len attempts * hi' < 2 ^ 63 ->
    exists status avgTransport avgTLS,
      row attempts
        = ((status, len (filter succeeded attempts), len attempts), (avgTransport, avgTLS)) /\
      (status = Failed <-> Forall (fun a => succeeded a = false) attempts) /\
      (status = Success <->
       attempts <> [] /\ Forall (fun a => succeeded a = true) attempts) /\
      (status = Failed -> avgTransport = 0 /\ avgTLS = 0) /\
      (status <> Failed -> lo <= avgTransport <= hi /\ lo' <= avgTLS <= hi').
Proof.
  intros attempts lo hi lo' hi' Hlo Hlo' Hall Hhi Hhi'.
  destruct (tally_spec lo hi lo' hi' attempts 0 0 0 Hlo Hlo' Hall)
    as (c & tt & tl & E & Hc & Hb & Hb'); try lia.
  rewrite Z.add_0_l in Hc. subst c.
  set (c := len (filter succeeded attempts)) in *.
  pose proof (len_nonneg (filter succeeded attempts)) as Hc0. fold c in Hc0.
  pose proof (filter_le succeeded attempts) as Hcl. fold c in Hcl.
  unfold row. rewrite E.
  destruct (Z.eqb_spec c 0) as [Hz|Hnz].
  - destruct (Z.ltb_spec 0 c); [lia|].
    exists Failed, 0, 0. split; [reflexivity|]. split; [|split; [|split]].
    + split; [intros _; apply filter_none; exact Hz|reflexivity].
    + split; [discriminate|]. intros (Hne & Hall1). exfalso.
      apply filter_all in Hall1. fold c in Hall1.
      destruct attempts; [contradiction|]. rewrite len_cons in Hall1.
      pose proof (len_nonneg attempts). lia.
    + auto.
    + contradiction.
  - destruct (Z.ltb_spec 0 c); [|lia].
    assert (Havg : lo <= Z.quot tt c <= hi /\ lo' <= Z.quot tl c <= hi').
    { rewrite !Z.quot_div_nonneg by nia. repeat split.
      - apply Z.div_le_lower_bound; lia.
      - apply Z.div_le_upper_bound; lia.
      - apply Z.div_le_lower_bound; lia.
      - apply Z.div_le_upper_bound; lia. }
    assert (Hnf : ~ Forall (fun a => succeeded a = false) attempts).
    { intros Hf. apply filter_none in Hf. fold c in Hf. contradiction. }
    destruct (Z.eqb_spec c (len attempts)) as [Hall1|Hpart].
    + exists Success, (Z.quot tt c), (Z.quot tl c). split; [reflexivity|].
      split; [split; [discriminate|contradiction]|].
      split; [|split; [discriminate|intros _; exact Havg]].
      split; [|reflexivity]. intros _. split.
      * intros ->. apply Hnz. reflexivity.
      * apply filter_all. exact Hall1.
    + exists Partial, (Z.quot tt c), (Z.quot tl c). split; [reflexivity|].
      split; [split; [discriminate|contradiction]|].
      split; [|split; [discriminate|intros _; exact Havg]].
      split; [discriminate|]. intros (_ & Hs). apply filter_all in Hs. contradiction.
Qed.

Lemma row_summary_witness :
  exists status avgTransport avgTLS,
    row exampleAttempts = ((status, 2, 3), (avgTransport, avgTLS)) /\
    (status <> Failed -> 30 <= avgTransport <= 50 /\ 70 <= avgTLS <= 90).
Proof.
  destruct (row_summary exampleAttempts 30 50 70 90) as (st & a & a' & E & _ & _ & _ & H).
  - lia.
  - lia.
  - unfold exampleAttempts, durationsWithin.
    repeat (constructor; [cbn; intros; try discriminate; lia|]). constructor.
  - vm_compute. reflexivity.
  - vm_compute. reflexivity.
  - exists st, a, a'. split; [exact E|exact H].
Defined.
